(** * GooglePlay.ts: the track update of the Google Play release task

    A shallow embedding of [updateTrack], of [getVersionCodeListInput] and of
    the part of [run] that chooses the version-code filter
    (src/GooglePlay.ts), together with the properties of the version codes
    that [updateTrack] sends to the store.

    Conventions of the embedding.
    - Version codes are JavaScript numbers that hold integers; they are
      modelled by [Z].  On the safe-integer range this is exact for [===],
      for [Array.prototype.indexOf] and for [Number.prototype.toString].
    - Strings are [string]; the white space recognised by [trim] and by
      [parseInt] is the ASCII part of the ECMAScript white-space set.
    - The calls to the store ([googleutil.getTrack], [googleutil.updateTrack])
      are answered by an oracle [Edits]; every call is recorded in a trace.
    - [tl.debug] and [console.log] lines have no influence on the results and
      are left out. *)

From Stdlib Require Import ZArith List String Ascii Bool Lia.
From Stdlib Require Import DecimalString DecimalPos DecimalZ Permutation.
Import ListNotations.

Local Open Scope string_scope.
Local Open Scope list_scope.
Local Open Scope Z_scope.

Set Implicit Arguments.

(** ** Data *)

(** [googleutil.Release]: only [versionCodes] is read by GooglePlay.ts, as a
    [number[]] (line 244). *)
Record Release := { versionCodes : list Z }.

(** [googleutil.Track]. *)
Record Track := { track : string; releases : list Release }.

(** The value passed as [versionCodeFilter : string | number[]]; [run]
    initialises it with [null]. *)
Inductive FilterValue :=
| FNull
| FString (s : string)
| FNumbers (l : list Z).

(** What can be thrown.  [External] is the rejection value of a call to the
    store; the three last constructors stand for [new Error(tl.loc(key, ...))]
    with the key of the same name, and [InputRequired] for the error of
    [tl.getInput(name, true)] on a missing input. *)
Inductive exn :=
| External (e : string)
| TypeError
| SyntaxError
| InputRequired (name : string)
| CannotDownloadTrack (trackName : string) (e : exn)
| CannotUpdateTrack (trackName : string) (e : exn)
| IncorrectVersionCodeFilter (incorrectCodes : list string).

(** [new RegExp(source)] of the JavaScript runtime: [None] is the
    [SyntaxError] of an ill-formed source, [Some m] a compiled expression
    with [m s = true] exactly when [s.match(re)] is not [null]. *)
Class RegExpRuntime := { new_RegExp : string -> option (string -> bool) }.

(** ** Elementary JavaScript operations *)

(** [x === 'lit'] for an [x] that may be [undefined]. *)
Definition strict_eq (x : option string) (lit : string) : bool :=
  match x with
  | Some s => String.eqb s lit
  | None => false
  end.

(** [Array.prototype.indexOf] from position [i]. *)
Fixpoint indexOf_from (i : Z) (arr : list Z) (x : Z) : Z :=
  match arr with
  | [] => -1
  | y :: rest => if y =? x then i else indexOf_from (i + 1) rest x
  end.

Definition indexOf (arr : list Z) (x : Z) : Z := indexOf_from 0 arr x.

(** [Array.prototype.push], keeping the array. *)
Definition push (arr : list Z) (x : Z) : list Z := arr ++ [x].

(** [Number.prototype.toString] on an integer: its decimal text.  That is
    what the code gives for a version code below [10 ^ 21] in absolute
    value; from there on the code writes an exponent. *)
Definition toString (n : Z) : string := NilZero.string_of_int (Z.to_int n).

(** ** Calls to the store and the monad of the task *)

Section Task.

(** [userFraction] and [updatePriority] are numbers, [releaseNotes] an
    optional array; [updateTrack] hands them on unread. *)
Variables Number Notes : Type.

Inductive call :=
| CallGetTrack (packageName trackName : string)
| CallUpdateTrack (packageName trackName : string) (codes : list Z)
    (userFraction updatePriority : Number) (releaseNotes : Notes).

(** The [edits] resource: what the store answers to each request. *)
Record Edits := {
  getTrack_answer : string -> string -> exn + Track;
  updateTrack_answer :
    string -> string -> list Z -> Number -> Number -> Notes -> exn + Track
}.

(** A computation records its calls and ends in a value or a throw. *)
Definition M (A : Type) : Type := (list call * (exn + A))%type.

Definition ret {A} (a : A) : M A := ([], inr a).

Definition throw {A} (e : exn) : M A := ([], inl e).

Definition bind {A B} (m : M A) (k : A -> M B) : M B :=
  match m with
  | (tr, inl e) => (tr, inl e)
  | (tr, inr a) => let (tr', r) := k a in (tr ++ tr', r)
  end.

(** [try { m } catch (e) { h e }]. *)
Definition try_catch {A} (m : M A) (h : exn -> M A) : M A :=
  match m with
  | (tr, inl e) => let (tr', r) := h e in (tr ++ tr', r)
  | (tr, inr a) => (tr, inr a)
  end.

Notation "x <- m ;; k" := (bind m (fun x => k))
  (at level 61, m at next level, right associativity).

(** [arr.forEach(body)] where [body] updates a captured array [s]. *)
Fixpoint forEach {A S} (arr : list A) (body : A -> S -> M S) (s : S) : M S :=
  match arr with
  | [] => ret s
  | x :: rest => s' <- body x s ;; forEach rest body s'
  end.

(** [googleutil.getTrack(edits, packageName, track)]. *)
Definition googleutil_getTrack (edits : Edits) (packageName trackName : string)
  : M Track :=
  ([CallGetTrack packageName trackName],
   getTrack_answer edits packageName trackName).

(** [googleutil.updateTrack(edits, packageName, track, versionCodes,
    userFraction, updatePriority, releaseNotes)]. *)
Definition googleutil_updateTrack (edits : Edits) (packageName trackName : string)
    (codes : list Z) (userFraction updatePriority : Number)
    (releaseNotes : Notes) : M Track :=
  ([CallUpdateTrack packageName trackName codes userFraction updatePriority
      releaseNotes],
   updateTrack_answer edits packageName trackName codes userFraction
     updatePriority releaseNotes).

(** [res.releases[0].versionCodes]: reading a property of [undefined]
    throws a [TypeError]. *)
Definition first_release_versionCodes (res : Track) : M (list Z) :=
  match releases res with
  | [] => throw TypeError
  | r :: _ => ret (versionCodes r)
  end.

(** [new RegExp(source)]. *)
Definition construct_RegExp `{RegExpRuntime} (source : string)
  : M (string -> bool) :=
  match new_RegExp source with
  | Some re => ret re
  | None => throw SyntaxError
  end.

(** ** [updateTrack] (GooglePlay.ts, lines 219-284) *)

Definition updateTrack `{RegExpRuntime} (edits : Edits)
    (packageName trackName : string) (apkVersionCodes : list Z)
    (versionCodeListType : option string) (versionCodeFilter : FilterValue)
    (userFraction updatePriority : Number) (releaseNotes : Notes) : M Track :=
  newTrackVersionCodes <-
    (if strict_eq versionCodeListType "all" then
       ret apkVersionCodes
     else
       res <- try_catch (googleutil_getTrack edits packageName trackName)
                (fun e => throw (CannotDownloadTrack trackName e)) ;;
       oldTrackVersionCodes <- first_release_versionCodes res ;;
       kept <-
         match versionCodeFilter with
         | FString pattern =>
             versionCodesToRemove <- construct_RegExp ("^" ++ pattern ++ "$")%string ;;
             forEach oldTrackVersionCodes
               (fun versionCode newTrackVersionCodes =>
                  if negb (versionCodesToRemove (toString versionCode))
                  then ret (push newTrackVersionCodes versionCode)
                  else ret newTrackVersionCodes)
               []
         | FNumbers versionCodesToRemove =>
             forEach oldTrackVersionCodes
               (fun versionCode newTrackVersionCodes =>
                  if indexOf versionCodesToRemove versionCode =? -1
                  then ret (push newTrackVersionCodes versionCode)
                  else ret newTrackVersionCodes)
               []
         | FNull =>
             (* [null.indexOf]: the callback throws at its first call *)
             forEach oldTrackVersionCodes
               (fun versionCode newTrackVersionCodes => throw TypeError)
               []
         end ;;
       forEach apkVersionCodes
         (fun versionCode newTrackVersionCodes =>
            if indexOf newTrackVersionCodes versionCode =? -1
            then ret (push newTrackVersionCodes versionCode)
            else ret newTrackVersionCodes)
         kept) ;;
  try_catch
    (googleutil_updateTrack edits packageName trackName newTrackVersionCodes
       userFraction updatePriority releaseNotes)
    (fun e => throw (CannotUpdateTrack trackName e)).

(** The version codes handed to [googleutil.updateTrack] in a run, if the
    run got that far. *)
Fixpoint submitted (tr : list call) : option (list Z) :=
  match tr with
  | [] => None
  | CallUpdateTrack _ _ codes _ _ _ :: _ => Some codes
  | CallGetTrack _ _ :: rest => submitted rest
  end.

Definition mergedVersionCodes {A} (m : M A) : option (list Z) :=
  submitted (fst m).

(** Whether the current track was asked for in a run. *)
Definition fetched {A} (m : M A) : bool :=
  existsb (fun c => match c with CallGetTrack _ _ => true | _ => false end)
    (fst m).

End Task.

Arguments CallGetTrack {Number Notes} packageName trackName.
Arguments ret {Number Notes A} a.
Arguments throw {Number Notes A} e.

(** ** A regular-expression runtime

    The fragment of ECMAScript regular expressions (no flags) made of
    characters, [.], the escapes [\d \D \w \W \s \S \t \n \r \f \v] and
    escaped punctuation, bracket classes with ranges and negation, groups
    [( )] and [(?: )], alternation, the quantifiers [* + ?] and
    [{n} {n,} {n,m}] (greedy or lazy) and the assertions [^] and [$].
    Only whether a match exists is modelled, which is all that
    [String.prototype.match] is used for in [updateTrack].  A source outside
    the fragment is reported like an ill-formed one. *)

Module RegExp.

Inductive item :=
| Single (c : ascii)
| Range (lo hi : ascii)
| Digit
| Word
| Space
| Not (i : item).

Inductive regex :=
| Empty
| Atom (negated : bool) (items : list item)
| AssertStart
| AssertEnd
| Seq (r1 r2 : regex)
| Alt (r1 r2 : regex)
| Star (r : regex).

Definition code (c : ascii) : nat := nat_of_ascii c.

Definition between (lo hi : nat) (c : ascii) : bool :=
  (Nat.leb lo (code c) && Nat.leb (code c) hi)%bool.

Definition is_digit (c : ascii) : bool := between 48 57 c.

Definition is_word (c : ascii) : bool :=
  (is_digit c || between 65 90 c || between 97 122 c || Ascii.eqb c "_")%bool.

Definition is_space (c : ascii) : bool :=
  (between 9 13 c || Nat.eqb (code c) 32)%bool.

Fixpoint in_item (i : item) (c : ascii) : bool :=
  match i with
  | Single d => Ascii.eqb c d
  | Range lo hi => between (code lo) (code hi) c
  | Digit => is_digit c
  | Word => is_word c
  | Space => is_space c
  | Not j => negb (in_item j c)
  end.

Definition in_class (negated : bool) (items : list item) (c : ascii) : bool :=
  xorb negated (existsb (fun i => in_item i c) items).

(** A position in the subject: whether it is index 0, and what is left. *)
Definition pos : Type := (bool * list ascii)%type.

(** Backtracking matcher in continuation-passing style.  An iteration of
    [Star] that consumes nothing is abandoned, as in RepeatMatcher. *)
Fixpoint matchK (r : regex) (k : pos -> bool) (p : pos) : bool :=
  match r with
  | Empty => k p
  | Atom negated items =>
      match snd p with
      | c :: rest => if in_class negated items c then k (false, rest) else false
      | [] => false
      end
  | AssertStart => if fst p then k p else false
  | AssertEnd => match snd p with [] => k p | _ :: _ => false end
  | Seq r1 r2 => matchK r1 (matchK r2 k) p
  | Alt r1 r2 => (matchK r1 k p || matchK r2 k p)%bool
  | Star r1 =>
      (fix loop (n : nat) (p : pos) : bool :=
         match n with
         | O => k p
         | S n' =>
             (matchK r1
                (fun p' =>
                   if Nat.ltb (List.length (snd p')) (List.length (snd p))
                   then loop n' p' else false) p
              || k p)%bool
         end) (List.length (snd p)) p
  end.

(** A match starting at some index of the subject. *)
Fixpoint search (r : regex) (at_start : bool) (s : list ascii) : bool :=
  (matchK r (fun _ => true) (at_start, s)
   || match s with
      | [] => false
      | _ :: rest => search r false rest
      end)%bool.

(** *** Parsing the source *)

Definition lit (c : ascii) : regex := Atom false [Single c].

(** [.]: any character but a line terminator. *)
Definition dot : regex := Atom true [Single "010"; Single "013"]%char.

Definition is_alnum (c : ascii) : bool :=
  (is_digit c || between 65 90 c || between 97 122 c)%bool.

(** The item named by the character after a backslash. *)
Definition escape_item (c : ascii) : option item :=
  match c with
  | "d" => Some Digit
  | "D" => Some (Not Digit)
  | "w" => Some Word
  | "W" => Some (Not Word)
  | "s" => Some Space
  | "S" => Some (Not Space)
  | "t" => Some (Single "009")
  | "n" => Some (Single "010")
  | "v" => Some (Single "011")
  | "f" => Some (Single "012")
  | "r" => Some (Single "013")
  | _ => if is_alnum c then None else Some (Single c)
  end%char.

Inductive token := TDash | TItem (i : item).

(** The members of a bracket class up to its [[]]], and what follows. *)
Fixpoint class_tokens (s : list ascii) : option (list token * list ascii) :=
  match s with
  | [] => None
  | "]"%char :: rest => Some ([], rest)
  | "\"%char :: c :: rest =>
      match (if Ascii.eqb c "b" then Some (Single "008"%char) else escape_item c),
            class_tokens rest with
      | Some i, Some (ts, rest') => Some (TItem i :: ts, rest')
      | _, _ => None
      end
  | "\"%char :: [] => None
  | c :: rest =>
      match class_tokens rest with
      | Some (ts, rest') =>
          Some ((if Ascii.eqb c "-" then TDash else TItem (Single c)) :: ts, rest')
      | None => None
      end
  end.

Definition token_char (t : token) : option ascii :=
  match t with
  | TDash => Some "-"%char
  | TItem (Single c) => Some c
  | TItem _ => None
  end.

Definition token_item (t : token) : item :=
  match t with
  | TDash => Single "-"
  | TItem i => i
  end.

(** Ranges [a-b]; a range out of order is an error. *)
Fixpoint class_items (ts : list token) : option (list item) :=
  match ts with
  | [] => Some []
  | a :: TDash :: b :: rest =>
      match token_char a, token_char b with
      | Some lo, Some hi =>
          if Nat.leb (code lo) (code hi)
          then option_map (cons (Range lo hi)) (class_items rest)
          else None
      | _, _ =>
          option_map (fun l => token_item a :: Single "-"%char :: token_item b :: l)
            (class_items rest)
      end
  | a :: rest => option_map (cons (token_item a)) (class_items rest)
  end.

Fixpoint read_number (acc : option nat) (s : list ascii) : option nat * list ascii :=
  match s with
  | c :: rest =>
      if is_digit c
      then read_number
             (Some (10 * match acc with Some n => n | None => 0 end
                    + (code c - 48))%nat) rest
      else (acc, s)
  | [] => (acc, s)
  end.

Fixpoint times (n : nat) (r : regex) : regex :=
  match n with
  | O => Empty
  | S n' => Seq r (times n' r)
  end.

(** At most [n] copies of [r]. *)
Fixpoint upto (n : nat) (r : regex) : regex :=
  match n with
  | O => Empty
  | S n' => Alt (Seq r (upto n' r)) Empty
  end.

Definition skip_lazy (s : list ascii) : list ascii :=
  match s with
  | "?"%char :: rest => rest
  | _ => s
  end.

(** The quantifier, if any, that follows the atom [r]. *)
Definition quantified (r : regex) (s : list ascii) : option (regex * list ascii) :=
  match s with
  | "*"%char :: rest => Some (Star r, skip_lazy rest)
  | "+"%char :: rest => Some (Seq r (Star r), skip_lazy rest)
  | "?"%char :: rest => Some (Alt r Empty, skip_lazy rest)
  | "{"%char :: rest =>
      match read_number None rest with
      | (Some n, "}"%char :: rest') => Some (times n r, skip_lazy rest')
      | (Some n, ","%char :: rest') =>
          match read_number None rest' with
          | (None, "}"%char :: rest'') =>
              Some (Seq (times n r) (Star r), skip_lazy rest'')
          | (Some m, "}"%char :: rest'') =>
              if Nat.leb n m
              then Some (Seq (times n r) (upto (m - n) r), skip_lazy rest'')
              else None
          | _ => None
          end
      | _ => None
      end
  | _ => Some (r, s)
  end.

Definition is_syntax_char (c : ascii) : bool :=
  existsb (Ascii.eqb c)
    ["^"; "$"; "\"; "."; "*"; "+"; "?"; "("; ")"; "["; "]"; "{"; "}"; "|"]%char.

(** Recursive descent: [Disjunction], [Alternative], [Term]. *)
Fixpoint parse_disjunction (fuel : nat) (s : list ascii)
  : option (regex * list ascii) :=
  match fuel with
  | O => None
  | S fuel' =>
      match parse_alternative fuel' s with
      | Some (r1, "|"%char :: rest) =>
          match parse_disjunction fuel' rest with
          | Some (r2, rest') => Some (Alt r1 r2, rest')
          | None => None
          end
      | other => other
      end
  end

with parse_alternative (fuel : nat) (s : list ascii)
  : option (regex * list ascii) :=
  match fuel with
  | O => None
  | S fuel' =>
      match s with
      | [] => Some (Empty, s)
      | "|"%char :: _ => Some (Empty, s)
      | ")"%char :: _ => Some (Empty, s)
      | _ =>
          match parse_term fuel' s with
          | Some (r1, rest) =>
              match parse_alternative fuel' rest with
              | Some (r2, rest') => Some (Seq r1 r2, rest')
              | None => None
              end
          | None => None
          end
      end
  end

with parse_term (fuel : nat) (s : list ascii) : option (regex * list ascii) :=
  match fuel with
  | O => None
  | S fuel' =>
      let group body :=
        match parse_disjunction fuel' body with
        | Some (r, ")"%char :: rest) => quantified r rest
        | _ => None
        end in
      match s with
      | [] => None
      | "^"%char :: rest => Some (AssertStart, rest)
      | "$"%char :: rest => Some (AssertEnd, rest)
      | "("%char :: "?"%char :: ":"%char :: rest => group rest
      | "("%char :: "?"%char :: _ => None
      | "("%char :: rest => group rest
      | "["%char :: "^"%char :: rest =>
          match class_tokens rest with
          | Some (ts, rest') =>
              match class_items ts with
              | Some items => quantified (Atom true items) rest'
              | None => None
              end
          | None => None
          end
      | "["%char :: rest =>
          match class_tokens rest with
          | Some (ts, rest') =>
              match class_items ts with
              | Some items => quantified (Atom false items) rest'
              | None => None
              end
          | None => None
          end
      | "."%char :: rest => quantified dot rest
      | "\"%char :: c :: rest =>
          match escape_item c with
          | Some i => quantified (Atom false [i]) rest
          | None => None
          end
      | c :: rest => if is_syntax_char c then None else quantified (lit c) rest
      end
  end.

(** The whole source must be one [Disjunction]. *)
Definition parse (source : string) : option regex :=
  let s := list_ascii_of_string source in
  match parse_disjunction (3 * List.length s + 4) s with
  | Some (r, []) => Some r
  | _ => None
  end.

(** [s.match(re) !== null]. *)
Definition test (r : regex) (subject : string) : bool :=
  search r true (list_ascii_of_string subject).

End RegExp.

#[export] Instance fragment_runtime : RegExpRuntime :=
  {| new_RegExp source := option_map RegExp.test (RegExp.parse source) |}.

(** ** Reading the list of version codes to replace *)

(** The result of [parseInt]: [NaN] or an integer. *)
Inductive number := NaN | Num (z : Z).

(** Truthiness of a number: [NaN] and [0] are falsy. *)
Definition truthy (n : number) : bool :=
  match n with
  | NaN => false
  | Num z => negb (z =? 0)
  end.

(** [n > 0]; a comparison with [NaN] is false. *)
Definition gt0 (n : number) : bool :=
  match n with
  | NaN => false
  | Num z => 0 <? z
  end.

Fixpoint trimStart (s : list ascii) : list ascii :=
  match s with
  | c :: rest => if RegExp.is_space c then trimStart rest else s
  | [] => []
  end.

(** [String.prototype.trim] on a text of ASCII characters: the white space
    removed is that of [RegExp.is_space], tab to carriage return and the
    space.  The white space beyond ASCII that the code also removes is not
    modelled; see [ascii_text]. *)
Definition trim (s : string) : string :=
  string_of_list_ascii
    (rev (trimStart (rev (trimStart (list_ascii_of_string s))))).

Definition digit_value (c : ascii) : Z := Z.of_nat (RegExp.code c) - 48.

(** The value of the longest prefix of decimal digits, if it is not empty,
    and what follows it. *)
Fixpoint read_digits (acc : option Z) (s : list ascii)
  : option Z * list ascii :=
  match s with
  | c :: rest =>
      if RegExp.is_digit c
      then read_digits
             (Some (10 * match acc with Some n => n | None => 0 end
                    + digit_value c)) rest
      else (acc, s)
  | [] => (acc, s)
  end.

(** An optional sign, taken off the front. *)
Definition read_sign (s : list ascii) : Z * list ascii :=
  match s with
  | "-"%char :: rest => (-1, rest)
  | "+"%char :: rest => (1, rest)
  | _ => (1, s)
  end.

(** [parseInt(s, 10)]: leading white space is skipped, a sign is read, then
    the longest run of digits; what follows the digits is ignored, and
    without a digit the result is [NaN].  The text is one of ASCII
    characters, as for [trim].  The value is kept exact, which is what the
    code computes up to [max_exact]; beyond it the code rounds to a double
    (keeping the sign, so that a positive value stays positive), which is
    not modelled. *)
Definition parseInt (s : string) : number :=
  let (sign, body) := read_sign (trimStart (list_ascii_of_string s)) in
  match fst (read_digits None body) with
  | Some mathInt => Num (sign * mathInt)
  | None => NaN
  end.

(** [getVersionCodeListInput] (GooglePlay.ts, lines 387-407), as a function
    of the array returned by [tl.getDelimitedInput('replaceList', ',')]. *)
Definition getVersionCodeListInput (versionCodeFilterInput : list string)
  : exn + list Z :=
  let '(versionCodeFilter, incorrectCodes) :=
    fold_left
      (fun '(versionCodeFilter, incorrectCodes) versionCode =>
         match parseInt (trim versionCode) with
         | Num z as versionCodeNumber =>
             if (truthy versionCodeNumber && gt0 versionCodeNumber)%bool
             then (versionCodeFilter ++ [z], incorrectCodes)
             else (versionCodeFilter, incorrectCodes ++ [trim versionCode])
         | NaN => (versionCodeFilter, incorrectCodes ++ [trim versionCode])
         end)
      versionCodeFilterInput ([], []) in
  if (0 <? Z.of_nat (List.length incorrectCodes))
  then inl (IncorrectVersionCodeFilter incorrectCodes)
  else inr versionCodeFilter.

(** The choice of [versionCodeFilter] in [run] (lines 50-56), as a function
    of the three task inputs: [None] is an input that is not set;
    [replaceExpression] is a required input. *)
Definition run_versionCodeFilter (versionCodeFilterType : option string)
    (replaceList : list string) (replaceExpression : option string)
  : exn + FilterValue :=
  if strict_eq versionCodeFilterType "list" then
    match getVersionCodeListInput replaceList with
    | inr l => inr (FNumbers l)
    | inl e => inl e
    end
  else if strict_eq versionCodeFilterType "expression" then
    match replaceExpression with
    | Some pattern => inr (FString pattern)
    | None => inl (InputRequired "replaceExpression")
    end
  else inr FNull.

(** ** Vocabulary of the properties *)

Definition mem (c : Z) (l : list Z) : bool := existsb (Z.eqb c) l.

(** Each code once, at the place of its first occurrence. *)
Fixpoint first_occurrences (l : list Z) : list Z :=
  match l with
  | [] => []
  | c :: rest => c :: filter (fun d => negb (d =? c)) (first_occurrences rest)
  end.

(** The old codes that the filter does not exclude, in their order. *)
Definition survivors (excluded : Z -> bool) (old : list Z) : list Z :=
  filter (fun c => negb (excluded c)) old.

(** The uploaded codes that are not among [kept], in upload order. *)
Definition appended (kept new : list Z) : list Z :=
  first_occurrences (filter (fun c => negb (mem c kept)) new).

(** The exclusion rule of a filter value: membership in the list, or a
    match of the decimal representation against [^pattern$]. *)
Definition excludes `{RegExpRuntime} (versionCodeFilter : FilterValue)
  : option (Z -> bool) :=
  match versionCodeFilter with
  | FNumbers versionCodesToRemove => Some (fun c => mem c versionCodesToRemove)
  | FString pattern =>
      option_map (fun re c => re (toString c))
        (new_RegExp ("^" ++ pattern ++ "$")%string)
  | FNull => None
  end.

(** The version codes of the first release of the fetched track. *)
Definition oldVersionCodes {Number Notes} (edits : Edits Number Notes)
    (packageName trackName : string) : option (list Z) :=
  match getTrack_answer edits packageName trackName with
  | inr res =>
      match releases res with
      | r :: _ => Some (versionCodes r)
      | [] => None
      end
  | inl _ => None
  end.

(** What the last statement of [updateTrack] does with the merged codes. *)
Definition send {Number Notes} (edits : Edits Number Notes)
    (packageName trackName : string) (codes : list Z)
    (userFraction updatePriority : Number) (releaseNotes : Notes)
  : M Number Notes Track :=
  ([CallUpdateTrack packageName trackName codes userFraction updatePriority
      releaseNotes],
   match updateTrack_answer edits packageName trackName codes userFraction
           updatePriority releaseNotes with
   | inl e => inl (CannotUpdateTrack trackName e)
   | inr res => inr res
   end).

Definition is_CannotDownloadTrack {A} (r : exn + A) : bool :=
  match r with
  | inl (CannotDownloadTrack _ _) => true
  | _ => false
  end.

(** A text made of decimal digits only. *)
Definition digits_only (s : string) : Prop :=
  Forall (fun c => RegExp.is_digit c = true) (list_ascii_of_string s).

(** The expression for the characters [p] followed by [$]. *)
Fixpoint anchored_tail (p : list ascii) : RegExp.regex :=
  match p with
  | [] => RegExp.Seq RegExp.AssertEnd RegExp.Empty
  | c :: rest => RegExp.Seq (RegExp.lit c) (anchored_tail rest)
  end.

(** Following the specification's words for the explicit list: the entry,
    white space aside, is an optionally signed run of digits and nothing
    else, and its value is positive. *)
Definition denotes_positive_integer (s : string) : bool :=
  let (sign, body) := read_sign (list_ascii_of_string (trim s)) in
  match read_digits None body with
  | (Some n, []) => 0 <? sign * n
  | _ => false
  end.

(** What [getVersionCodeListInput] accepts: [parseInt] of the trimmed entry
    is a positive number. *)
Definition accepted (s : string) : bool :=
  let n := parseInt (trim s) in (truthy n && gt0 n)%bool.

Definition parsed_value (s : string) : Z :=
  match parseInt (trim s) with
  | Num z => z
  | NaN => 0
  end.

(** The texts on which the model of strings is exact: every character is
    below 128.  [trim] and [parseInt] know the white space of ASCII only,
    while String.prototype.trim and parseInt also skip the white space
    beyond it; what is proved of entries is proved of ASCII entries. *)
Definition ascii_text (s : string) : bool :=
  forallb (fun c => Nat.ltb (RegExp.code c) 128) (list_ascii_of_string s).

(** Up to [2 ^ 53] every integer is a double, so that [parseInt] and the
    arithmetic on version codes are exact. *)
Definition max_exact : Z := 2 ^ 53.

(** The value of a run of decimal digits. *)
Definition decimal_value (digits : list ascii) : Z :=
  fold_left (fun acc c => 10 * acc + digit_value c) digits 0.

(** The factor of an optional sign. *)
Definition sign_value (sign : list ascii) : option Z :=
  match sign with
  | [] => Some 1
  | [c] => if Ascii.eqb c "+" then Some 1
           else if Ascii.eqb c "-" then Some (-1) else None
  | _ => None
  end.

(** Following the amended C8: after leading white space the entry starts
    with an optionally signed run of decimal digits, of value [n]; what
    follows the digits is free. *)
Definition leading_integer (s : string) (n : Z) : Prop :=
  exists ws sign digits rest sg,
    list_ascii_of_string s = ws ++ sign ++ digits ++ rest
    /\ Forall (fun c => RegExp.is_space c = true) ws
    /\ sign_value sign = Some sg
    /\ digits <> []
    /\ Forall (fun c => RegExp.is_digit c = true) digits
    /\ match rest with
       | c :: _ => RegExp.is_digit c = false
       | [] => True
       end
    /\ n = sg * decimal_value digits.

(** A store whose track holds the releases [rs] and which accepts every
    update. *)
Definition store_with (rs : list Release) : Edits unit unit :=
  {| getTrack_answer _ trackName := inr {| track := trackName; releases := rs |};
     updateTrack_answer _ trackName codes _ _ _ :=
       inr {| track := trackName; releases := [{| versionCodes := codes |}] |} |}.

(** A store that cannot return the track. *)
Definition store_down : Edits unit unit :=
  {| getTrack_answer _ _ := inl (External "not found");
     updateTrack_answer _ trackName codes _ _ _ :=
       inr {| track := trackName; releases := [{| versionCodes := codes |}] |} |}.

(** ** Files, globs and the list of APKs *)

(** [if (x)] for a string that may be [undefined]: the empty string and
    [undefined] are falsy. *)
Definition truthy_string (x : option string) : bool :=
  match x with
  | Some s => negb (String.eqb s EmptyString)
  | None => false
  end.

(** [path.replace] with the global pattern of one double quote and the
    empty replacement: every double quote is taken out. *)
Definition remove_quotes (s : string) : string :=
  string_of_list_ascii
    (filter (fun c => negb (Ascii.eqb c "034")) (list_ascii_of_string s)).

(** A value that holds a path, [undefined] or [null]. *)
Inductive PathValue := PNull | PUndefined | PString (s : string).

(** [v !== null]. *)
Definition not_null (v : PathValue) : bool :=
  match v with
  | PNull => false
  | _ => true
  end.

(** [shouldPickObbForApk] (lines 409-417). *)
Definition shouldPickObbForApk (apk mainApk : string)
    (shouldPickObbFile shouldPickObbFileForAdditonalApks : bool) : bool :=
  if (String.eqb apk mainApk && shouldPickObbFile)%bool then true
  else if (negb (String.eqb apk mainApk) && shouldPickObbFileForAdditonalApks)%bool
       then true
  else false.

(** What the file system, [glob], [path] and the task library answer.
    [readdirSync] throws on a directory that cannot be read.  [tl_resolve]
    answers for a first argument that is a string: with the variable not
    set, [tl.resolve] throws a [TypeError] in the code, which is not
    modelled, and what is said of resolved patterns is said for a working
    directory that is set. *)
Record FileSystem := {
  glob_sync : string -> list string;
  path_dirname : string -> string;
  path_extname : string -> string;
  path_join : string -> string -> string;
  readdirSync : string -> exn + list string;
  tl_getVariable : string -> option string;
  tl_resolve : option string -> string -> string
}.

(** [resolveGlobPath] (lines 291-303) on a string; the empty string is
    falsy and returned as it is. *)
Definition resolveGlobPath (fs : FileSystem) (path : string) : string :=
  if truthy_string (Some path) then
    let path := remove_quotes path in
    match glob_sync fs path with
    | first :: _ => first
    | [] => path
    end
  else path.

(** [resolveGlobPaths] (lines 310-325). *)
Definition resolveGlobPaths (fs : FileSystem) (path : string) : list string :=
  if truthy_string (Some path) then
    let path :=
      tl_resolve fs (tl_getVariable fs "System.DefaultWorkingDirectory") path in
    match glob_sync fs path with
    | [] => [path]
    | filesList => filesList
    end
  else [].

(** [getObbFile] (lines 335-359).  [Array.prototype.find] gives
    [undefined] when no element is found, and that is what the last line
    returns; a found name counts only if it is truthy. *)
Definition getObbFile (fs : FileSystem) (apkPath packageName : string)
    (versionCode : Z) : exn + PathValue :=
  let currentDirectory := path_dirname fs apkPath in
  let parentDirectory := path_dirname fs currentDirectory in
  match readdirSync fs parentDirectory with
  | inl e => inl e
  | inr fileNamesInParentDirectory =>
      let obbPathFileInParent :=
        find (fun file => String.eqb (path_extname fs file) ".obb")
          fileNamesInParentDirectory in
      let inApkDirectory :=
        match readdirSync fs currentDirectory with
        | inl e => inl e
        | inr fileNamesInApkDirectory =>
            let expectedMainObbFile :=
              ("main." ++ toString versionCode ++ "." ++ packageName ++ ".obb")%string in
            let obbPathFileInCurrent :=
              find (fun file => String.eqb file expectedMainObbFile)
                fileNamesInApkDirectory in
            match obbPathFileInCurrent with
            | Some file =>
                if truthy_string obbPathFileInCurrent
                then inr (PString (path_join fs currentDirectory file))
                else inr (PString file)
            | None => inr PUndefined
            end
        end in
      match obbPathFileInParent with
      | Some file =>
          if truthy_string obbPathFileInParent
          then inr (PString (path_join fs parentDirectory file))
          else inApkDirectory
      | None => inApkDirectory
      end
  end.

(** *** An object used as a set of keys

    [apkFileList] in [getAllApkPaths] is an object whose values are all 0.
    It is modelled by its own keys in creation order.  Assigning the key
    [__proto__] creates no own property, and [Object.keys] lists the keys
    that are array indices first, in ascending order, then the others in
    creation order. *)

(** The number a key stands for when it is an array index: a canonical
    decimal numeral below 2^32 - 1. *)
Definition array_index (k : string) : option Z :=
  match list_ascii_of_string k with
  | [] => None
  | c :: rest =>
      match read_digits None (c :: rest) with
      | (Some n, []) =>
          if ((negb (Ascii.eqb c "0") || match rest with [] => true | _ => false end)
              && (n <? 4294967295))%bool
          then Some n else None
      | _ => None
      end
  end.

(** [o[k] = 0]. *)
Definition obj_set (o : list string) (k : string) : list string :=
  if String.eqb k "__proto__" then o
  else if existsb (String.eqb k) o then o
  else o ++ [k].

Fixpoint insert_index (n : Z) (k : string) (l : list (Z * string))
  : list (Z * string) :=
  match l with
  | [] => [(n, k)]
  | (m, k') :: rest =>
      if n <? m then (n, k) :: l else (m, k') :: insert_index n k rest
  end.

Definition is_index_key (k : string) : bool :=
  match array_index k with
  | Some _ => true
  | None => false
  end.

(** [Object.keys(o)]. *)
Definition Object_keys (o : list string) : list string :=
  map snd
    (fold_left
       (fun acc k =>
          match array_index k with
          | Some n => insert_index n k acc
          | None => acc
          end) o [])
  ++ filter (fun k => negb (is_index_key k)) o.

(** ** The effects of [run] *)

(** The manifest read by [adbkit-apkreader], as far as it is used. *)
Record Manifest := { versionCode : Z; package : string }.

(** [googleutil.ClientKey]. *)
Record ClientKey := { client_email : option string; private_key : option string }.

(** What [run] can throw besides the errors of [updateTrack]. *)
Inductive thrown :=
| Thrown (e : exn)
| InvalidAuthFile (serviceAccountKeyFile : string).

Definition of_exn {A} (r : exn + A) : thrown + A :=
  match r with
  | inl e => inl (Thrown e)
  | inr a => inr a
  end.

Inductive TaskResult := Succeeded | Failed (e : thrown).

(** [releaseNotes] in [run]: never assigned, the falsy value of
    [commonNotes && [commonNotes]], or an array. *)
Inductive RunNotes (N : Type) :=
| NotesUnset
| NotesFalsy
| NotesArray (l : list N).

Arguments NotesUnset {N}.
Arguments NotesFalsy {N}.
Arguments NotesArray {N} l.

(** The replacement applied to the password of the service endpoint: each
    backslash followed by [n] becomes a line feed. *)
Fixpoint unescape_newlines (s : list ascii) : list ascii :=
  match s with
  | "\"%char :: "n"%char :: rest => "010"%char :: unescape_newlines rest
  | c :: rest => c :: unescape_newlines rest
  | [] => []
  end.

(** A monad of traces: the events of a computation, and its value or what
    it throws. *)
Module Eff.
Section Eff.

Variables E X : Type.

Definition T (A : Type) : Type := (list E * (X + A))%type.

Definition ret {A} (a : A) : T A := ([], inr a).

Definition throw {A} (x : X) : T A := ([], inl x).

Definition bind {A B} (m : T A) (k : A -> T B) : T B :=
  match m with
  | (tr, inl x) => (tr, inl x)
  | (tr, inr a) => let (tr', r) := k a in (tr ++ tr', r)
  end.

Definition try_catch {A} (m : T A) (h : X -> T A) : T A :=
  match m with
  | (tr, inl x) => let (tr', r) := h x in (tr ++ tr', r)
  | (tr, inr a) => (tr, inr a)
  end.

(** An external call: the event, and what the outside answers. *)
Definition emit {A} (e : E) (answer : X + A) : T A := ([e], answer).

(** A step without an event. *)
Definition lift {A} (r : X + A) : T A := ([], r).

(** [for (const x of l) { body }] with the variables it updates as [s]. *)
Fixpoint for_of {A S} (l : list A) (body : A -> S -> T S) (s : S) : T S :=
  match l with
  | [] => ret s
  | x :: rest => bind (body x s) (for_of rest body)
  end.

End Eff.

Arguments ret {E X A} a.
Arguments throw {E X A} x.
Arguments bind {E X A B} m k.
Arguments try_catch {E X A} m h.
Arguments emit {E X A} e answer.
Arguments lift {E X A} r.
Arguments for_of {E X A S} l body s.

End Eff.

Notation "x <~ m ;; k" := (Eff.bind m (fun x => k))
  (at level 61, m at next level, right associativity).


Section RunModel.

(** [Number] is the type of [userFraction] and [updatePriority], [Note] of
    one [googleutil.ReleaseNotes]. *)
Variables Number Note : Type.
Context {runtime : RegExpRuntime}.

(** The calls [run] makes beyond reading its inputs.  [EvReadManifest] is
    [apkReader.open] followed by [readManifest]; [EvAuthorize] is
    [googleutil.getJWT] followed by [authorize]; [EvTrack] is a call made
    inside [updateTrack]. *)
Inductive event :=
| EvReadManifest (apkPath : string)
| EvAuthorize (key : ClientKey)
| EvGetNewEdit (packageName : string)
| EvAddApk (packageName apkFile : string)
| EvAddObb (packageName : string) (obbFile : PathValue) (apkVersionCode : Z)
| EvUploadDeobfuscation (mappingFilePath : option string) (packageName : string)
    (apkVersionCode : Z)
| EvAddMetadata (apkVersionCodes : list Z) (metadataRootPath : option string)
| EvGetCommonReleaseNotes (languageCode changelogFile : string)
| EvTrack (c : call Number (RunNotes Note))
| EvCommit
| EvSetResult (result : TaskResult).

(** What the task library, the file system, the APK reader and the store
    answer.  [input name] is [tl.getInput(name, false)], with [None] for
    [undefined]; the other fields are named after the calls they answer. *)
Record Env := {
  input : string -> option string;
  boolInput : string -> bool;
  delimitedInput : string -> list string;
  requiredPathInput : string -> bool -> exn + string;
  optionalPathInput : string -> exn + option string;
  setResourcePath : exn + unit;
  stats_isFile : string -> exn + option bool;
  require_key : string -> exn + ClientKey;
  getEndpointAuthorization : string -> exn + option (string -> option string);
  checkPath : option string -> string -> exn + unit;
  files : FileSystem;
  readManifest : string -> exn + Manifest;
  authorize : ClientKey -> exn + unit;
  getNewEdit : string -> exn + string;
  addApk : string -> string -> exn + Z;
  addObb : string -> PathValue -> Z -> exn + unit;
  uploadDeobfuscation : option string -> string -> Z -> exn + unit;
  addMetadata : list Z -> option string -> exn + list Note;
  getCommonReleaseNotes : string -> string -> exn + option Note;
  edits : Edits Number (RunNotes Note);
  commit : exn + unit;
  Number_of : option string -> Number;
  Number_1 : Number;
  Number_0 : Number
}.

Definition R (A : Type) : Type := Eff.T event thrown A.

(** An external call that is recorded. *)
Definition call_out {A} (e : event) (answer : exn + A) : R A :=
  Eff.emit e (of_exn answer).

(** A step that may throw and is not recorded. *)
Definition step {A} (answer : exn + A) : R A := Eff.lift (of_exn answer).

(** [tl.getInput(name, true)]: a missing or empty value throws. *)
Definition required_input (env : Env) (name : string) : R string :=
  match input env name with
  | Some value =>
      if truthy_string (Some value) then Eff.ret value
      else Eff.throw (Thrown (InputRequired name))
  | None => Eff.throw (Thrown (InputRequired name))
  end.

(** A run of [updateTrack] inside [run]. *)
Definition in_run {A} (m : M Number (RunNotes Note) A) : R A :=
  (map EvTrack (fst m), of_exn (snd m)).

(** [getAllApkPaths] (lines 365-385). *)
Definition getAllApkPaths (env : Env) (mainApkFile : string) : R (list string) :=
  apkFileList <~
    Eff.for_of (delimitedInput env "additionalApks")
      (fun additionalApk apkFileList =>
         Eff.for_of (resolveGlobPaths (files env) additionalApk)
           (fun apkPath apkFileList =>
              let apkFileList := obj_set apkFileList apkPath in
              manifest <~ call_out (EvReadManifest apkPath)
                            (readManifest env apkPath) ;;
              Eff.ret apkFileList)
           apkFileList)
      (obj_set [] mainApkFile) ;;
  Eff.ret (Object_keys apkFileList).

(** The service account key (lines 16-32). *)
Definition run_key (env : Env) : R ClientKey :=
  authType <~ required_input env "authType" ;;
  if String.eqb authType "JsonFile" then
    serviceAccountKeyFile <~ step (requiredPathInput env "serviceAccountKey" true) ;;
    stats <~ step (stats_isFile env serviceAccountKeyFile) ;;
    match stats with
    | Some true => step (require_key env serviceAccountKeyFile)
    | _ => Eff.throw (InvalidAuthFile serviceAccountKeyFile)
    end
  else if String.eqb authType "ServiceEndpoint" then
    endpoint <~ required_input env "serviceEndpoint" ;;
    serviceEndpoint <~ step (getEndpointAuthorization env endpoint) ;;
    match serviceEndpoint with
    | None => Eff.throw (Thrown TypeError)
    | Some parameters =>
        match parameters "password"%string with
        | None => Eff.throw (Thrown TypeError)
        | Some password =>
            Eff.ret
              {| client_email := parameters "username"%string;
                 private_key :=
                   Some (string_of_list_ascii
                           (unescape_newlines (list_ascii_of_string password))) |}
        end
    end
  else Eff.ret {| client_email := None; private_key := None |}.

(** The upload of the APKs (lines 121-147). *)
Definition run_uploadApks (env : Env) (packageName mainApkFile : string)
    (apkFileList : list string) : R (list Z) :=
  let shouldPickObbFile := boolInput env "shouldPickObbFile" in
  let shouldPickObbFileForAdditonalApks :=
    boolInput env "shouldPickObbFileForAdditonalApks" in
  apkVersionCodes <~
    Eff.for_of apkFileList
      (fun apkFile apkVersionCodes =>
         apk <~ call_out (EvAddApk packageName apkFile)
                  (addApk env packageName apkFile) ;;
         _ <~ (if shouldPickObbForApk apkFile mainApkFile shouldPickObbFile
                    shouldPickObbFileForAdditonalApks
               then
                 found <~ step (getObbFile (files env) apkFile packageName apk) ;;
                 if not_null found then
                   obbFile <~ step (getObbFile (files env) apkFile packageName apk) ;;
                   call_out (EvAddObb packageName obbFile apk)
                     (addObb env packageName obbFile apk)
                 else Eff.ret tt
               else Eff.ret tt) ;;
         Eff.ret (push apkVersionCodes apk))
      [] ;;
  _ <~ match apkVersionCodes with
       | first :: _ =>
           if boolInput env "shouldUploadMappingFile" then
             mappingFilePattern <~ step (optionalPathInput env "mappingFilePath") ;;
             let mappingFilePath :=
               option_map (resolveGlobPath (files env)) mappingFilePattern in
             _ <~ step (checkPath env mappingFilePath "mappingFilePath") ;;
             call_out (EvUploadDeobfuscation mappingFilePath packageName first)
               (uploadDeobfuscation env mappingFilePath packageName first)
           else Eff.ret tt
       | [] => Eff.ret tt
       end ;;
  Eff.ret apkVersionCodes.

(** The version codes of APKs that are not uploaded (lines 149-158). *)
Definition run_readVersionCodes (env : Env) (apkFileList : list string)
  : R (list Z) :=
  Eff.for_of apkFileList
    (fun apkFile apkVersionCodes =>
       manifest <~ call_out (EvReadManifest apkFile) (readManifest env apkFile) ;;
       Eff.ret (push apkVersionCodes (versionCode manifest)))
    [].

(** The inputs of a run, once they are read (lines 16-81).  [languageCode]
    is read only where the source uses it, in the branch without metadata;
    with metadata the source leaves it [null] and never reads it. *)
Record Prepared := {
  key : ClientKey;
  mainApkFile : string;
  manifest : Manifest;
  apkFileList : list string;
  versionCodeFilterType : option string;
  versionCodeFilter : FilterValue;
  trackName : string;
  userFraction : Number;
  updatePriority : Number;
  metadataRootPath : option string;
  changelogFile : option string;
  languageCode : string
}.

(** The first part of [run]: the task inputs are read and the APKs are
    located (lines 12-81). *)
Definition run_prepare (env : Env) : R Prepared :=
  _ <~ step (setResourcePath env) ;;
  key <~ run_key env ;;
  mainApkPattern <~ step (requiredPathInput env "apkFile" false) ;;
  let mainApkFile := resolveGlobPath (files env) mainApkPattern in
  _ <~ step (checkPath env (Some mainApkFile) "apkFile") ;;
  manifest <~ call_out (EvReadManifest mainApkFile) (readManifest env mainApkFile) ;;
  apkFileList <~ getAllApkPaths env mainApkFile ;;
  let versionCodeFilterType := input env "versionCodeFilterType" in
  versionCodeFilter <~
    step (run_versionCodeFilter versionCodeFilterType
            (delimitedInput env "replaceList")
            (if truthy_string (input env "replaceExpression")
             then input env "replaceExpression" else None)) ;;
  trackName <~ required_input env "track" ;;
  let userFraction :=
    if boolInput env "rolloutToUserFraction"
    then Number_of env (input env "userFraction") else Number_1 env in
  let updatePriority :=
    if boolInput env "changeUpdatePriority"
    then Number_of env (input env "updatePriority") else Number_0 env in
  let shouldAttachMetadata := boolInput env "shouldAttachMetadata" in
  metadataRootPath <~
    (if shouldAttachMetadata then
       path <~ step (requiredPathInput env "metadataRootPath" true) ;;
       Eff.ret (Some path)
     else Eff.ret None) ;;
  let changelogFile :=
    if shouldAttachMetadata then None else input env "changelogFile" in
  let languageCode :=
    match input env "languageCode" with
    | Some l => if truthy_string (Some l) then l else "en-US"%string
    | None => "en-US"%string
    end in
  Eff.ret
    {| key := key; mainApkFile := mainApkFile; manifest := manifest;
       apkFileList := apkFileList;
       versionCodeFilterType := versionCodeFilterType;
       versionCodeFilter := versionCodeFilter; trackName := trackName;
       userFraction := userFraction; updatePriority := updatePriority;
       metadataRootPath := metadataRootPath; changelogFile := changelogFile;
       languageCode := languageCode |}.

(** The second part of [run]: the calls to the store up to the update of
    the track (lines 83-182). *)
Definition run_transaction (env : Env) (p : Prepared) : R unit :=
  let shouldAttachMetadata := boolInput env "shouldAttachMetadata" in
  let updateStoreListing := boolInput env "updateStoreListing" in
  let shouldUploadApks := boolInput env "shouldUploadApks" in
  let packageName := package (manifest p) in
  _ <~ call_out (EvAuthorize (key p)) (authorize env (key p)) ;;
  edit <~ call_out (EvGetNewEdit packageName) (getNewEdit env packageName) ;;
  uploaded <~
    (if updateStoreListing then Eff.ret (false, [])
     else if shouldUploadApks then
       apkVersionCodes <~
         run_uploadApks env packageName (mainApkFile p) (apkFileList p) ;;
       Eff.ret (true, apkVersionCodes)
     else
       apkVersionCodes <~ run_readVersionCodes env (apkFileList p) ;;
       Eff.ret (false, apkVersionCodes)) ;;
  let apkVersionCodes := snd uploaded in
  notes <~
    (if shouldAttachMetadata then
       releaseNotes <~
         call_out (EvAddMetadata apkVersionCodes (metadataRootPath p))
           (addMetadata env apkVersionCodes (metadataRootPath p)) ;;
       Eff.ret (NotesArray releaseNotes, negb updateStoreListing)
     else
       match changelogFile p with
       | Some file =>
           if truthy_string (changelogFile p) then
             commonNotes <~
               call_out (EvGetCommonReleaseNotes (languageCode p) file)
                 (getCommonReleaseNotes env (languageCode p) file) ;;
             Eff.ret (match commonNotes with
                      | Some n => NotesArray [n]
                      | None => NotesFalsy
                      end, true)
           else Eff.ret (NotesUnset, fst uploaded)
       | None => Eff.ret (NotesUnset, fst uploaded)
       end) ;;
  let releaseNotes := fst notes in
  let requireTrackUpdate := snd notes in
  if requireTrackUpdate then
    updatedTrack <~
      in_run (updateTrack (edits env) packageName (trackName p) apkVersionCodes
                (versionCodeFilterType p) (versionCodeFilter p) (userFraction p)
                (updatePriority p) releaseNotes) ;;
    Eff.ret tt
  else Eff.ret tt.

(** Everything [run] does before it commits (lines 12-182). *)
Definition run_steps (env : Env) : R unit :=
  p <~ run_prepare env ;;
  run_transaction env p.

(** [run] (lines 10-203). *)
Definition run (env : Env) : R unit :=
  Eff.try_catch
    (_ <~ run_steps env ;;
     _ <~ call_out EvCommit (commit env) ;;
     Eff.emit (EvSetResult Succeeded) (inr tt))
    (fun e => Eff.emit (EvSetResult (Failed e)) (inr tt)).

End RunModel.

Arguments EvReadManifest {Number Note} apkPath.
Arguments EvAuthorize {Number Note} key.
Arguments EvGetNewEdit {Number Note} packageName.
Arguments EvAddApk {Number Note} packageName apkFile.
Arguments EvAddObb {Number Note} packageName obbFile apkVersionCode.
Arguments EvUploadDeobfuscation {Number Note} mappingFilePath packageName
  apkVersionCode.
Arguments EvAddMetadata {Number Note} apkVersionCodes metadataRootPath.
Arguments EvGetCommonReleaseNotes {Number Note} languageCode changelogFile.
Arguments EvTrack {Number Note} c.
Arguments EvCommit {Number Note}.
Arguments EvSetResult {Number Note} result.
Arguments call_out {Number Note A} e answer.
Arguments step {Number Note A} answer.
Arguments in_run {Number Note A} m.


(** ** Vocabulary of the further properties *)

(** The value of a decimal numeral read after the value [acc]. *)
Fixpoint uint_value (d : Decimal.uint) (acc : Z) : Z :=
  match d with
  | Decimal.Nil => acc
  | Decimal.D0 d => uint_value d (10 * acc)
  | Decimal.D1 d => uint_value d (10 * acc + 1)
  | Decimal.D2 d => uint_value d (10 * acc + 2)
  | Decimal.D3 d => uint_value d (10 * acc + 3)
  | Decimal.D4 d => uint_value d (10 * acc + 4)
  | Decimal.D5 d => uint_value d (10 * acc + 5)
  | Decimal.D6 d => uint_value d (10 * acc + 6)
  | Decimal.D7 d => uint_value d (10 * acc + 7)
  | Decimal.D8 d => uint_value d (10 * acc + 8)
  | Decimal.D9 d => uint_value d (10 * acc + 9)
  end.

(** A file system for the examples: the APK is /data/build/app.apk, the
    two directories above it hold the given names, no glob matches. *)
Definition sample_files (parentNames currentNames : list string) : FileSystem :=
  {| glob_sync _ := [];
     path_dirname p :=
       if String.eqb p "/data/build/app.apk" then "/data/build"%string
       else if String.eqb p "/data/build" then "/data"%string
       else p;
     path_extname f :=
       let n := String.length f in
       if (Nat.ltb 4 n && String.eqb (substring (n - 4) 4 f) ".obb")%bool
       then ".obb"%string else EmptyString;
     path_join a b := (a ++ "/" ++ b)%string;
     readdirSync d :=
       if String.eqb d "/data" then inr parentNames
       else if String.eqb d "/data/build" then inr currentNames
       else inl (External "ENOENT");
     tl_getVariable _ := Some "/work"%string;
     tl_resolve base p :=
       match base with
       | Some b => (b ++ "/" ++ p)%string
       | None => p
       end |}.

(** The paths whose manifests are read until one cannot be read, with the
    error of that one; [None] when all can be read. *)
Fixpoint first_unreadable (read : string -> exn + Manifest) (paths : list string)
  : option (list string * exn) :=
  match paths with
  | [] => None
  | p :: rest =>
      match read p with
      | inl e => Some ([p], e)
      | inr _ =>
          match first_unreadable read rest with
          | Some (tried, e) => Some (p :: tried, e)
          | None => None
          end
      end
  end.

(** The paths that the additional APK patterns resolve to, in order. *)
Definition additional_paths (fs : FileSystem) (patterns : list string)
  : list string :=
  flat_map (resolveGlobPaths fs) patterns.

(** A store for the examples: the track holds the releases [rs] and every
    update is accepted. *)
Definition store_of {Number Notes} (rs : list Release) : Edits Number Notes :=
  {| getTrack_answer _ trackName := inr {| track := trackName; releases := rs |};
     updateTrack_answer _ trackName codes _ _ _ :=
       inr {| track := trackName; releases := [{| versionCodes := codes |}] |} |}.

Fixpoint lookup {A} (name : string) (table : list (string * A)) : option A :=
  match table with
  | [] => None
  | (k, v) :: rest => if String.eqb name k then Some v else lookup name rest
  end.

(** An environment for the examples.  [inputs] are the task inputs that are
    set, [flags] the boolean inputs that are true, [lists] the delimited
    inputs; the APKs of [unreadable] have no readable manifest and those of
    [rejected] are refused by the store; the version code of any other APK
    is the length of its path. *)
Definition sample_env (inputs : list (string * string)) (flags : list string)
    (lists : list (string * list string)) (fs : FileSystem)
    (unreadable rejected : list string) (rs : list Release)
  : Env unit string :=
  {| input name := lookup name inputs;
     boolInput name := existsb (String.eqb name) flags;
     delimitedInput name :=
       match lookup name lists with
       | Some l => l
       | None => []
       end;
     requiredPathInput name _ :=
       match lookup name inputs with
       | Some p => inr p
       | None => inl (InputRequired name)
       end;
     optionalPathInput name := inr (lookup name inputs);
     setResourcePath := inr tt;
     stats_isFile _ := inr (Some true);
     require_key _ :=
       inr {| client_email := Some "robot@example.com"%string;
              private_key := Some "secret"%string |};
     getEndpointAuthorization _ := inr None;
     checkPath _ _ := inr tt;
     files := fs;
     readManifest p :=
       if existsb (String.eqb p) unreadable then inl (External "not an APK")
       else inr {| versionCode := Z.of_nat (String.length p);
                   package := "com.example" |};
     authorize _ := inr tt;
     getNewEdit _ := inr "edit-1"%string;
     addApk _ apkFile :=
       if existsb (String.eqb apkFile) rejected then inl (External "refused")
       else inr (Z.of_nat (String.length apkFile));
     addObb _ _ _ := inr tt;
     uploadDeobfuscation _ _ _ := inr tt;
     addMetadata _ _ := inr ["notes"%string];
     getCommonReleaseNotes _ _ := inr (Some "notes"%string);
     edits := store_of rs;
     commit := inr tt;
     Number_of _ := tt;
     Number_1 := tt;
     Number_0 := tt |}.

Section RunVocabulary.

Variables Number Note : Type.

(** The calls made for one uploaded APK to which the store gives the
    version code [c]. *)
Definition apk_calls (env : Env Number Note) (packageName mainApkFile : string)
    (apkFile : string) (c : Z) : list (event Number Note) :=
  EvAddApk packageName apkFile
  :: (if shouldPickObbForApk apkFile mainApkFile
           (boolInput env "shouldPickObbFile")
           (boolInput env "shouldPickObbFileForAdditonalApks")
      then match getObbFile (files env) apkFile packageName c with
           | inr obbFile => [EvAddObb packageName obbFile c]
           | inl _ => []
           end
      else []).

(** The APK [apkFile] went through the upload loop with the code [c]: the
    store took it, and if an expansion file is asked for it, [getObbFile]
    returned and the store took what it returned. *)
Definition uploaded (env : Env Number Note) (packageName mainApkFile : string)
    (apkFile : string) (c : Z) : Prop :=
  addApk env packageName apkFile = inr c
  /\ (shouldPickObbForApk apkFile mainApkFile
        (boolInput env "shouldPickObbFile")
        (boolInput env "shouldPickObbFileForAdditonalApks") = true ->
      exists obbFile,
        getObbFile (files env) apkFile packageName c = inr obbFile
        /\ addObb env packageName obbFile c = inr tt).

(** The upload of the mapping file after the APKs with the codes [codes]. *)
Definition mapping_calls (env : Env Number Note) (packageName : string)
    (codes : list Z) : list (event Number Note) :=
  match codes with
  | first :: _ =>
      if boolInput env "shouldUploadMappingFile" then
        match optionalPathInput env "mappingFilePath" with
        | inr pattern =>
            [EvUploadDeobfuscation
               (option_map (resolveGlobPath (files env)) pattern)
               packageName first]
        | inl _ => []
        end
      else []
  | [] => []
  end.

Definition is_upload (ev : event Number Note) : bool :=
  match ev with
  | EvAddApk _ _ | EvAddObb _ _ _ | EvUploadDeobfuscation _ _ _ => true
  | _ => false
  end.

Definition is_track (ev : event Number Note) : bool :=
  match ev with
  | EvTrack _ => true
  | _ => false
  end.

Definition is_commit (ev : event Number Note) : bool :=
  match ev with
  | EvCommit => true
  | _ => false
  end.

Definition is_result (ev : event Number Note) : bool :=
  match ev with
  | EvSetResult _ => true
  | _ => false
  end.

End RunVocabulary.

(** A task that uploads /data/build/app.apk and b.apk to the track beta,
    which holds the codes 3, 19 and 7, and replaces the code 3. *)
Definition upload_env : Env unit string :=
  sample_env
    [("authType", "JsonFile"); ("serviceAccountKey", "key.json");
     ("apkFile", "/data/build/app.apk"); ("track", "beta");
     ("versionCodeFilterType", "list")]%string
    ["shouldUploadApks"]%string
    [("additionalApks", ["b.apk"]); ("replaceList", ["3"])]%string
    (sample_files [] []) [] []
    [{| versionCodes := [3; 19; 7] |}].

(** A task that updates the store listing with metadata. *)
Definition listing_env : Env unit string :=
  sample_env
    [("authType", "JsonFile"); ("serviceAccountKey", "key.json");
     ("apkFile", "/data/build/app.apk"); ("track", "beta");
     ("metadataRootPath", "/data/metadata")]%string
    ["updateStoreListing"; "shouldUploadApks"; "shouldAttachMetadata"]%string
    [] (sample_files [] []) [] []
    [{| versionCodes := [3] |}].

(** ** Lists and loops *)

Lemma indexOf_from_absent (arr : list Z) (x i : Z) :
  0 <= i -> (indexOf_from i arr x =? -1) = negb (mem x arr).
Proof.
  revert i; induction arr as [|y arr IH]; intros i Hi; simpl.
  - reflexivity.
  - rewrite (Z.eqb_sym x y). destruct (y =? x); simpl.
    + apply Z.eqb_neq; lia.
    + apply IH; lia.
Qed.

Lemma indexOf_absent (arr : list Z) (x : Z) :
  (indexOf arr x =? -1) = negb (mem x arr).
Proof. apply indexOf_from_absent; lia. Qed.

Lemma mem_In (c : Z) (l : list Z) : mem c l = true <-> In c l.
Proof.
  unfold mem; rewrite existsb_exists; split.
  - intros [d [Hd Heq]]. apply Z.eqb_eq in Heq; now subst.
  - intros Hc; exists c; split; [assumption | apply Z.eqb_refl].
Qed.

Lemma mem_not_In (c : Z) (l : list Z) : mem c l = false <-> ~ In c l.
Proof.
  rewrite <- mem_In. destruct (mem c l); split; congruence.
Qed.

Lemma filter_swap (p q : Z -> bool) (l : list Z) :
  filter p (filter q l) = filter q (filter p l).
Proof.
  induction l as [|x l IH]; simpl; [reflexivity|].
  destruct (q x) eqn:Hq, (p x) eqn:Hp; simpl; rewrite ?Hq, ?Hp, IH; reflexivity.
Qed.

Lemma filter_andb (p q : Z -> bool) (l : list Z) :
  filter p (filter q l) = filter (fun x => (p x && q x)%bool) l.
Proof.
  induction l as [|x l IH]; simpl; [reflexivity|].
  destruct (q x) eqn:Hq; simpl; rewrite ?andb_false_r, ?andb_true_r.
  - destruct (p x); now rewrite IH.
  - apply IH.
Qed.

Lemma filter_all (p : Z -> bool) (l : list Z) :
  (forall x, In x l -> p x = true) -> filter p l = l.
Proof.
  induction l as [|x l IH]; simpl; intros Hall; [reflexivity|].
  rewrite (Hall x (or_introl eq_refl)), IH; auto.
Qed.

Lemma first_occurrences_In (l : list Z) (c : Z) :
  In c (first_occurrences l) <-> In c l.
Proof.
  induction l as [|x l IH]; simpl; [tauto|].
  rewrite filter_In, IH. destruct (Z.eq_dec x c) as [->|Hne].
  - tauto.
  - split; [tauto|]. intros [Heq|Hin]; [tauto|].
    right; split; [assumption|]. apply negb_true_iff, Z.eqb_neq; congruence.
Qed.

Lemma first_occurrences_NoDup (l : list Z) : NoDup (first_occurrences l).
Proof.
  induction l as [|x l IH]; simpl; constructor.
  - rewrite filter_In, Z.eqb_refl; simpl; intros [_ Hf]; discriminate.
  - now apply NoDup_filter.
Qed.

Lemma first_occurrences_filter (p : Z -> bool) (l : list Z) :
  first_occurrences (filter p l) = filter p (first_occurrences l).
Proof.
  induction l as [|x l IH]; simpl; [reflexivity|].
  destruct (p x) eqn:Hp; simpl.
  - rewrite IH. f_equal. apply filter_swap.
  - rewrite IH, (filter_swap p). symmetry.
    apply filter_all. intros y Hy. apply filter_In in Hy as [_ Hy].
    apply negb_true_iff, Z.eqb_neq. intros ->. congruence.
Qed.

Lemma first_occurrences_NoDup_id (l : list Z) :
  NoDup l -> first_occurrences l = l.
Proof.
  induction 1 as [|x l Hx Hnd IH]; simpl; [reflexivity|].
  rewrite IH. f_equal. apply filter_all. intros y Hy.
  apply negb_true_iff, Z.eqb_neq. intros ->. contradiction.
Qed.

(** The loop that keeps the old codes outside the exclusion rule. *)
Lemma keep_loop (keep : Z -> bool) (old acc : list Z) :
  fold_left (fun acc c => if keep c then push acc c else acc) old acc
  = acc ++ filter keep old.
Proof.
  revert acc; induction old as [|c old IH]; intros acc; simpl.
  - now rewrite app_nil_r.
  - rewrite IH. destruct (keep c); simpl; [|reflexivity].
    unfold push. now rewrite <- app_assoc.
Qed.

(** The loop that appends the uploaded codes not yet in the array. *)
Lemma append_loop (new kept : list Z) :
  fold_left
    (fun acc c => if indexOf acc c =? -1 then push acc c else acc) new kept
  = kept ++ appended kept new.
Proof.
  revert kept; induction new as [|c new IH]; intros kept; simpl.
  - now rewrite app_nil_r.
  - rewrite IH, indexOf_absent. unfold appended; simpl.
    destruct (mem c kept) eqn:Hc; simpl; [reflexivity|].
    unfold push. rewrite <- app_assoc; simpl. do 2 f_equal.
    rewrite <- first_occurrences_filter, filter_andb. f_equal.
    apply filter_ext. intros d. unfold mem. rewrite existsb_app; simpl.
    rewrite orb_false_r, negb_orb. apply andb_comm.
Qed.

(** ** Runs of [updateTrack] *)

Section Runs.

Variables Number Notes : Type.
Context {runtime : RegExpRuntime}.

Lemma bind_ret {A B} (a : A) (k : A -> M Number Notes B) :
  bind (ret a) k = k a.
Proof. unfold bind, ret. now destruct (k a). Qed.

Lemma bind_value {A B} (tr : list (call Number Notes)) (a : A)
    (k : A -> M Number Notes B) :
  bind (tr, inr a) k = (tr ++ fst (k a), snd (k a)).
Proof. unfold bind. now destruct (k a). Qed.

(** A [forEach] whose callback never throws is a left fold. *)
Lemma forEach_fold {A S} (body : A -> S -> M Number Notes S)
    (step : S -> A -> S) :
  (forall x s, body x s = ret (step s x)) ->
  forall arr s, forEach arr body s = ret (fold_left step arr s).
Proof.
  intros Hbody arr; induction arr as [|x arr IH]; intros s; simpl.
  - reflexivity.
  - now rewrite Hbody, bind_ret, IH.
Qed.

Lemma try_update (edits : Edits Number Notes) pkg tr codes uf up rn :
  try_catch (googleutil_updateTrack edits pkg tr codes uf up rn)
    (fun e => throw (CannotUpdateTrack tr e))
  = send edits pkg tr codes uf up rn.
Proof.
  unfold try_catch, googleutil_updateTrack, send, throw.
  destruct (updateTrack_answer edits pkg tr codes uf up rn); reflexivity.
Qed.

(** With the filter type ['all'] the uploaded codes are sent as they are. *)
Lemma updateTrack_all (edits : Edits Number Notes) pkg tr new f uf up rn :
  updateTrack edits pkg tr new (Some "all"%string) f uf up rn
  = send edits pkg tr new uf up rn.
Proof.
  unfold updateTrack; simpl strict_eq; cbv iota.
  now rewrite bind_ret, try_update.
Qed.

(** With another filter type, a fetched track and a usable filter, the
    track is read and then the kept and the uploaded codes are sent. *)
Lemma updateTrack_filtered (edits : Edits Number Notes) pkg tr new ty f uf up rn
    old excluded :
  strict_eq ty "all" = false ->
  oldVersionCodes edits pkg tr = Some old ->
  excludes f = Some excluded ->
  updateTrack edits pkg tr new ty f uf up rn
  = (CallGetTrack pkg tr
       :: fst (send edits pkg tr
                 (survivors excluded old ++ appended (survivors excluded old) new)
                 uf up rn),
     snd (send edits pkg tr
            (survivors excluded old ++ appended (survivors excluded old) new)
            uf up rn)).
Proof.
  intros Hty Hold Hex. unfold updateTrack. rewrite Hty.
  match goal with |- bind _ ?k = _ => set (cont := k) end.
  unfold oldVersionCodes in Hold. unfold googleutil_getTrack, try_catch.
  destruct (getTrack_answer edits pkg tr) as [e|res]; [discriminate|].
  rewrite bind_value; cbv beta. unfold first_release_versionCodes.
  destruct (releases res) as [|r rs]; [discriminate|].
  injection Hold as <-. rewrite bind_ret.
  assert (Hkeep : forall keep : Z -> bool,
             forEach (versionCodes r)
               (fun c acc => if keep c then ret (push acc c) else ret acc) []
             = ret (Number:=Number) (Notes:=Notes)
                 (filter keep (versionCodes r))).
  { intros keep.
    rewrite (forEach_fold _ (fun acc c => if keep c then push acc c else acc))
      by (intros c acc; now destruct (keep c)).
    now rewrite keep_loop. }
  assert (Hkept : forall src : M Number Notes (list Z),
             src = ret (survivors excluded (versionCodes r)) ->
             bind src
               (fun kept =>
                  forEach new
                    (fun c acc =>
                       if indexOf acc c =? -1 then ret (push acc c) else ret acc)
                    kept)
             = ret (survivors excluded (versionCodes r)
                      ++ appended (survivors excluded (versionCodes r)) new)).
  { intros src ->. rewrite bind_ret.
    rewrite (forEach_fold _
               (fun acc c => if indexOf acc c =? -1 then push acc c else acc))
      by (intros c acc; now destruct (indexOf acc c =? -1)).
    now rewrite append_loop. }
  rewrite Hkept.
  { unfold ret; cbn [fst snd]. rewrite bind_value. unfold cont.
    now rewrite try_update. }
  destruct f as [|pattern|versionCodesToRemove]; unfold excludes in Hex.
  - discriminate.
  - unfold construct_RegExp.
    destruct (new_RegExp ("^" ++ pattern ++ "$")) as [re|]; [|discriminate].
    injection Hex as <-. now rewrite bind_ret, Hkeep.
  - injection Hex as <-. rewrite Hkeep. f_equal.
    apply filter_ext. intros c. apply indexOf_absent.
Qed.

Lemma bind_throw {A B} (tr : list (call Number Notes)) (e : exn)
    (k : A -> M Number Notes B) :
  bind (tr, inl e) k = (tr, inl e).
Proof. reflexivity. Qed.

(** The track cannot be read: the run ends with [CannotDownloadTrack]. *)
Lemma updateTrack_fetch_error (edits : Edits Number Notes) pkg tr new ty f uf up rn e :
  strict_eq ty "all" = false ->
  getTrack_answer edits pkg tr = inl e ->
  updateTrack edits pkg tr new ty f uf up rn
  = ([CallGetTrack pkg tr], inl (CannotDownloadTrack tr e)).
Proof.
  intros Hty Hget. unfold updateTrack. rewrite Hty.
  unfold googleutil_getTrack, try_catch at 1. rewrite Hget. reflexivity.
Qed.

(** The track has no release: [res.releases[0]] is [undefined]. *)
Lemma updateTrack_no_release (edits : Edits Number Notes) pkg tr new ty f uf up rn res :
  strict_eq ty "all" = false ->
  getTrack_answer edits pkg tr = inr res ->
  releases res = [] ->
  updateTrack edits pkg tr new ty f uf up rn
  = ([CallGetTrack pkg tr], inl TypeError).
Proof.
  intros Hty Hget Hrel. unfold updateTrack. rewrite Hty.
  unfold googleutil_getTrack, try_catch at 1. rewrite Hget.
  rewrite bind_value; cbv beta. unfold first_release_versionCodes.
  rewrite Hrel. reflexivity.
Qed.

(** The pattern is not a regular expression. *)
Lemma updateTrack_bad_pattern (edits : Edits Number Notes) pkg tr new ty uf up rn
    old pattern :
  strict_eq ty "all" = false ->
  oldVersionCodes edits pkg tr = Some old ->
  new_RegExp ("^" ++ pattern ++ "$")%string = None ->
  updateTrack edits pkg tr new ty (FString pattern) uf up rn
  = ([CallGetTrack pkg tr], inl SyntaxError).
Proof.
  intros Hty Hold Hre. unfold updateTrack. rewrite Hty.
  unfold oldVersionCodes in Hold. unfold googleutil_getTrack, try_catch at 1.
  destruct (getTrack_answer edits pkg tr) as [e|res]; [discriminate|].
  rewrite bind_value; cbv beta. unfold first_release_versionCodes.
  destruct (releases res) as [|r rs]; [discriminate|].
  rewrite bind_ret. unfold construct_RegExp. rewrite Hre. reflexivity.
Qed.

(** The filter is [null] and the track holds a code: [null.indexOf]. *)
Lemma updateTrack_null_filter (edits : Edits Number Notes) pkg tr new ty uf up rn
    c old :
  strict_eq ty "all" = false ->
  oldVersionCodes edits pkg tr = Some (c :: old) ->
  updateTrack edits pkg tr new ty FNull uf up rn
  = ([CallGetTrack pkg tr], inl TypeError).
Proof.
  intros Hty Hold. unfold updateTrack. rewrite Hty.
  unfold oldVersionCodes in Hold. unfold googleutil_getTrack, try_catch at 1.
  destruct (getTrack_answer edits pkg tr) as [e|res]; [discriminate|].
  rewrite bind_value; cbv beta. unfold first_release_versionCodes.
  destruct (releases res) as [|r rs]; [discriminate|].
  injection Hold as Hold. rewrite bind_ret, Hold. reflexivity.
Qed.

(** The filter is [null] and the first release holds no code: the callback
    is never called. *)
Lemma updateTrack_null_filter_empty (edits : Edits Number Notes) pkg tr new ty
    uf up rn :
  strict_eq ty "all" = false ->
  oldVersionCodes edits pkg tr = Some [] ->
  updateTrack edits pkg tr new ty FNull uf up rn
  = (CallGetTrack pkg tr :: fst (send edits pkg tr (appended [] new) uf up rn),
     snd (send edits pkg tr (appended [] new) uf up rn)).
Proof.
  intros Hty Hold. unfold updateTrack. rewrite Hty.
  match goal with |- bind _ ?k = _ => set (cont := k) end.
  unfold oldVersionCodes in Hold. unfold googleutil_getTrack, try_catch.
  destruct (getTrack_answer edits pkg tr) as [e|res]; [discriminate|].
  rewrite bind_value; cbv beta. unfold first_release_versionCodes.
  destruct (releases res) as [|r rs]; [discriminate|].
  injection Hold as Hold. rewrite bind_ret, Hold. cbn [forEach].
  rewrite bind_ret.
  rewrite (forEach_fold _
             (fun acc c => if indexOf acc c =? -1 then push acc c else acc))
    by (intros c acc; now destruct (indexOf acc c =? -1)).
  rewrite append_loop. unfold ret; cbn [fst snd app]. rewrite bind_value.
  unfold cont. now rewrite try_update.
Qed.

Lemma strict_eq_true (x : option string) (lit : string) :
  strict_eq x lit = true -> x = Some lit.
Proof.
  destruct x as [s|]; simpl; [|discriminate].
  intros Heq. apply String.eqb_eq in Heq. now subst.
Qed.

(** Every run that reaches the update either had the filter type ['all']
    and sends the uploaded codes, or read the track and sends kept codes
    followed by the uploaded codes that are not among them. *)
Lemma updateTrack_sent (edits : Edits Number Notes) pkg tr new ty f uf up rn codes :
  mergedVersionCodes (updateTrack edits pkg tr new ty f uf up rn) = Some codes ->
  (strict_eq ty "all" = true /\ codes = new)
  \/ (strict_eq ty "all" = false
      /\ exists old excluded,
          oldVersionCodes edits pkg tr = Some old
          /\ codes = survivors excluded old
                       ++ appended (survivors excluded old) new).
Proof.
  unfold mergedVersionCodes. destruct (strict_eq ty "all") eqn:Hty.
  - apply strict_eq_true in Hty; subst ty. rewrite updateTrack_all; simpl.
    intros [= <-]. now left.
  - intros Hsent; right; split; [reflexivity|].
    destruct (getTrack_answer edits pkg tr) as [e|res] eqn:Hget.
    { erewrite updateTrack_fetch_error in Hsent; [discriminate|eassumption..]. }
    destruct (releases res) as [|r rs] eqn:Hrel.
    { erewrite updateTrack_no_release in Hsent; [discriminate|eassumption..]. }
    assert (Hold : oldVersionCodes edits pkg tr = Some (versionCodes r))
      by (unfold oldVersionCodes; now rewrite Hget, Hrel).
    destruct (excludes f) as [excluded|] eqn:Hex.
    { erewrite updateTrack_filtered in Hsent; [|eassumption..].
      simpl in Hsent. injection Hsent as <-. now exists (versionCodes r), excluded. }
    destruct f as [|pattern|l]; unfold excludes in Hex.
    + destruct (versionCodes r) as [|c old] eqn:Hcodes.
      * erewrite updateTrack_null_filter_empty in Hsent; [|eassumption..].
        simpl in Hsent. injection Hsent as <-.
        now exists [], (fun _ => false).
      * erewrite updateTrack_null_filter in Hsent; [discriminate|eassumption..].
    + destruct (new_RegExp ("^" ++ pattern ++ "$")%string) eqn:Hre;
        [discriminate|].
      erewrite updateTrack_bad_pattern in Hsent; [discriminate|eassumption..].
    + discriminate.
Qed.

End Runs.

(** ** The merged list *)

Section Merged.

Variables Number Notes : Type.
Context {runtime : RegExpRuntime}.

Lemma appended_In (kept new : list Z) (c : Z) :
  In c (appended kept new) <-> In c new /\ ~ In c kept.
Proof.
  unfold appended. rewrite first_occurrences_In, filter_In, negb_true_iff.
  now rewrite mem_not_In.
Qed.

Lemma merged_In (kept new : list Z) (c : Z) :
  In c (kept ++ appended kept new) <-> In c kept \/ In c new.
Proof.
  rewrite in_app_iff, appended_In. destruct (in_dec Z.eq_dec c kept); tauto.
Qed.

Lemma merged_NoDup (kept new : list Z) :
  NoDup kept -> NoDup (kept ++ appended kept new).
Proof.
  intros Hkept. apply NoDup_app.
  - assumption.
  - apply first_occurrences_NoDup.
  - intros c Hc Happ. apply appended_In in Happ. tauto.
Qed.

Lemma bind_trace {A B} (m : M Number Notes A) (k : A -> M Number Notes B) :
  exists rest, fst (bind m k) = fst m ++ rest.
Proof.
  destruct m as [tr [e|a]]; simpl.
  - exists []. now rewrite app_nil_r.
  - destruct (k a) as [tr' r]. now exists tr'.
Qed.

(** Without the filter type ['all'] the first call reads the track. *)
Lemma updateTrack_fetches (edits : Edits Number Notes) pkg tr new ty f uf up rn :
  strict_eq ty "all" = false ->
  fetched (updateTrack edits pkg tr new ty f uf up rn) = true.
Proof.
  intros Hty. unfold fetched, updateTrack. rewrite Hty.
  match goal with |- context [bind (bind ?m ?k1) ?k2] =>
    destruct (bind_trace (bind m k1) k2) as [rest2 ->];
    destruct (bind_trace m k1) as [rest1 ->]
  end.
  unfold googleutil_getTrack, try_catch.
  destruct (getTrack_answer edits pkg tr); reflexivity.
Qed.

(** A run reaches the update when the filter type is ['all'], and also when
    the track is read and the filter is usable. *)
Lemma updateTrack_sends (edits : Edits Number Notes) pkg tr new ty f uf up rn :
  strict_eq ty "all" = true
  \/ (exists old excluded,
        oldVersionCodes edits pkg tr = Some old /\ excludes f = Some excluded) ->
  exists codes,
    mergedVersionCodes (updateTrack edits pkg tr new ty f uf up rn) = Some codes.
Proof.
  unfold mergedVersionCodes.
  destruct (strict_eq ty "all") eqn:Hty.
  - intros _. apply strict_eq_true in Hty; subst ty.
    rewrite updateTrack_all. now exists new.
  - intros [Habs|(old & excluded & Hold & Hex)]; [discriminate|].
    erewrite updateTrack_filtered; [|eassumption..]. simpl. eauto.
Qed.

(** C7.  With the filter type ['all'] the only call to the store is the
    update, and it carries exactly the uploaded version codes: whatever the
    track held is neither read nor kept. *)
Theorem all_sends_uploaded_codes (edits : Edits Number Notes) pkg tr new f uf up rn :
  fst (updateTrack edits pkg tr new (Some "all"%string) f uf up rn)
    = [CallUpdateTrack pkg tr new uf up rn]
  /\ mergedVersionCodes (updateTrack edits pkg tr new (Some "all"%string) f uf up rn)
     = Some new.
Proof.
  unfold mergedVersionCodes. rewrite updateTrack_all. split; reflexivity.
Qed.

(** C10.  With the filter type ['all'] the track is never fetched and the
    run cannot end with the track-fetch error; that error arises only with
    another filter type, where a failed fetch ends the run with it. *)
Theorem fetch_error_only_when_filtering (edits : Edits Number Notes) pkg tr new
    ty f uf up rn :
  fetched (updateTrack edits pkg tr new (Some "all"%string) f uf up rn) = false
  /\ is_CannotDownloadTrack
       (snd (updateTrack edits pkg tr new (Some "all"%string) f uf up rn)) = false
  /\ (is_CannotDownloadTrack
        (snd (updateTrack edits pkg tr new ty f uf up rn)) = true ->
      strict_eq ty "all" = false)
  /\ (forall e,
        strict_eq ty "all" = false ->
        getTrack_answer edits pkg tr = inl e ->
        updateTrack edits pkg tr new ty f uf up rn
        = ([CallGetTrack pkg tr], inl (CannotDownloadTrack tr e))).
Proof.
  assert (Hall : is_CannotDownloadTrack
            (snd (updateTrack edits pkg tr new (Some "all"%string) f uf up rn))
          = false).
  { rewrite updateTrack_all. unfold send; simpl.
    now destruct (updateTrack_answer edits pkg tr new uf up rn). }
  repeat split.
  - now rewrite updateTrack_all.
  - exact Hall.
  - intros Herr. destruct (strict_eq ty "all") eqn:Hty; [|reflexivity].
    apply strict_eq_true in Hty; subst ty. congruence.
  - intros e Hty Hget. now apply updateTrack_fetch_error.
Qed.

(** C3.  In every run that reaches the update, each uploaded version code
    is in the list that is sent; and the update is reached with the filter
    type ['all'] and whenever the track is read and the filter is usable. *)
Theorem uploaded_codes_are_sent (edits : Edits Number Notes) pkg tr new ty f uf up rn :
  (forall codes,
     mergedVersionCodes (updateTrack edits pkg tr new ty f uf up rn) = Some codes ->
     forall c, In c new -> In c codes)
  /\ (strict_eq ty "all" = true
      \/ (exists old excluded,
            oldVersionCodes edits pkg tr = Some old /\ excludes f = Some excluded) ->
      exists codes,
        mergedVersionCodes (updateTrack edits pkg tr new ty f uf up rn) = Some codes).
Proof.
  split; [|apply updateTrack_sends].
  intros codes Hsent c Hc.
  apply updateTrack_sent in Hsent as [[_ ->]|[_ (old & excluded & _ & ->)]].
  - assumption.
  - apply merged_In. now right.
Qed.

(** C1, amended.  The list that is sent has no duplicate when the uploaded
    codes are pairwise distinct (filter type ['all']), respectively when the
    codes of the fetched release are pairwise distinct (other filter types);
    the uploaded codes may then repeat. *)
Theorem merged_codes_distinct (edits : Edits Number Notes) pkg tr new ty f uf up rn :
  (forall codes,
     mergedVersionCodes (updateTrack edits pkg tr new ty f uf up rn) = Some codes ->
     (strict_eq ty "all" = true -> NoDup new) ->
     (forall old,
        strict_eq ty "all" = false ->
        oldVersionCodes edits pkg tr = Some old -> NoDup old) ->
     NoDup codes)
  /\ (strict_eq ty "all" = true
      \/ (exists old excluded,
            oldVersionCodes edits pkg tr = Some old /\ excludes f = Some excluded) ->
      exists codes,
        mergedVersionCodes (updateTrack edits pkg tr new ty f uf up rn) = Some codes).
Proof.
  split; [|apply updateTrack_sends].
  intros codes Hsent Hnew Hold.
  apply updateTrack_sent in Hsent as [[Hty ->]|[Hty (old & excluded & Hget & ->)]].
  - auto.
  - apply merged_NoDup. unfold survivors. apply NoDup_filter. eauto.
Qed.

(** C4.  With a list of codes to remove, an old code of the list is absent
    from what is sent unless it was uploaded again, and an old code outside
    the list is sent. *)
Theorem explicit_list_mode (edits : Edits Number Notes) pkg tr new ty uf up rn
    (versionCodesToRemove old : list Z) :
  strict_eq ty "all" = false ->
  oldVersionCodes edits pkg tr = Some old ->
  exists codes,
    mergedVersionCodes
      (updateTrack edits pkg tr new ty (FNumbers versionCodesToRemove) uf up rn)
    = Some codes
    /\ (forall c,
          In c versionCodesToRemove -> In c old -> ~ In c new -> ~ In c codes)
    /\ (forall c, In c old -> ~ In c versionCodesToRemove -> In c codes)
    /\ (forall c,
          In c codes <-> (In c old /\ ~ In c versionCodesToRemove) \/ In c new).
Proof.
  intros Hty Hold. unfold mergedVersionCodes.
  erewrite updateTrack_filtered; [|eassumption|eassumption|reflexivity].
  eexists; split; [reflexivity|].
  assert (Hmem : forall c,
            In c (survivors (fun c => mem c versionCodesToRemove) old)
            <-> In c old /\ ~ In c versionCodesToRemove).
  { intros c. unfold survivors. rewrite filter_In, negb_true_iff.
    now rewrite mem_not_In. }
  repeat split.
  - intros c Hrm Hc Hnew Hin. apply merged_In in Hin as [Hin|Hin]; [|tauto].
    apply Hmem in Hin. tauto.
  - intros c Hc Hrm. apply merged_In. left. apply Hmem. tauto.
  - intros Hin. apply merged_In in Hin. rewrite Hmem in Hin. tauto.
  - intros Hin. apply merged_In. rewrite Hmem. tauto.
Qed.

(** C6.  Without the filter type ['all'] the list that is sent is made of
    the old codes that survive the filter, in their order, followed by the
    uploaded codes that are not among the survivors, each once and in upload
    order; when no code was uploaded twice these are all such codes as
    uploaded. *)
Theorem merged_order (edits : Edits Number Notes) pkg tr new ty f uf up rn
    (old : list Z) (excluded : Z -> bool) :
  strict_eq ty "all" = false ->
  oldVersionCodes edits pkg tr = Some old ->
  excludes f = Some excluded ->
  mergedVersionCodes (updateTrack edits pkg tr new ty f uf up rn)
  = Some (survivors excluded old
            ++ first_occurrences
                 (filter (fun c => negb (mem c (survivors excluded old))) new))
  /\ (NoDup new ->
      mergedVersionCodes (updateTrack edits pkg tr new ty f uf up rn)
      = Some (survivors excluded old
                ++ filter (fun c => negb (mem c (survivors excluded old))) new)).
Proof.
  intros Hty Hold Hex. unfold mergedVersionCodes.
  erewrite updateTrack_filtered; [|eassumption..]. split; [reflexivity|].
  intros Hnew. simpl. unfold appended.
  rewrite first_occurrences_NoDup_id; [reflexivity|].
  now apply NoDup_filter.
Qed.

End Merged.

(** ** The pattern filter *)

Lemma digit_cases (c : ascii) :
  RegExp.is_digit c = true ->
  In c ["0"; "1"; "2"; "3"; "4"; "5"; "6"; "7"; "8"; "9"]%char.
Proof.
  destruct c as [[] [] [] [] [] [] [] []]; intros H;
    try discriminate H; simpl; tauto.
Qed.

Lemma parse_term_digit (fuel : nat) (d c : ascii) (rest : list ascii) :
  RegExp.is_digit d = true ->
  RegExp.is_digit c = true \/ c = "$"%char ->
  RegExp.parse_term (S fuel) (d :: c :: rest) = Some (RegExp.lit d, c :: rest).
Proof.
  intros Hd Hc. apply digit_cases in Hd.
  assert (Hc' : In c ["0"; "1"; "2"; "3"; "4"; "5"; "6"; "7"; "8"; "9"; "$"]%char).
  { destruct Hc as [Hc| ->]; [apply digit_cases in Hc|]; simpl in *; tauto. }
  simpl in Hd, Hc'.
  repeat (destruct Hd as [<-|Hd]); try contradiction;
    repeat (destruct Hc' as [<-|Hc']); try contradiction; reflexivity.
Qed.

Lemma parse_alternative_digit (fuel : nat) (d : ascii) (rest : list ascii) :
  RegExp.is_digit d = true ->
  RegExp.parse_alternative (S fuel) (d :: rest)
  = match RegExp.parse_term fuel (d :: rest) with
    | Some (r1, rest1) =>
        match RegExp.parse_alternative fuel rest1 with
        | Some (r2, rest2) => Some (RegExp.Seq r1 r2, rest2)
        | None => None
        end
    | None => None
    end.
Proof.
  intros Hd. apply digit_cases in Hd. simpl in Hd.
  repeat (destruct Hd as [<-|Hd]); try contradiction; reflexivity.
Qed.

Lemma parse_alternative_digits (p : list ascii) :
  Forall (fun c => RegExp.is_digit c = true) p ->
  forall fuel, (List.length p + 2 <= fuel)%nat ->
  RegExp.parse_alternative fuel (p ++ ["$"%char]) = Some (anchored_tail p, []).
Proof.
  induction 1 as [|d p Hd Hp IH]; intros fuel Hfuel.
  - destruct fuel as [|[|fuel]]; simpl in Hfuel; try lia. reflexivity.
  - destruct fuel as [|[|fuel]]; simpl in Hfuel; try lia.
    cbn [app]. rewrite parse_alternative_digit by assumption.
    assert (Hnext : exists c rest, p ++ ["$"%char] = c :: rest
                      /\ (RegExp.is_digit c = true \/ c = "$"%char)).
    { destruct Hp as [|c p Hc Hp]; simpl; eauto. }
    destruct Hnext as (c & rest & Heq & Hc). rewrite Heq.
    rewrite parse_term_digit by assumption. rewrite <- Heq.
    rewrite IH by (simpl; lia). reflexivity.
Qed.

Lemma list_ascii_of_string_app (a b : string) :
  list_ascii_of_string (a ++ b)%string
  = list_ascii_of_string a ++ list_ascii_of_string b.
Proof. induction a as [|c a IH]; simpl; [reflexivity|]. now rewrite IH. Qed.

Lemma parse_disjunction_done (fuel : nat) (s : list ascii) (r : RegExp.regex) :
  RegExp.parse_alternative fuel s = Some (r, []) ->
  RegExp.parse_disjunction (S fuel) s = Some (r, []).
Proof.
  intros Halt.
  change (RegExp.parse_disjunction (S fuel) s)
    with (match RegExp.parse_alternative fuel s with
          | Some (r1, "|"%char :: rest) =>
              match RegExp.parse_disjunction fuel rest with
              | Some (r2, rest') => Some (RegExp.Alt r1 r2, rest')
              | None => None
              end
          | other => other
          end).
  now rewrite Halt.
Qed.

Lemma parse_alternative_caret (fuel : nat) (s : list ascii) :
  RegExp.parse_alternative (S (S fuel)) ("^"%char :: s)
  = match RegExp.parse_alternative (S fuel) s with
    | Some (r2, rest') => Some (RegExp.Seq RegExp.AssertStart r2, rest')
    | None => None
    end.
Proof. reflexivity. Qed.

Lemma parse_anchored_digits (p : string) :
  digits_only p ->
  RegExp.parse ("^" ++ p ++ "$")%string
  = Some (RegExp.Seq RegExp.AssertStart (anchored_tail (list_ascii_of_string p))).
Proof.
  intros Hp. unfold RegExp.parse.
  rewrite !list_ascii_of_string_app. cbn [list_ascii_of_string app].
  set (l := list_ascii_of_string p) in *.
  replace (3 * List.length ("^"%char :: l ++ ["$"%char]) + 4)%nat
    with (S (S (S (3 * List.length l + 7))))
    by (simpl; rewrite length_app; simpl; lia).
  erewrite parse_disjunction_done; [reflexivity|].
  rewrite parse_alternative_caret, parse_alternative_digits;
    [reflexivity|assumption|lia].
Qed.

Lemma matchK_anchored_tail (p s : list ascii) (b : bool) :
  RegExp.matchK (anchored_tail p) (fun _ => true) (b, s) = true <-> s = p.
Proof.
  revert s b; induction p as [|c p IH]; intros s b.
  - destruct s; simpl; split; congruence.
  - destruct s as [|d s]; cbn [anchored_tail RegExp.matchK RegExp.lit snd].
    + split; discriminate.
    + unfold RegExp.in_class; cbn [existsb RegExp.in_item xorb].
      rewrite orb_false_r. destruct (Ascii.eqb_spec d c) as [->|Hne].
      * rewrite IH. split; congruence.
      * split; [discriminate|congruence].
Qed.

Lemma search_anchored_later (r : RegExp.regex) (s : list ascii) :
  RegExp.search (RegExp.Seq RegExp.AssertStart r) false s = false.
Proof. induction s as [|c s IH]; simpl; [reflexivity|exact IH]. Qed.

(** In the fragment, a pattern of decimal digits put between [^] and [$]
    matches its own text and nothing else. *)
Lemma fragment_digits_pattern (p : string) :
  digits_only p ->
  exists re,
    new_RegExp (RegExpRuntime := fragment_runtime) ("^" ++ p ++ "$")%string
    = Some re
    /\ forall s, re s = true <-> s = p.
Proof.
  intros Hp. cbn [new_RegExp fragment_runtime].
  rewrite parse_anchored_digits by assumption. cbn [option_map].
  eexists; split; [reflexivity|]. intros s. unfold RegExp.test.
  assert (Hstr : list_ascii_of_string s = list_ascii_of_string p <-> s = p).
  { split; [|now intros ->]. intros H.
    rewrite <- (string_of_list_ascii_of_string s),
      <- (string_of_list_ascii_of_string p). now f_equal. }
  rewrite <- Hstr, <- (matchK_anchored_tail _ _ true).
  destruct (list_ascii_of_string s) as [|c l];
    cbn [RegExp.search RegExp.matchK fst];
    rewrite ?search_anchored_later, orb_false_r; reflexivity.
Qed.

Lemma string_of_uint_digits (d : Decimal.uint) :
  Forall (fun c => RegExp.is_digit c = true)
    (list_ascii_of_string (NilEmpty.string_of_uint d)).
Proof. induction d; simpl; constructor; auto. Qed.

Lemma toString_digits (n : Z) : 0 <= n -> digits_only (toString n).
Proof.
  intros Hn. unfold digits_only, toString.
  destruct n as [|p|p]; [| |lia].
  - repeat constructor.
  - simpl. unfold NilZero.string_of_uint.
    destruct (Pos.to_uint p) eqn:Hp; try apply string_of_uint_digits.
    repeat constructor.
Qed.

Lemma toString_inj (a b : Z) : toString a = toString b -> a = b.
Proof.
  unfold toString. intros Heq. apply DecimalZ.to_int_inj.
  assert (Hnn : forall z, Z.to_int z <> Decimal.Pos Decimal.Nil
                          /\ Z.to_int z <> Decimal.Neg Decimal.Nil).
  { intros [|p|p]; simpl; split; try discriminate;
      intros [= H]; now apply DecimalPos.Unsigned.to_uint_nonnil in H. }
  apply (f_equal NilZero.int_of_string) in Heq.
  rewrite !NilZero.isi in Heq by apply Hnn. congruence.
Qed.

Lemma fragment_123 :
  exists re,
    new_RegExp (RegExpRuntime := fragment_runtime) ("^" ++ "123" ++ "$")%string
    = Some re
    /\ re (toString 123) = true /\ re (toString 1234) = false.
Proof.
  eexists; split; [lazy; reflexivity|].
  split; vm_compute; reflexivity.
Qed.

(** What holds of the pattern filter.  An old code that is not uploaded
    again is left out exactly when the expression built as [^pattern$]
    matches its decimal representation, and an old code without such a
    match is sent.  In the regular-expression fragment, a pattern that is
    the decimal text of [n], below [10 ^ 21], leaves out the old code [n]
    and no other; in particular the pattern [123] leaves out the old code
    123 and keeps 1234. *)
Theorem pattern_mode :
  (forall (runtime : RegExpRuntime) (Number Notes : Type)
          (edits : Edits Number Notes) pkg tr new ty uf up rn
          (pattern : string) (re : string -> bool) (old : list Z),
      strict_eq ty "all" = false ->
      oldVersionCodes edits pkg tr = Some old ->
      new_RegExp ("^" ++ pattern ++ "$")%string = Some re ->
      exists codes,
        mergedVersionCodes
          (updateTrack edits pkg tr new ty (FString pattern) uf up rn)
        = Some codes
        /\ (forall c,
              In c old -> ~ In c new ->
              (~ In c codes <-> re (toString c) = true))
        /\ (forall c, In c old -> re (toString c) = false -> In c codes))
  /\ (forall (Number Notes : Type) (edits : Edits Number Notes) pkg tr new ty
             uf up rn (old : list Z) (n : Z),
        0 <= n < 10 ^ 21 ->
        strict_eq ty "all" = false ->
        oldVersionCodes edits pkg tr = Some old ->
        exists codes,
          mergedVersionCodes
            (updateTrack (H := fragment_runtime) edits pkg tr new ty
               (FString (toString n)) uf up rn)
          = Some codes
          /\ (forall c, In c old -> ~ In c new -> (~ In c codes <-> c = n)))
  /\ (forall (Number Notes : Type) (edits : Edits Number Notes) pkg tr new ty
             uf up rn (old : list Z),
        strict_eq ty "all" = false ->
        oldVersionCodes edits pkg tr = Some old ->
        exists codes,
          mergedVersionCodes
            (updateTrack (H := fragment_runtime) edits pkg tr new ty
               (FString "123") uf up rn)
          = Some codes
          /\ (~ In 123 new -> ~ In 123 codes)
          /\ (In 1234 old -> In 1234 codes)).
Proof.
  assert (Hgen : forall (runtime : RegExpRuntime) (Number Notes : Type)
            (edits : Edits Number Notes) pkg tr new ty uf up rn
            (pattern : string) (re : string -> bool) (old : list Z),
            strict_eq ty "all" = false ->
            oldVersionCodes edits pkg tr = Some old ->
            new_RegExp ("^" ++ pattern ++ "$")%string = Some re ->
            mergedVersionCodes
              (updateTrack edits pkg tr new ty (FString pattern) uf up rn)
            = Some (survivors (fun c => re (toString c)) old
                      ++ appended (survivors (fun c => re (toString c)) old) new)).
  { intros runtime Number Notes edits pkg tr new ty uf up rn pattern re old
      Hty Hold Hre. unfold mergedVersionCodes.
    erewrite updateTrack_filtered; [reflexivity|eassumption..|].
    unfold excludes. now rewrite Hre. }
  assert (Hsurv : forall (re : string -> bool) old c,
            In c (survivors (fun c => re (toString c)) old)
            <-> In c old /\ re (toString c) = false).
  { intros re old c. unfold survivors.
    now rewrite filter_In, negb_true_iff. }
  assert (Hleft : forall (re : string -> bool) old new c,
            In c old -> ~ In c new ->
            (~ In c (survivors (fun c => re (toString c)) old
                       ++ appended (survivors (fun c => re (toString c)) old) new)
             <-> re (toString c) = true)).
  { intros re old new c Hc Hnew. rewrite merged_In, Hsurv.
    destruct (re (toString c)); split; intros; try tauto; try discriminate.
    intros [[_ Habs]|Habs]; [discriminate|tauto]. }
  split; [|split].
  - intros runtime Number Notes edits pkg tr new ty uf up rn pattern re old
      Hty Hold Hre.
    eexists; split; [eapply Hgen; eassumption|]. split.
    + intros c Hc Hnew. now apply Hleft.
    + intros c Hc Hre'. apply merged_In. left. apply Hsurv. tauto.
  - intros Number Notes edits pkg tr new ty uf up rn old n [Hn _] Hty Hold.
    destruct (fragment_digits_pattern (toString_digits Hn)) as (re & Hre & Hmatch).
    eexists; split; [eapply Hgen; eassumption|].
    intros c Hc Hnew. rewrite Hleft, Hmatch by assumption. split.
    + apply toString_inj.
    + now intros ->.
  - intros Number Notes edits pkg tr new ty uf up rn old Hty Hold.
    destruct fragment_123 as (re & Hre & H123 & H1234).
    eexists; split; [eapply Hgen; eassumption|]. split.
    + intros Hnew Hin. apply merged_In in Hin as [Hin|Hin]; [|tauto].
      apply Hsurv in Hin as [_ Hin]. congruence.
    + intros Hin. apply merged_In. left. apply Hsurv. tauto.
Qed.

(** C5 fails on the code for a pattern with an alternative at its top
    level.  The anchors are written around the text of the pattern, so that
    in [^1|2$] the first belongs to [1] and the second to [2]: with the
    pattern [1|2] and the old codes 13, 31, 32, 1 and 2 only 31 is sent.
    The codes 13 and 32 are left out although they do not match the pattern
    in full: the expression [^(?:1|2)$] matches 1 and 2 only. *)
Theorem pattern_alternation_leaves_out_partial_matches :
  mergedVersionCodes
    (updateTrack (store_with [{| versionCodes := [13; 31; 32; 1; 2] |}])
       "com.example" "alpha" [] (Some "expression"%string) (FString "1|2")
       tt tt tt)
  = Some [31]
  /\ option_map (fun re => map (fun c => re (toString c)) [13; 31; 32; 1; 2])
       (new_RegExp (RegExpRuntime := fragment_runtime) "^1|2$")
     = Some [true; false; true; true; true]
  /\ option_map (fun re => map (fun c => re (toString c)) [13; 31; 32; 1; 2])
       (new_RegExp (RegExpRuntime := fragment_runtime) "^(?:1|2)$")
     = Some [false; false; false; true; true].
Proof. repeat split; vm_compute; reflexivity. Qed.

(** ** The list of version codes to replace *)

Lemma accepted_positive (s : string) :
  accepted s = true <-> exists z, parseInt (trim s) = Num z /\ 0 < z.
Proof.
  unfold accepted. destruct (parseInt (trim s)) as [|z]; simpl.
  - split; [discriminate|]. intros (z & Hz & _); discriminate.
  - rewrite andb_true_iff, negb_true_iff, Z.eqb_neq, Z.ltb_lt. split.
    + intros [_ Hz]. now exists z.
    + intros (z' & [= <-] & Hz). lia.
Qed.

Lemma list_input_loop (input : list string) (good : list Z) (bad : list string) :
  fold_left
    (fun '(versionCodeFilter, incorrectCodes) versionCode =>
       match parseInt (trim versionCode) with
       | Num z as versionCodeNumber =>
           if (truthy versionCodeNumber && gt0 versionCodeNumber)%bool
           then (versionCodeFilter ++ [z], incorrectCodes)
           else (versionCodeFilter, incorrectCodes ++ [trim versionCode])
       | NaN => (versionCodeFilter, incorrectCodes ++ [trim versionCode])
       end)
    input (good, bad)
  = (good ++ map parsed_value (filter accepted input),
     bad ++ map trim (filter (fun s => negb (accepted s)) input)).
Proof.
  match goal with |- fold_left ?F _ _ = _ => set (step := F) end.
  assert (Hstep : forall good bad s,
            step (good, bad) s
            = if accepted s then (good ++ [parsed_value s], bad)
              else (good, bad ++ [trim s])).
  { intros g b s. unfold step, accepted, parsed_value.
    now destruct (parseInt (trim s)). }
  revert good bad; induction input as [|s input IH]; intros good bad.
  - cbn [fold_left filter map]. now rewrite !app_nil_r.
  - cbn [fold_left filter]. rewrite Hstep.
    destruct (accepted s); rewrite IH; cbn [negb map];
      now rewrite <- app_assoc.
Qed.

Lemma filter_all_strings (p : string -> bool) (l : list string) :
  (forall x, In x l -> p x = true) -> filter p l = l.
Proof.
  induction l as [|x l IH]; simpl; intros Hall; [reflexivity|].
  rewrite (Hall x (or_introl eq_refl)), IH; auto.
Qed.

(** The outcome of [getVersionCodeListInput] in closed form. *)
Lemma getVersionCodeListInput_outcome (input : list string) :
  getVersionCodeListInput input
  = match map trim (filter (fun s => negb (accepted s)) input) with
    | [] => inr (map parsed_value input)
    | bad => inl (IncorrectVersionCodeFilter bad)
    end.
Proof.
  unfold getVersionCodeListInput. rewrite list_input_loop; simpl.
  destruct (map trim (filter (fun s => negb (accepted s)) input)) eqn:Hbad.
  - simpl. do 2 f_equal. apply filter_all_strings.
    intros s Hs. destruct (accepted s) eqn:Hacc; [reflexivity|].
    apply map_eq_nil in Hbad.
    assert (Hin : In s (filter (fun s => negb (accepted s)) input))
      by (apply filter_In; now rewrite Hacc).
    now rewrite Hbad in Hin.
  - reflexivity.
Qed.

Lemma digit_not_space (c : ascii) :
  RegExp.is_digit c = true -> RegExp.is_space c = false.
Proof.
  unfold RegExp.is_digit, RegExp.is_space, RegExp.between.
  rewrite andb_true_iff, !Nat.leb_le. intros [Hlo Hhi].
  apply orb_false_iff; split.
  - apply andb_false_iff. right. apply Nat.leb_gt. lia.
  - apply Nat.eqb_neq. lia.
Qed.

(** An entry that is nothing but a positive integer is accepted, with its
    value. *)
Lemma denotes_positive_integer_accepted (s : string) :
  denotes_positive_integer s = true -> accepted s = true.
Proof.
  unfold denotes_positive_integer, accepted, parseInt.
  destruct (list_ascii_of_string (trim s)) as [|c rest] eqn:Hs.
  - simpl. discriminate.
  - intros Hden.
    assert (Hsp : RegExp.is_space c = false).
    { destruct (RegExp.is_space c) eqn:Hc; [|reflexivity].
      assert (Hd : RegExp.is_digit c = false).
      { destruct (RegExp.is_digit c) eqn:Hd; [|reflexivity].
        apply digit_not_space in Hd. congruence. }
      assert (Hsign : read_sign (c :: rest) = (1, c :: rest)).
      { destruct c as [[] [] [] [] [] [] [] []]; try reflexivity; discriminate. }
      rewrite Hsign in Hden. cbn [read_digits] in Hden. rewrite Hd in Hden.
      discriminate. }
    cbn [trimStart]. rewrite Hsp.
    destruct (read_sign (c :: rest)) as [sign body].
    destruct (read_digits None body) as [[n|] [|c' rest']]; try discriminate.
    cbn [fst truthy gt0]. rewrite Hden.
    apply Z.ltb_lt in Hden. apply andb_true_iff; split; [|reflexivity].
    apply negb_true_iff, Z.eqb_neq. lia.
Qed.

Lemma read_sign_digit (c : ascii) (rest : list ascii) :
  RegExp.is_digit c = true -> read_sign (c :: rest) = (1, c :: rest).
Proof.
  intros Hc. apply digit_cases in Hc. simpl in Hc.
  repeat (destruct Hc as [<-|Hc]); try contradiction; reflexivity.
Qed.

Lemma trimStart_split (l : list ascii) :
  exists ws,
    l = ws ++ trimStart l /\ Forall (fun c => RegExp.is_space c = true) ws.
Proof.
  induction l as [|c l (ws & Hl & Hws)]; [now exists []|]. cbn [trimStart].
  destruct (RegExp.is_space c) eqn:Hc.
  - exists (c :: ws). split; [cbn [app]; congruence|now constructor].
  - now exists [].
Qed.

Lemma trimStart_head (l : list ascii) :
  match trimStart l with
  | c :: _ => RegExp.is_space c = false
  | [] => True
  end.
Proof.
  induction l as [|c l IH]; [exact I|]. cbn [trimStart].
  now destruct (RegExp.is_space c) eqn:Hc.
Qed.

Lemma trimStart_app (ws l : list ascii) :
  Forall (fun c => RegExp.is_space c = true) ws ->
  trimStart (ws ++ l) = trimStart l.
Proof.
  induction 1 as [|c ws Hc _ IH]; [reflexivity|]. cbn [app trimStart].
  now rewrite Hc.
Qed.

Lemma read_sign_spec (c : ascii) (rest : list ascii) :
  read_sign (c :: rest)
  = if Ascii.eqb c "-" then (-1, rest)
    else if Ascii.eqb c "+" then (1, rest) else (1, c :: rest).
Proof. destruct c as [[] [] [] [] [] [] [] []]; reflexivity. Qed.

Lemma read_digits_split (s : list ascii) :
  forall acc,
  exists digits rest,
    s = digits ++ rest
    /\ Forall (fun c => RegExp.is_digit c = true) digits
    /\ match rest with
       | c :: _ => RegExp.is_digit c = false
       | [] => True
       end
    /\ read_digits acc s
       = (match digits with
          | [] => acc
          | _ :: _ =>
              Some (fold_left (fun a c => 10 * a + digit_value c) digits
                      match acc with Some n => n | None => 0 end)
          end, rest).
Proof.
  induction s as [|c s IH]; intros acc.
  - exists [], []. repeat split; constructor.
  - cbn [read_digits]. destruct (RegExp.is_digit c) eqn:Hc.
    + destruct (IH (Some (10 * match acc with Some n => n | None => 0 end
                          + digit_value c)))
        as (digits & rest & -> & Hd & Hrest & ->).
      exists (c :: digits), rest. split; [reflexivity|].
      split; [now constructor|]. split; [assumption|].
      now destruct digits.
    + exists [], (c :: s). repeat split; [constructor|assumption].
Qed.

Lemma read_digits_app (digits rest : list ascii) :
  Forall (fun c => RegExp.is_digit c = true) digits ->
  match rest with
  | c :: _ => RegExp.is_digit c = false
  | [] => True
  end ->
  forall acc,
    read_digits acc (digits ++ rest)
    = (match digits with
       | [] => acc
       | _ :: _ =>
           Some (fold_left (fun a c => 10 * a + digit_value c) digits
                   match acc with Some n => n | None => 0 end)
       end, rest).
Proof.
  intros Hd Hrest. induction Hd as [|c digits Hc Hd IH]; intros acc.
  - cbn [app]. destruct rest as [|c rest]; [reflexivity|].
    cbn [read_digits]. now rewrite Hrest.
  - cbn [app read_digits]. rewrite Hc, IH. now destruct digits.
Qed.

(** What [parseInt] computes, said without [parseInt]. *)
Lemma parseInt_leading_integer (s : string) (n : Z) :
  parseInt s = Num n <-> leading_integer s n.
Proof.
  unfold parseInt, leading_integer. split.
  - destruct (trimStart_split (list_ascii_of_string s)) as (ws & Hl & Hws).
    pose proof (trimStart_head (list_ascii_of_string s)) as Hhead.
    destruct (trimStart (list_ascii_of_string s)) as [|c body] eqn:Ht.
    { cbn. discriminate. }
    rewrite read_sign_spec.
    assert (Hparse : forall sign sg body',
              sign_value sign = Some sg ->
              c :: body = sign ++ body' ->
              match fst (read_digits None body') with
              | Some mathInt => Num (sg * mathInt)
              | None => NaN
              end = Num n ->
              exists ws sign digits rest sg,
                list_ascii_of_string s = ws ++ sign ++ digits ++ rest
                /\ Forall (fun c => RegExp.is_space c = true) ws
                /\ sign_value sign = Some sg
                /\ digits <> []
                /\ Forall (fun c => RegExp.is_digit c = true) digits
                /\ match rest with
                   | c :: _ => RegExp.is_digit c = false
                   | [] => True
                   end
                /\ n = sg * decimal_value digits).
    { intros sign sg body' Hsign Hbody.
      destruct (read_digits_split body' None) as (digits & rest & -> & Hd & Hrest & ->).
      destruct digits as [|d digits]; [discriminate|]. cbn [fst].
      intros [= <-]. exists ws, sign, (d :: digits), rest, sg.
      rewrite Hl, Hbody. repeat split; try assumption. discriminate. }
    destruct (Ascii.eqb_spec c "-") as [->|Hminus].
    { apply (Hparse ["-"%char] (-1) body); reflexivity. }
    destruct (Ascii.eqb_spec c "+") as [->|Hplus].
    { apply (Hparse ["+"%char] 1 body); reflexivity. }
    apply (Hparse [] 1 (c :: body)); reflexivity.
  - intros (ws & sign & digits & rest & sg & Hl & Hws & Hsign & Hne & Hd & Hrest & ->).
    rewrite Hl, trimStart_app by assumption.
    destruct digits as [|d digits]; [congruence|].
    assert (Hdigit : RegExp.is_digit d = true) by now inversion Hd.
    destruct sign as [|c [|c' sign]]; cbn [sign_value] in Hsign.
    + injection Hsign as <-. cbn [app].
      cbn [trimStart]. rewrite (digit_not_space _ Hdigit).
      rewrite read_sign_digit by assumption.
      change (d :: digits ++ rest) with ((d :: digits) ++ rest).
      rewrite read_digits_app by assumption. reflexivity.
    + cbn [app trimStart].
      destruct (Ascii.eqb_spec c "+") as [->|Hplus].
      * injection Hsign as <-.
        change (RegExp.is_space "+") with false. cbv iota.
        rewrite read_sign_spec.
        change (Ascii.eqb "+" "-") with false.
        change (Ascii.eqb "+" "+") with true. cbv iota.
        change (d :: digits ++ rest) with ((d :: digits) ++ rest).
        rewrite read_digits_app by assumption. reflexivity.
      * destruct (Ascii.eqb_spec c "-") as [->|Hminus]; [|discriminate].
        injection Hsign as <-.
        change (RegExp.is_space "-") with false. cbv iota.
        rewrite read_sign_spec.
        change (Ascii.eqb "-" "-") with true. cbv iota.
        change (d :: digits ++ rest) with ((d :: digits) ++ rest).
        rewrite read_digits_app by assumption. reflexivity.
    + discriminate.
Qed.

Lemma read_digits_ignores_spaces (body ws : list ascii) :
  Forall (fun c => RegExp.is_space c = true) ws ->
  forall acc, fst (read_digits acc (body ++ ws)) = fst (read_digits acc body).
Proof.
  intros Hws. induction body as [|c body IH]; intros acc.
  - cbn [app]. destruct Hws as [|c ws Hc _]; [reflexivity|].
    cbn [read_digits].
    destruct (RegExp.is_digit c) eqn:Hd; [|reflexivity].
    apply digit_not_space in Hd. congruence.
  - cbn [app read_digits]. destruct (RegExp.is_digit c); [apply IH|reflexivity].
Qed.

(** Trimming an entry before [parseInt] changes nothing: [parseInt] skips
    the leading white space itself and ignores what follows the digits. *)
Lemma parseInt_trim (s : string) : parseInt (trim s) = parseInt s.
Proof.
  unfold parseInt, trim. rewrite list_ascii_of_string_of_list_ascii.
  pose proof (trimStart_head (list_ascii_of_string s)) as Hhead.
  destruct (trimStart_split (rev (trimStart (list_ascii_of_string s))))
    as (ws & Hrev & Hws).
  set (t := trimStart (list_ascii_of_string s)) in *.
  set (x := rev (trimStart (rev t))) in *.
  assert (Ht : t = x ++ rev ws).
  { unfold x. rewrite <- rev_app_distr, <- Hrev. now rewrite rev_involutive. }
  assert (Hws' : Forall (fun c => RegExp.is_space c = true) (rev ws))
    by now apply Forall_rev.
  clearbody x t. subst t. clear Hrev.
  destruct x as [|c x].
  - cbn [app] in *. destruct (rev ws) as [|c l]; [reflexivity|].
    inversion Hws' as [|? ? Hc _]. congruence.
  - cbn [app] in Hhead |- *. cbn [trimStart]. rewrite Hhead.
    rewrite !read_sign_spec.
    destruct (Ascii.eqb c "-"); [now rewrite read_digits_ignores_spaces|].
    destruct (Ascii.eqb c "+"); [now rewrite read_digits_ignores_spaces|].
    change (c :: x ++ rev ws) with ((c :: x) ++ rev ws).
    now rewrite read_digits_ignores_spaces.
Qed.

(** The entries that [getVersionCodeListInput] accepts, said without
    [parseInt]. *)
Lemma accepted_leading_integer (s : string) :
  accepted s = true <-> exists n, leading_integer s n /\ 0 < n.
Proof.
  rewrite accepted_positive, parseInt_trim. split.
  - intros (z & Hz & Hpos). exists z. split; [|assumption].
    now apply parseInt_leading_integer.
  - intros (n & Hn & Hpos). exists n. split; [|assumption].
    now apply parseInt_leading_integer.
Qed.

Lemma parsed_value_leading_integer (s : string) :
  accepted s = true -> leading_integer s (parsed_value s) /\ 0 < parsed_value s.
Proof.
  intros Hacc. apply accepted_positive in Hacc as (z & Hz & Hpos).
  unfold parsed_value. rewrite Hz. split; [|assumption].
  apply parseInt_leading_integer. now rewrite <- parseInt_trim.
Qed.

(** C8, amended.  For entries of ASCII characters, reading the list fails,
    with the rejected entries, exactly when some entry does not start, after
    leading white space, with an optionally signed run of decimal digits of
    positive value; what follows the digits is ignored, so that [1.5] is
    read as 1 and [12abc] as 12.  An input of positive integers only is
    never rejected.  When no entry is rejected the values of the leading
    runs of digits are returned, in order, all positive; they are the
    values in the code as long as none exceeds [2 ^ 53], up to which
    [parseInt] is exact. *)
Theorem list_input_rejection (input : list string) :
  (forall s, In s input -> ascii_text s = true) ->
  ((exists bad, getVersionCodeListInput input = inl (IncorrectVersionCodeFilter bad))
   <-> exists s, In s input /\ ~ (exists n, leading_integer s n /\ 0 < n))
  /\ ((forall s, In s input -> denotes_positive_integer s = true) ->
      exists codes, getVersionCodeListInput input = inr codes)
  /\ ((forall s n, In s input -> leading_integer s n -> n <= max_exact) ->
      forall codes,
        getVersionCodeListInput input = inr codes ->
        Forall2 (fun s n => leading_integer s n /\ 0 < n <= max_exact) input codes)
  /\ getVersionCodeListInput ["1.5"; "12abc"]%string = inr [1; 12].
Proof.
  intros _.
  assert (Hok : (forall s, In s input -> accepted s = true) ->
                getVersionCodeListInput input = inr (map parsed_value input)).
  { intros Hall. rewrite getVersionCodeListInput_outcome.
    replace (filter (fun s => negb (accepted s)) input) with (@nil string);
      [reflexivity|].
    symmetry. clear - Hall. induction input as [|s input IH]; [reflexivity|].
    simpl. rewrite (Hall s (or_introl eq_refl)). simpl.
    apply IH. intros s' Hs'. apply Hall. now right. }
  assert (Hrej : (exists bad, getVersionCodeListInput input
                              = inl (IncorrectVersionCodeFilter bad))
                 <-> exists s, In s input /\ accepted s = false).
  { rewrite getVersionCodeListInput_outcome. split.
    - intros [bad Hbad].
      destruct (filter (fun s => negb (accepted s)) input) as [|s rest] eqn:Hf;
        [discriminate|].
      assert (Hin : In s (filter (fun s => negb (accepted s)) input))
        by (rewrite Hf; now left).
      apply filter_In in Hin as [Hin Hacc]. apply negb_true_iff in Hacc.
      now exists s.
    - intros (s & Hin & Hacc).
      assert (Hin' : In (trim s)
                       (map trim (filter (fun s => negb (accepted s)) input))).
      { apply in_map, filter_In. now rewrite Hacc. }
      destruct (map trim (filter (fun s => negb (accepted s)) input)) as [|b bs];
        [contradiction|]. now exists (b :: bs). }
  split; [|split; [|split; [|reflexivity]]].
  - rewrite Hrej. split; intros (s & Hin & Hacc); exists s; (split; [assumption|]).
    + rewrite <- accepted_leading_integer. congruence.
    + rewrite <- accepted_leading_integer in Hacc.
      now destruct (accepted s).
  - intros Hall. eexists. apply Hok. intros s Hs.
    now apply denotes_positive_integer_accepted, Hall.
  - intros Hbound codes Hcodes.
    assert (Hall : forall s, In s input -> accepted s = true).
    { intros s Hs. destruct (accepted s) eqn:Hacc; [reflexivity|].
      assert (Hbad : exists bad, getVersionCodeListInput input
                                 = inl (IncorrectVersionCodeFilter bad))
        by (apply Hrej; now exists s).
      destruct Hbad as [bad Hbad]. congruence. }
    rewrite (Hok Hall) in Hcodes. injection Hcodes as <-.
    clear Hok Hrej. induction input as [|s input IH]; [constructor|].
    cbn [map]. constructor.
    + destruct (parsed_value_leading_integer s (Hall s (or_introl eq_refl)))
        as [Hlead Hpos].
      split; [assumption|]. split; [assumption|].
      apply (Hbound s); [now left|assumption].
    + apply IH.
      * intros s' n Hs'. apply Hbound. now right.
      * intros s' Hs'. apply Hall. now right.
Qed.

(** C8, as stated, fails on the entry [1.5]: it is not an integer, and it is
    read as the version code 1 without an error. *)
Lemma list_input_accepts_fraction :
  denotes_positive_integer "1.5" = false
  /\ getVersionCodeListInput ["1.5"%string] = inr [1]
  /\ ~ ((exists e, getVersionCodeListInput ["1.5"%string] = inl e)
        <-> exists s, In s ["1.5"%string] /\ denotes_positive_integer s = false).
Proof.
  split; [reflexivity|]. split; [reflexivity|].
  intros [_ Hfail].
  destruct Hfail as [e He].
  - exists "1.5"%string. split; [now left|reflexivity].
  - discriminate.
Qed.

(** ** A missing filter type *)



(** ** A track without releases *)

(** C2 fails on the code: for a track that has no release, with the list
    filter [5] and the uploaded code 1, the run reads the track and ends
    with a [TypeError]; nothing is sent. *)
Theorem empty_track_throws :
  updateTrack (store_with []) "com.example" "alpha" [1] (Some "list"%string)
    (FNumbers [5]) tt tt tt
  = ([CallGetTrack "com.example" "alpha"], inl TypeError).
Proof. reflexivity. Qed.

(** With a first release that holds no version code the same run sends the
    uploaded code. *)
Example empty_release_merges :
  mergedVersionCodes
    (updateTrack (store_with [{| versionCodes := [] |}]) "com.example" "alpha"
       [1] (Some "list"%string) (FNumbers [5]) tt tt tt)
  = Some [1].
Proof. reflexivity. Qed.

(** C1, as stated, fails: with the filter type ['all'] a code uploaded twice
    is sent twice. *)
Lemma all_keeps_repeated_upload :
  mergedVersionCodes
    (updateTrack (store_with []) "com.example" "alpha" [4; 4]
       (Some "all"%string) FNull tt tt tt)
  = Some [4; 4]
  /\ ~ NoDup [4; 4].
Proof.
  split; [reflexivity|].
  intros Hnd. inversion Hnd as [|x l Hnotin _]; subst. apply Hnotin. now left.
Qed.

(** ** The scenarios of the specification, and instances *)

(** Scenario B: old 1 2 3, list filter 2, uploaded 4. *)
Example scenario_list :
  updateTrack (store_with [{| versionCodes := [1; 2; 3] |}]) "com.example"
    "alpha" [4] (Some "list"%string) (FNumbers [2]) tt tt tt
  = ([CallGetTrack "com.example" "alpha";
      CallUpdateTrack "com.example" "alpha" [1; 3; 4] tt tt tt],
     inr {| track := "alpha"; releases := [{| versionCodes := [1; 3; 4] |}] |}).
Proof. reflexivity. Qed.

(** Scenario C: old 1 12 100, pattern 1, uploaded 13. *)
Example scenario_pattern :
  mergedVersionCodes
    (updateTrack (store_with [{| versionCodes := [1; 12; 100] |}]) "com.example"
       "alpha" [13] (Some "expression"%string) (FString "1") tt tt tt)
  = Some [12; 100; 13].
Proof. vm_compute. reflexivity. Qed.

(** Old 10 11 12 123, pattern [1.]: the two-digit codes are left out. *)
Example scenario_pattern_dot :
  mergedVersionCodes
    (updateTrack (store_with [{| versionCodes := [10; 11; 12; 123] |}])
       "com.example" "alpha" [13] (Some "expression"%string) (FString "1.") tt tt tt)
  = Some [123; 13].
Proof. vm_compute. reflexivity. Qed.

(** The pattern is put between [^] and [$] as it is: in [^1|2$] each anchor
    belongs to one alternative, so 13 and 32 are left out and 31 is kept. *)
Example scenario_pattern_alternation :
  mergedVersionCodes
    (updateTrack (store_with [{| versionCodes := [13; 31; 32] |}])
       "com.example" "alpha" [] (Some "expression"%string) (FString "1|2") tt tt tt)
  = Some [31].
Proof. vm_compute. reflexivity. Qed.

(** A code uploaded twice is appended once when a filter is in use. *)
Example scenario_repeated_upload :
  mergedVersionCodes
    (updateTrack (store_with [{| versionCodes := [1; 2] |}]) "com.example"
       "alpha" [4; 2; 4] (Some "list"%string) (FNumbers []) tt tt tt)
  = Some [1; 2; 4].
Proof. reflexivity. Qed.

Lemma fetch_error_only_when_filtering_witness :
  strict_eq (Some "list"%string) "all" = false
  /\ getTrack_answer store_down "com.example" "alpha" = inl (External "not found")
  /\ updateTrack store_down "com.example" "alpha" [1] (Some "list"%string)
       (FNumbers [5]) tt tt tt
     = ([CallGetTrack "com.example" "alpha"],
        inl (CannotDownloadTrack "alpha" (External "not found"))).
Proof.
  split; [reflexivity|]. split; [reflexivity|].
  apply (proj2 (proj2 (proj2
           (@fetch_error_only_when_filtering unit unit fragment_runtime store_down
              "com.example" "alpha" [1] (Some "list"%string) (FNumbers [5])
              tt tt tt)))).
  - reflexivity.
  - reflexivity.
Defined.

Lemma uploaded_codes_are_sent_witness :
  mergedVersionCodes
    (updateTrack (store_with [{| versionCodes := [1; 2; 3] |}]) "com.example"
       "alpha" [4] (Some "list"%string) (FNumbers [2]) tt tt tt)
  = Some [1; 3; 4]
  /\ In 4 [4] /\ In 4 [1; 3; 4].
Proof.
  split; [reflexivity|]. split; [now left|].
  apply (proj1
           (@uploaded_codes_are_sent unit unit fragment_runtime
              (store_with [{| versionCodes := [1; 2; 3] |}]) "com.example"
              "alpha" [4] (Some "list"%string) (FNumbers [2]) tt tt tt)
           [1; 3; 4]).
  - reflexivity.
  - now left.
Defined.

Lemma merged_codes_distinct_witness :
  mergedVersionCodes
    (updateTrack (store_with [{| versionCodes := [1; 2; 3] |}]) "com.example"
       "alpha" [4; 3; 4] (Some "list"%string) (FNumbers [2]) tt tt tt)
  = Some [1; 3; 4]
  /\ NoDup [1; 2; 3] /\ NoDup [1; 3; 4].
Proof.
  assert (Hold : NoDup [1; 2; 3]).
  { repeat constructor; simpl; intuition discriminate. }
  split; [reflexivity|]. split; [exact Hold|].
  apply (proj1
           (@merged_codes_distinct unit unit fragment_runtime
              (store_with [{| versionCodes := [1; 2; 3] |}]) "com.example"
              "alpha" [4; 3; 4] (Some "list"%string) (FNumbers [2]) tt tt tt)
           [1; 3; 4]).
  - reflexivity.
  - intros Hty. discriminate Hty.
  - intros old _ Hget. injection Hget as <-. exact Hold.
Defined.

Lemma explicit_list_mode_witness :
  strict_eq (Some "list"%string) "all" = false
  /\ oldVersionCodes (store_with [{| versionCodes := [1; 2; 3] |}])
       "com.example" "alpha" = Some [1; 2; 3]
  /\ exists codes,
       mergedVersionCodes
         (updateTrack (store_with [{| versionCodes := [1; 2; 3] |}])
            "com.example" "alpha" [4] (Some "list"%string) (FNumbers [2])
            tt tt tt)
       = Some codes
       /\ (forall c, In c [2] -> In c [1; 2; 3] -> ~ In c [4] -> ~ In c codes)
       /\ (forall c, In c [1; 2; 3] -> ~ In c [2] -> In c codes)
       /\ (forall c, In c codes <-> (In c [1; 2; 3] /\ ~ In c [2]) \/ In c [4]).
Proof.
  split; [reflexivity|]. split; [reflexivity|].
  apply (@explicit_list_mode unit unit fragment_runtime
           (store_with [{| versionCodes := [1; 2; 3] |}]) "com.example" "alpha"
           [4] (Some "list"%string) tt tt tt [2] [1; 2; 3]).
  - reflexivity.
  - reflexivity.
Defined.

Lemma pattern_mode_witness :
  strict_eq (Some "expression"%string) "all" = false
  /\ oldVersionCodes (store_with [{| versionCodes := [123; 1234] |}])
       "com.example" "alpha" = Some [123; 1234]
  /\ exists codes,
       mergedVersionCodes
         (updateTrack (store_with [{| versionCodes := [123; 1234] |}])
            "com.example" "alpha" [7] (Some "expression"%string)
            (FString "123") tt tt tt)
       = Some codes
       /\ (~ In 123 [7] -> ~ In 123 codes)
       /\ (In 1234 [123; 1234] -> In 1234 codes).
Proof.
  split; [reflexivity|]. split; [reflexivity|].
  apply (proj2 (proj2 pattern_mode) unit unit
           (store_with [{| versionCodes := [123; 1234] |}]) "com.example"
           "alpha" [7] (Some "expression"%string) tt tt tt [123; 1234]).
  - reflexivity.
  - reflexivity.
Defined.

Lemma merged_order_witness :
  strict_eq (Some "list"%string) "all" = false
  /\ oldVersionCodes (store_with [{| versionCodes := [1; 2; 3] |}])
       "com.example" "alpha" = Some [1; 2; 3]
  /\ excludes (FNumbers [2]) = Some (fun c => mem c [2])
  /\ mergedVersionCodes
       (updateTrack (store_with [{| versionCodes := [1; 2; 3] |}])
          "com.example" "alpha" [5; 3; 4] (Some "list"%string) (FNumbers [2])
          tt tt tt)
     = Some (survivors (fun c => mem c [2]) [1; 2; 3]
               ++ first_occurrences
                    (filter
                       (fun c =>
                          negb (mem c (survivors (fun c => mem c [2]) [1; 2; 3])))
                       [5; 3; 4])).
Proof.
  split; [reflexivity|]. split; [reflexivity|]. split; [reflexivity|].
  apply (proj1
           (@merged_order unit unit fragment_runtime
              (store_with [{| versionCodes := [1; 2; 3] |}]) "com.example"
              "alpha" [5; 3; 4] (Some "list"%string) (FNumbers [2]) tt tt tt
              [1; 2; 3] (fun c => mem c [2]) eq_refl eq_refl eq_refl)).
Defined.

Lemma list_input_rejection_witness :
  Forall2 (fun s n => leading_integer s n /\ 0 < n <= max_exact)
    ["12"; " 7 "; "+12abc"]%string [12; 7; 12].
Proof.
  assert (Hascii : forall s, In s ["12"; " 7 "; "+12abc"]%string ->
                             ascii_text s = true).
  { intros s [<-|[<-|[<-|[]]]]; reflexivity. }
  assert (Hbound : forall s n, In s ["12"; " 7 "; "+12abc"]%string ->
                               leading_integer s n -> n <= max_exact).
  { intros s n Hs Hn. apply parseInt_leading_integer in Hn.
    destruct Hs as [<-|[<-|[<-|[]]]]; vm_compute in Hn; injection Hn as <-;
      vm_compute; discriminate. }
  apply (proj1 (proj2 (proj2 (@list_input_rejection
                                ["12"; " 7 "; "+12abc"]%string Hascii)))
           Hbound [12; 7; 12]).
  reflexivity.
Defined.


(** ** More on [updateTrack] *)

Section MoreOnUpdateTrack.

Variables Number Notes : Type.
Context {runtime : RegExpRuntime}.

(** Every run in closed form: the track is fetched unless the filter type
    is ['all'], and the update, if it is reached, is the last call. *)
Lemma updateTrack_run (edits : Edits Number Notes) pkg tr new ty f uf up rn :
  updateTrack edits pkg tr new ty f uf up rn
  = ((if strict_eq ty "all" then [] else [CallGetTrack pkg tr])
       ++ match mergedVersionCodes (updateTrack edits pkg tr new ty f uf up rn) with
          | Some codes => fst (send edits pkg tr codes uf up rn)
          | None => []
          end,
     match mergedVersionCodes (updateTrack edits pkg tr new ty f uf up rn) with
     | Some codes => snd (send edits pkg tr codes uf up rn)
     | None => snd (updateTrack edits pkg tr new ty f uf up rn)
     end).
Proof.
  unfold mergedVersionCodes. destruct (strict_eq ty "all") eqn:Hty.
  - apply strict_eq_true in Hty; subst ty. now rewrite updateTrack_all.
  - destruct (getTrack_answer edits pkg tr) as [e|res] eqn:Hget.
    { erewrite updateTrack_fetch_error; [reflexivity|eassumption..]. }
    destruct (releases res) as [|r rs] eqn:Hrel.
    { erewrite updateTrack_no_release; [reflexivity|eassumption..]. }
    assert (Hold : oldVersionCodes edits pkg tr = Some (versionCodes r))
      by (unfold oldVersionCodes; now rewrite Hget, Hrel).
    destruct (excludes f) as [excluded|] eqn:Hex.
    { erewrite updateTrack_filtered; [reflexivity|eassumption..]. }
    destruct f as [|pattern|l]; unfold excludes in Hex.
    + destruct (versionCodes r) as [|c old] eqn:Hcodes.
      * erewrite updateTrack_null_filter_empty; [reflexivity|eassumption..].
      * erewrite updateTrack_null_filter; [reflexivity|eassumption..].
    + destruct (new_RegExp ("^" ++ pattern ++ "$")%string) eqn:Hre;
        [discriminate|].
      erewrite updateTrack_bad_pattern; [reflexivity|eassumption..].
    + discriminate.
Qed.

(** X1.  [updateTrack] calls the store at most twice: one fetch of the
    track, unless the filter type is ['all'], then at most one update, which
    carries the package, the track, the fraction, the priority and the
    release notes it was given. *)
Theorem updateTrack_calls (edits : Edits Number Notes) pkg tr new ty f uf up rn :
  fst (updateTrack edits pkg tr new ty f uf up rn)
  = (if strict_eq ty "all" then [] else [CallGetTrack pkg tr])
      ++ match mergedVersionCodes (updateTrack edits pkg tr new ty f uf up rn) with
         | Some codes => [CallUpdateTrack pkg tr codes uf up rn]
         | None => []
         end.
Proof.
  rewrite updateTrack_run at 1. cbn [fst].
  now destruct (mergedVersionCodes (updateTrack edits pkg tr new ty f uf up rn)).
Qed.

(** X2.  When the update is reached, the result of [updateTrack] is what
    the store answers to it, and a rejection [e] of the update is thrown as
    [CannotUpdateTrack] with the track and [e]. *)
Theorem updateTrack_result (edits : Edits Number Notes) pkg tr new ty f uf up rn
    (codes : list Z) :
  mergedVersionCodes (updateTrack edits pkg tr new ty f uf up rn) = Some codes ->
  snd (updateTrack edits pkg tr new ty f uf up rn)
  = match updateTrack_answer edits pkg tr codes uf up rn with
    | inl e => inl (CannotUpdateTrack tr e)
    | inr res => inr res
    end.
Proof.
  intros Hsent. rewrite updateTrack_run. cbn [snd]. now rewrite Hsent.
Qed.

(** X3.  Apart from ['all'], the filter type plays no part in
    [updateTrack]: two types other than ['all'] give the same run, the kind
    of filtering being decided by the filter value alone. *)
Theorem filter_type_beyond_all_is_ignored (edits : Edits Number Notes)
    pkg tr new ty ty' f uf up rn :
  strict_eq ty "all" = false ->
  strict_eq ty' "all" = false ->
  updateTrack edits pkg tr new ty f uf up rn
  = updateTrack edits pkg tr new ty' f uf up rn.
Proof.
  intros Hty Hty'. unfold updateTrack. now rewrite Hty, Hty'.
Qed.

(** X4.  A pattern that is not a regular expression makes [updateTrack]
    throw: the track is fetched, nothing is sent, and with a readable track
    the error is the [SyntaxError] of the constructor, not wrapped. *)
Theorem invalid_pattern_sends_nothing (edits : Edits Number Notes)
    pkg tr new ty uf up rn (pattern : string) :
  strict_eq ty "all" = false ->
  new_RegExp ("^" ++ pattern ++ "$")%string = None ->
  fetched (updateTrack edits pkg tr new ty (FString pattern) uf up rn) = true
  /\ mergedVersionCodes
       (updateTrack edits pkg tr new ty (FString pattern) uf up rn) = None
  /\ (forall old,
        oldVersionCodes edits pkg tr = Some old ->
        updateTrack edits pkg tr new ty (FString pattern) uf up rn
        = ([CallGetTrack pkg tr], inl SyntaxError)).
Proof.
  intros Hty Hre. split; [now apply updateTrack_fetches|]. split.
  - unfold mergedVersionCodes.
    destruct (getTrack_answer edits pkg tr) as [e|res] eqn:Hget.
    { erewrite updateTrack_fetch_error; [reflexivity|eassumption..]. }
    destruct (releases res) as [|r rs] eqn:Hrel.
    { erewrite updateTrack_no_release; [reflexivity|eassumption..]. }
    erewrite updateTrack_bad_pattern with (old := versionCodes r);
      [reflexivity|assumption| |assumption].
    unfold oldVersionCodes. now rewrite Hget, Hrel.
  - intros old Hold. now apply updateTrack_bad_pattern with (old := old).
Qed.

Lemma first_occurrences_length (l : list Z) :
  (List.length (first_occurrences l) <= List.length l)%nat.
Proof.
  induction l as [|c l IH]; simpl; [lia|].
  pose proof (filter_length_le (fun d => negb (d =? c)) (first_occurrences l)).
  lia.
Qed.

Lemma appended_nil (kept new : list Z) :
  (forall c, In c new -> In c kept) -> appended kept new = [].
Proof.
  intros Hall. unfold appended.
  replace (filter (fun c => negb (mem c kept)) new) with (@nil Z); [reflexivity|].
  symmetry. induction new as [|c new IH]; [reflexivity|]. simpl.
  assert (Hc : mem c kept = true) by (apply mem_In, Hall; now left).
  rewrite Hc. simpl. apply IH. intros d Hd. apply Hall. now right.
Qed.

(** X5.  A filter type other than ['all'], ['list'] and ['expression']
    leaves the filter [null] in [run]; [updateTrack] then fetches the track
    and throws a [TypeError] as soon as the first release holds a version
    code, sending nothing, while with an empty first release it sends each
    uploaded code once. *)
Theorem unknown_filter_type (edits : Edits Number Notes) pkg tr new ty uf up rn
    (replaceList : list string) (replaceExpression : option string) :
  strict_eq ty "all" = false ->
  strict_eq ty "list" = false ->
  strict_eq ty "expression" = false ->
  run_versionCodeFilter ty replaceList replaceExpression = inr FNull
  /\ (forall c old,
        oldVersionCodes edits pkg tr = Some (c :: old) ->
        updateTrack edits pkg tr new ty FNull uf up rn
        = ([CallGetTrack pkg tr], inl TypeError))
  /\ (oldVersionCodes edits pkg tr = Some [] ->
      mergedVersionCodes (updateTrack edits pkg tr new ty FNull uf up rn)
      = Some (first_occurrences new)).
Proof.
  intros Hall Hlist Hexpr. split; [|split].
  - unfold run_versionCodeFilter. now rewrite Hlist, Hexpr.
  - intros c old Hold. now apply updateTrack_null_filter with (c := c) (old := old).
  - intros Hold. unfold mergedVersionCodes.
    erewrite updateTrack_null_filter_empty; [|eassumption..]. cbn [fst submitted send].
    unfold appended. f_equal. f_equal.
    apply filter_all. reflexivity.
Qed.

(** X6.  [updateTrack] never sends a version code it was not given: each
    code sent was uploaded or is on the first release of the fetched track,
    and no more codes are sent than these two lists hold. *)
Theorem merged_codes_come_from_inputs (edits : Edits Number Notes)
    pkg tr new ty f uf up rn (codes : list Z) :
  mergedVersionCodes (updateTrack edits pkg tr new ty f uf up rn) = Some codes ->
  (forall c,
     In c codes ->
     In c new \/ exists old, oldVersionCodes edits pkg tr = Some old /\ In c old)
  /\ (List.length codes
      <= List.length new
         + match oldVersionCodes edits pkg tr with
           | Some old => List.length old
           | None => 0
           end)%nat.
Proof.
  intros Hsent.
  apply updateTrack_sent in Hsent as [[_ ->]|[_ (old & excluded & Hold & ->)]].
  - split; [auto|lia].
  - split.
    + intros c Hc. apply merged_In in Hc as [Hc|Hc]; [|now left].
      right. exists old. split; [assumption|].
      unfold survivors in Hc. now apply filter_In in Hc.
    + rewrite Hold, length_app. unfold survivors, appended.
      pose proof (filter_length_le (fun c => negb (excluded c)) old).
      pose proof (first_occurrences_length
                    (filter (fun c => negb (mem c (filter (fun c => negb (excluded c)) old)))
                       new)).
      pose proof (filter_length_le
                    (fun c => negb (mem c (filter (fun c => negb (excluded c)) old)))
                    new).
      lia.
Qed.

(** X7.  When every uploaded code is already on the track and outside the
    exclusion rule, what is sent is the list of surviving old codes, in
    their order: nothing is appended and nothing moves. *)
Theorem uploads_already_on_track (edits : Edits Number Notes)
    pkg tr new ty f uf up rn (old : list Z) (excluded : Z -> bool) :
  strict_eq ty "all" = false ->
  oldVersionCodes edits pkg tr = Some old ->
  excludes f = Some excluded ->
  (forall c, In c new -> In c old /\ excluded c = false) ->
  mergedVersionCodes (updateTrack edits pkg tr new ty f uf up rn)
  = Some (survivors excluded old).
Proof.
  intros Hty Hold Hex Hnew. unfold mergedVersionCodes.
  erewrite updateTrack_filtered; [|eassumption..]. cbn [fst submitted send].
  rewrite appended_nil; [now rewrite app_nil_r|].
  intros c Hc. unfold survivors. apply filter_In.
  destruct (Hnew c Hc) as [Hin Hexc]. now rewrite Hexc.
Qed.

(** X8.  Running [updateTrack] again, on a track that now holds what the
    first run sent, with the same filter and the same uploaded codes, sends
    the same set of codes; when the filter excludes no uploaded code it
    sends the very same list. *)
Theorem rerun_sends_same_codes (edits edits' : Edits Number Notes)
    pkg tr new ty f uf up rn (old codes : list Z) (excluded : Z -> bool) :
  strict_eq ty "all" = false ->
  excludes f = Some excluded ->
  oldVersionCodes edits pkg tr = Some old ->
  mergedVersionCodes (updateTrack edits pkg tr new ty f uf up rn) = Some codes ->
  oldVersionCodes edits' pkg tr = Some codes ->
  exists codes',
    mergedVersionCodes (updateTrack edits' pkg tr new ty f uf up rn) = Some codes'
    /\ (forall c, In c codes' <-> In c codes)
    /\ ((forall c, In c new -> excluded c = false) -> codes' = codes).
Proof.
  intros Hty Hex Hold Hfirst Hold'. unfold mergedVersionCodes in *.
  erewrite updateTrack_filtered in Hfirst; [|eassumption..].
  cbn [fst submitted send] in Hfirst. injection Hfirst as Hcodes.
  erewrite updateTrack_filtered; [|eassumption..]. cbn [fst submitted send].
  eexists; split; [reflexivity|].
  assert (Hsurv : forall l c,
            In c (survivors excluded l) <-> In c l /\ excluded c = false).
  { intros l c. unfold survivors. now rewrite filter_In, negb_true_iff. }
  split.
  - intros c. rewrite merged_In, Hsurv, <- Hcodes, merged_In, Hsurv. tauto.
  - intros Hnew.
    assert (Hkeep : survivors excluded codes = codes).
    { unfold survivors. apply filter_all. intros c Hc.
      rewrite <- Hcodes in Hc. apply merged_In in Hc as [Hc|Hc].
      - apply Hsurv in Hc as [_ ->]. reflexivity.
      - now rewrite (Hnew c Hc). }
    rewrite Hkeep, appended_nil; [now rewrite app_nil_r|].
    intros c Hc. rewrite <- Hcodes. apply merged_In. now right.
Qed.

End MoreOnUpdateTrack.

(** ** More on the list of version codes to replace *)

(** X9.  For entries of ASCII characters: when entries are rejected, the
    error of [getVersionCodeListInput] lists every rejected entry, not only
    the first, trimmed and in the order of the input. *)
Theorem list_input_error_lists_all_rejected (input : list string) :
  (forall s, In s input -> ascii_text s = true) ->
  (exists s, In s input /\ accepted s = false) ->
  getVersionCodeListInput input
  = inl (IncorrectVersionCodeFilter
           (map trim (filter (fun s => negb (accepted s)) input))).
Proof.
  intros _ (s & Hin & Hacc). rewrite getVersionCodeListInput_outcome.
  assert (Hin' : In (trim s) (map trim (filter (fun s => negb (accepted s)) input))).
  { apply in_map, filter_In. now rewrite Hacc. }
  destruct (map trim (filter (fun s => negb (accepted s)) input)) as [|b bs];
    [contradiction|reflexivity].
Qed.

Lemma list_input_error_lists_all_rejected_witness :
  (exists s, In s ["4"; "x"; " 0 "; "5"; "-1"]%string /\ accepted s = false)
  /\ getVersionCodeListInput ["4"; "x"; " 0 "; "5"; "-1"]%string
     = inl (IncorrectVersionCodeFilter ["x"; "0"; "-1"]%string).
Proof.
  assert (H : exists s, In s ["4"; "x"; " 0 "; "5"; "-1"]%string /\ accepted s = false).
  { exists "x"%string. split; [simpl; tauto|reflexivity]. }
  split; [exact H|].
  apply (@list_input_error_lists_all_rejected ["4"; "x"; " 0 "; "5"; "-1"]%string);
    [|exact H].
  intros s [<-|[<-|[<-|[<-|[<-|[]]]]]]; reflexivity.
Defined.

Lemma read_digits_uint (d : Decimal.uint) (acc : Z) :
  read_digits (Some acc) (list_ascii_of_string (NilEmpty.string_of_uint d))
  = (Some (uint_value d acc), []).
Proof.
  revert acc; induction d; intros acc;
    cbn [NilEmpty.string_of_uint list_ascii_of_string read_digits uint_value];
    try reflexivity;
    match goal with
    | |- context [RegExp.is_digit ?c] =>
        change (RegExp.is_digit c) with true;
        let v := eval vm_compute in (digit_value c) in
        change (digit_value c) with v
    end;
    cbv iota; rewrite IHd; do 3 f_equal; lia.
Qed.

Lemma read_digits_uint_start (d : Decimal.uint) :
  d <> Decimal.Nil ->
  read_digits None (list_ascii_of_string (NilEmpty.string_of_uint d))
  = (Some (uint_value d 0), []).
Proof.
  destruct d; intros Hd; try congruence;
    cbn [NilEmpty.string_of_uint list_ascii_of_string read_digits uint_value];
    match goal with
    | |- context [RegExp.is_digit ?c] =>
        change (RegExp.is_digit c) with true;
        let v := eval vm_compute in (digit_value c) in
        change (digit_value c) with v
    end;
    cbv iota; rewrite read_digits_uint; reflexivity.
Qed.

Lemma of_uint_acc_value (d : Decimal.uint) (acc : positive) :
  Z.pos (Pos.of_uint_acc d acc) = uint_value d (Z.pos acc).
Proof.
  revert acc; induction d; intros acc;
    cbn [Pos.of_uint_acc uint_value]; try reflexivity;
    rewrite IHd; f_equal; lia.
Qed.

Lemma of_uint_value (d : Decimal.uint) : Z.of_N (Pos.of_uint d) = uint_value d 0.
Proof.
  induction d; cbn [Pos.of_uint uint_value Z.of_N]; try reflexivity;
    try assumption; rewrite of_uint_acc_value; reflexivity.
Qed.

Lemma to_uint_value (p : positive) : uint_value (Pos.to_uint p) 0 = Z.pos p.
Proof.
  rewrite <- of_uint_value, DecimalPos.Unsigned.of_to. reflexivity.
Qed.

Lemma trimStart_no_space (l : list ascii) :
  Forall (fun c => RegExp.is_space c = false) l -> trimStart l = l.
Proof. destruct 1 as [|c l Hc _]; simpl; [reflexivity|now rewrite Hc]. Qed.

Lemma trim_no_space (s : string) :
  Forall (fun c => RegExp.is_space c = false) (list_ascii_of_string s) ->
  trim s = s.
Proof.
  intros Hs. unfold trim. rewrite (trimStart_no_space Hs).
  rewrite trimStart_no_space by (apply Forall_rev; assumption).
  now rewrite rev_involutive, string_of_list_ascii_of_string.
Qed.

Lemma digits_no_space (l : list ascii) :
  Forall (fun c => RegExp.is_digit c = true) l ->
  Forall (fun c => RegExp.is_space c = false) l.
Proof.
  intros Hl. eapply Forall_impl; [|exact Hl]. intros c. apply digit_not_space.
Qed.

(** [parseInt] reads back the decimal text of every integer. *)
Lemma parseInt_toString (n : Z) :
  trim (toString n) = toString n /\ parseInt (toString n) = Num n.
Proof.
  destruct n as [|p|p].
  - split; reflexivity.
  - assert (Hd : digits_only (toString (Z.pos p))) by (apply toString_digits; lia).
    split; [apply trim_no_space, digits_no_space, Hd|].
    unfold parseInt. rewrite trimStart_no_space by apply digits_no_space, Hd.
    unfold digits_only, toString in *. cbn [Z.to_int NilZero.string_of_int] in *.
    assert (Hnil := DecimalPos.Unsigned.to_uint_nonnil p).
    assert (Hstr : NilZero.string_of_uint (Pos.to_uint p)
                   = NilEmpty.string_of_uint (Pos.to_uint p))
      by (destruct (Pos.to_uint p); congruence || reflexivity).
    rewrite Hstr in *.
    destruct (list_ascii_of_string (NilEmpty.string_of_uint (Pos.to_uint p)))
      as [|c rest] eqn:Hl.
    + destruct (Pos.to_uint p); simpl in Hl; congruence.
    + rewrite read_sign_digit by (now inversion Hd). rewrite <- Hl.
      rewrite read_digits_uint_start by assumption. cbn [fst].
      rewrite to_uint_value. f_equal; lia.
  - assert (Hd : Forall (fun c => RegExp.is_digit c = true)
                   (list_ascii_of_string
                      (NilEmpty.string_of_uint (Pos.to_uint p))))
      by apply string_of_uint_digits.
    assert (Hnil := DecimalPos.Unsigned.to_uint_nonnil p).
    assert (Hstr : toString (Z.neg p)
                   = String "-" (NilEmpty.string_of_uint (Pos.to_uint p))).
    { unfold toString. cbn [Z.to_int NilZero.string_of_int]. f_equal.
      destruct (Pos.to_uint p); congruence || reflexivity. }
    rewrite Hstr.
    assert (Hns : Forall (fun c => RegExp.is_space c = false)
                    (list_ascii_of_string
                       (String "-" (NilEmpty.string_of_uint (Pos.to_uint p))))).
    { constructor; [reflexivity|]. now apply digits_no_space. }
    split; [now apply trim_no_space|].
    unfold parseInt. rewrite trimStart_no_space by assumption.
    cbn [list_ascii_of_string read_sign].
    rewrite read_digits_uint_start by assumption. cbn [fst].
    rewrite to_uint_value. f_equal; lia.
Qed.

(** X10.  The decimal texts of version codes are read back unchanged, as
    long as no code exceeds [2 ^ 53] in absolute value, up to which
    [parseInt] is exact: for codes that are all positive
    [getVersionCodeListInput] returns them, in order, and otherwise it
    rejects exactly the texts of the codes that are zero or negative. *)
Theorem list_input_reads_back_decimal (codes : list Z) :
  (forall c, In c codes -> - max_exact <= c <= max_exact) ->
  getVersionCodeListInput (map toString codes)
  = if forallb (fun c => 0 <? c) codes
    then inr codes
    else inl (IncorrectVersionCodeFilter
                (map toString (filter (fun c => negb (0 <? c)) codes))).
Proof.
  intros _.
  assert (Hacc : forall c, accepted (toString c) = (0 <? c)).
  { intros c. unfold accepted. destruct (parseInt_toString c) as [-> ->].
    cbn [truthy gt0]. destruct (0 <? c) eqn:Hc.
    - apply Z.ltb_lt in Hc. rewrite andb_true_r.
      apply negb_true_iff, Z.eqb_neq. lia.
    - apply andb_false_r. }
  assert (Hval : forall c, parsed_value (toString c) = c).
  { intros c. unfold parsed_value. now destruct (parseInt_toString c) as [-> ->]. }
  rewrite getVersionCodeListInput_outcome.
  assert (Hrej : map trim (filter (fun s => negb (accepted s)) (map toString codes))
                 = map toString (filter (fun c => negb (0 <? c)) codes)).
  { induction codes as [|c codes IH]; [reflexivity|]. cbn [map filter].
    rewrite Hacc. destruct (0 <? c); cbn [negb map]; [assumption|].
    rewrite IH. f_equal. apply parseInt_toString. }
  rewrite Hrej, map_map. rewrite (map_ext _ (fun c => c) Hval), map_id.
  destruct (forallb (fun c => 0 <? c) codes) eqn:Hall.
  - replace (filter (fun c => negb (0 <? c)) codes) with (@nil Z); [reflexivity|].
    symmetry. clear Hrej. induction codes as [|c codes IH]; [reflexivity|].
    cbn [forallb] in Hall. apply andb_true_iff in Hall as [Hc Hall].
    cbn [filter]. rewrite Hc. cbn [negb]. now apply IH.
  - destruct (filter (fun c => negb (0 <? c)) codes) as [|c rest] eqn:Hf;
      [|reflexivity].
    exfalso.
    enough (Hpos : forallb (fun c => 0 <? c) codes = true) by congruence.
    apply forallb_forall. intros c Hc. destruct (0 <? c) eqn:Hpos; [reflexivity|].
    assert (Hin : In c (filter (fun c => negb (0 <? c)) codes))
      by (apply filter_In; now rewrite Hpos).
    now rewrite Hf in Hin.
Qed.

Lemma list_input_reads_back_decimal_witness :
  getVersionCodeListInput (map toString [12; 0; 7; -3])
  = inl (IncorrectVersionCodeFilter (map toString [0; -3])).
Proof.
  apply (@list_input_reads_back_decimal [12; 0; 7; -3]).
  intros c [<-|[<-|[<-|[<-|[]]]]]; vm_compute; split; discriminate.
Defined.

(** ** Expansion files and globs *)

(** What [getObbFile] returns passes the test [!== null]. *)
Lemma getObbFile_not_null (fs : FileSystem) (apkPath packageName : string)
    (versionCode : Z) (found : PathValue) :
  getObbFile fs apkPath packageName versionCode = inr found ->
  not_null found = true.
Proof.
  unfold getObbFile.
  destruct (readdirSync fs (path_dirname fs (path_dirname fs apkPath)))
    as [e|parentNames]; [discriminate|].
  assert (Hcur : forall r : exn + PathValue,
            r = match readdirSync fs (path_dirname fs apkPath) with
                | inl e => inl e
                | inr names =>
                    match find (fun file =>
                                  String.eqb file
                                    ("main." ++ toString versionCode ++ "."
                                       ++ packageName ++ ".obb")%string) names with
                    | Some file =>
                        if truthy_string
                             (find (fun file =>
                                      String.eqb file
                                        ("main." ++ toString versionCode ++ "."
                                           ++ packageName ++ ".obb")%string) names)
                        then inr (PString (path_join fs (path_dirname fs apkPath) file))
                        else inr (PString file)
                    | None => inr PUndefined
                    end
                end ->
            r = inr found -> not_null found = true).
  { intros r -> Hr. destruct (readdirSync fs (path_dirname fs apkPath)) as [e|names];
      [discriminate|].
    destruct (find _ names) as [file|] eqn:Hfind.
    - destruct (truthy_string (Some file)); injection Hr as <-; reflexivity.
    - injection Hr as <-; reflexivity. }
  cbv zeta.
  destruct (find _ parentNames) as [file|] eqn:Hfind.
  - destruct (truthy_string (Some file)).
    + intros [= <-]. reflexivity.
    + apply Hcur. reflexivity.
  - apply Hcur. reflexivity.
Qed.

(** X11.  [getObbFile] never returns [null]: when it does not throw, it
    returns a path or [undefined], so the test [!== null] made on its
    result by [run] always holds. *)
Theorem getObbFile_never_null (fs : FileSystem) (apkPath packageName : string)
    (versionCode : Z) (found : PathValue) :
  getObbFile fs apkPath packageName versionCode = inr found ->
  found = PUndefined \/ exists file, found = PString file.
Proof.
  intros H. apply getObbFile_not_null in H.
  destruct found as [| |file]; [discriminate|now left|right; now exists file].
Qed.

Lemma getObbFile_never_null_witness :
  getObbFile (sample_files ["notes.txt"] ["app.apk"]) "/data/build/app.apk"
    "com.example" 7 = inr PUndefined
  /\ (PUndefined = PUndefined \/ exists file, PUndefined = PString file).
Proof.
  split; [reflexivity|].
  apply (@getObbFile_never_null (sample_files ["notes.txt"] ["app.apk"])
           "/data/build/app.apk" "com.example" 7 PUndefined).
  reflexivity.
Defined.

(** X12.  An expansion file in the directory above the APK's directory
    takes precedence: when that directory lists names with the extension
    [.obb], [getObbFile] returns the first of them joined to that directory,
    whatever the version code and the package name are and without looking
    into the APK's own directory. *)
Theorem getObbFile_parent_first (fs : FileSystem) (apkPath packageName : string)
    (versionCode : Z) (names : list string) (file : string) :
  readdirSync fs (path_dirname fs (path_dirname fs apkPath)) = inr names ->
  find (fun f => String.eqb (path_extname fs f) ".obb") names = Some file ->
  file <> EmptyString ->
  getObbFile fs apkPath packageName versionCode
  = inr (PString (path_join fs (path_dirname fs (path_dirname fs apkPath)) file))
  /\ In file names /\ path_extname fs file = ".obb"%string.
Proof.
  intros Hdir Hfind Hne. unfold getObbFile. rewrite Hdir. cbv zeta.
  rewrite Hfind. cbn [truthy_string].
  destruct (String.eqb_spec file EmptyString) as [->|_]; [congruence|].
  split; [reflexivity|]. apply find_some in Hfind as [Hin Hext].
  split; [assumption|]. now apply String.eqb_eq.
Qed.

Lemma getObbFile_parent_first_witness :
  getObbFile (sample_files ["notes.txt"; "patch.obb"; "other.obb"]
                ["main.7.com.example.obb"])
    "/data/build/app.apk" "com.example" 7
  = inr (PString "/data/patch.obb").
Proof.
  apply (@getObbFile_parent_first
           (sample_files ["notes.txt"; "patch.obb"; "other.obb"]
              ["main.7.com.example.obb"])
           "/data/build/app.apk" "com.example" 7
           ["notes.txt"; "patch.obb"; "other.obb"]%string "patch.obb").
  - reflexivity.
  - reflexivity.
  - discriminate.
Defined.

(** X13.  Without a name of extension [.obb] in the directory above, the
    APK's own directory decides: [getObbFile] returns the file named
    [main.<versionCode>.<packageName>.obb] joined to that directory when it
    is listed there, and [undefined] when it is not. *)
Theorem getObbFile_in_apk_directory (fs : FileSystem) (apkPath packageName : string)
    (versionCode : Z) (parentNames names : list string) :
  readdirSync fs (path_dirname fs (path_dirname fs apkPath)) = inr parentNames ->
  (forall f, In f parentNames -> path_extname fs f <> ".obb"%string) ->
  readdirSync fs (path_dirname fs apkPath) = inr names ->
  getObbFile fs apkPath packageName versionCode
  = inr (if existsb
              (fun f =>
                 String.eqb f
                   ("main." ++ toString versionCode ++ "." ++ packageName ++ ".obb"))
              names
         then PString
                (path_join fs (path_dirname fs apkPath)
                   ("main." ++ toString versionCode ++ "." ++ packageName ++ ".obb"))
         else PUndefined).
Proof.
  intros Hparent Hnone Hcur. unfold getObbFile. rewrite Hparent, Hcur. cbv zeta.
  assert (Hfind : find (fun f => String.eqb (path_extname fs f) ".obb") parentNames
                  = None).
  { destruct (find _ parentNames) as [f|] eqn:Hf; [|reflexivity].
    apply find_some in Hf as [Hin Hext]. apply String.eqb_eq in Hext.
    now apply Hnone in Hin. }
  rewrite Hfind.
  set (expected := ("main." ++ toString versionCode ++ "." ++ packageName ++ ".obb")%string).
  destruct (find (fun f => String.eqb f expected) names) as [f|] eqn:Hf.
  - apply find_some in Hf as [Hin Heq]. apply String.eqb_eq in Heq. subst f.
    assert (Hex : existsb (fun f => String.eqb f expected) names = true).
    { apply existsb_exists. exists expected. split; [assumption|apply String.eqb_refl]. }
    rewrite Hex. reflexivity.
  - assert (Hex : existsb (fun f => String.eqb f expected) names = false).
    { destruct (existsb _ names) eqn:Hex; [|reflexivity].
      apply existsb_exists in Hex as (f & Hin & Heq).
      now rewrite (find_none _ _ Hf f Hin) in Heq. }
    rewrite Hex. reflexivity.
Qed.

Lemma getObbFile_in_apk_directory_witness :
  getObbFile (sample_files ["notes.txt"] ["app.apk"; "main.7.com.example.obb"])
    "/data/build/app.apk" "com.example" 7
  = inr (PString "/data/build/main.7.com.example.obb").
Proof.
  apply (@getObbFile_in_apk_directory
           (sample_files ["notes.txt"] ["app.apk"; "main.7.com.example.obb"])
           "/data/build/app.apk" "com.example" 7 ["notes.txt"]%string
           ["app.apk"; "main.7.com.example.obb"]%string).
  - reflexivity.
  - intros f [<-|[]]. discriminate.
  - reflexivity.
Defined.

(** X14.  When the glob matches nothing, [resolveGlobPath] returns its
    argument with every double quote removed: no double quote is left in
    the result, and resolving the result again changes nothing. *)
Theorem resolveGlobPath_unmatched (fs : FileSystem) (path : string) :
  glob_sync fs (remove_quotes path) = [] ->
  resolveGlobPath fs path = remove_quotes path
  /\ ~ In "034"%char (list_ascii_of_string (resolveGlobPath fs path))
  /\ resolveGlobPath fs (resolveGlobPath fs path) = resolveGlobPath fs path.
Proof.
  intros Hglob.
  assert (Hres : resolveGlobPath fs path = remove_quotes path).
  { unfold resolveGlobPath. cbn [truthy_string].
    destruct (String.eqb_spec path EmptyString) as [->|_]; [reflexivity|].
    cbn [negb]. cbv zeta. now rewrite Hglob. }
  assert (Hidem : remove_quotes (remove_quotes path) = remove_quotes path).
  { unfold remove_quotes. rewrite list_ascii_of_string_of_list_ascii. f_equal.
    induction (list_ascii_of_string path) as [|c l IH]; [reflexivity|].
    cbn [filter]. destruct (negb (Ascii.eqb c "034")) eqn:Hc; [|assumption].
    cbn [filter]. now rewrite Hc, IH. }
  split; [assumption|]. split.
  - rewrite Hres. unfold remove_quotes.
    rewrite list_ascii_of_string_of_list_ascii. intros Hin.
    apply filter_In in Hin as [_ Hin]. discriminate.
  - rewrite Hres. unfold resolveGlobPath. cbn [truthy_string].
    destruct (String.eqb_spec (remove_quotes path) EmptyString) as [->|_];
      [reflexivity|].
    cbn [negb]. cbv zeta. now rewrite Hidem, Hglob.
Qed.

Lemma resolveGlobPath_unmatched_witness :
  resolveGlobPath (sample_files [] [])
    (String "034" ("/data/my app.apk" ++ String "034" EmptyString))
  = "/data/my app.apk"%string.
Proof.
  apply (proj1 (@resolveGlobPath_unmatched (sample_files [] [])
                  (String "034" ("/data/my app.apk" ++ String "034" EmptyString))
                  eq_refl)).
Defined.

(** ** The monad of traces *)

Section EffLaws.

Variables E X : Type.

Lemma eff_bind_ret {A B} (a : A) (k : A -> Eff.T E X B) :
  Eff.bind (Eff.ret a) k = k a.
Proof. unfold Eff.bind, Eff.ret. now destruct (k a). Qed.

Lemma eff_bind_nil {A B} (a : A) (k : A -> Eff.T E X B) :
  Eff.bind ([], inr a) k = k a.
Proof. apply eff_bind_ret. Qed.

Lemma eff_bind_assoc {A B C} (m : Eff.T E X A) (k : A -> Eff.T E X B)
    (h : B -> Eff.T E X C) :
  Eff.bind (Eff.bind m k) h = Eff.bind m (fun a => Eff.bind (k a) h).
Proof.
  destruct m as [tr [x|a]]; [reflexivity|]. unfold Eff.bind.
  destruct (k a) as [tr' [x|b]]; [reflexivity|].
  destruct (h b) as [tr'' r]. now rewrite app_assoc.
Qed.

Lemma eff_trace_bind {A B} (m : Eff.T E X A) (k : A -> Eff.T E X B) :
  fst (Eff.bind m k)
  = fst m ++ match snd m with
             | inr a => fst (k a)
             | inl _ => []
             end.
Proof.
  destruct m as [tr [x|a]]; simpl; [now rewrite app_nil_r|].
  now destruct (k a).
Qed.

Lemma eff_value_bind {A B} (m : Eff.T E X A) (k : A -> Eff.T E X B) :
  snd (Eff.bind m k)
  = match snd m with
    | inr a => snd (k a)
    | inl x => inl x
    end.
Proof.
  destruct m as [tr [x|a]]; simpl; [reflexivity|]. now destruct (k a).
Qed.

Lemma eff_value_bind_ret {A B} (m : Eff.T E X A) (b : B) (tr : list E)
    (r : X + B) :
  Eff.bind m (fun _ => Eff.ret b) = (tr, r) <->
  tr = fst m /\ snd (Eff.bind m (fun _ => Eff.ret b)) = r.
Proof.
  destruct m as [tr' [x|a]]; cbn [Eff.bind Eff.ret fst snd];
    rewrite ?app_nil_r; split.
  - now intros [= <- <-].
  - now intros [-> <-].
  - now intros [= <- <-].
  - now intros [-> <-].
Qed.

Lemma eff_bind_ext {A B} (m : Eff.T E X A) (k k' : A -> Eff.T E X B) :
  (forall a, k a = k' a) -> Eff.bind m k = Eff.bind m k'.
Proof.
  intros Hk. destruct m as [tr [x|a]]; [reflexivity|]. unfold Eff.bind.
  now rewrite Hk.
Qed.

Lemma eff_for_of_app {A S} (l1 l2 : list A) (body : A -> S -> Eff.T E X S) (s : S) :
  Eff.for_of (l1 ++ l2) body s
  = Eff.bind (Eff.for_of l1 body s) (Eff.for_of l2 body).
Proof.
  revert s; induction l1 as [|x l1 IH]; intros s; cbn [app Eff.for_of].
  - now rewrite eff_bind_ret.
  - rewrite eff_bind_assoc. apply eff_bind_ext. intros s'. apply IH.
Qed.

End EffLaws.

(** ** The object of APK paths *)

Lemma insert_index_perm (n : Z) (k : string) (l : list (Z * string)) :
  Permutation (map snd (insert_index n k l)) (k :: map snd l).
Proof.
  induction l as [|[m k'] l IH]; cbn [insert_index map snd]; [reflexivity|].
  destruct (n <? m); cbn [map snd]; [reflexivity|].
  rewrite IH. apply perm_swap.
Qed.

Lemma filter_split_perm (p : string -> bool) (l : list string) :
  Permutation (filter p l ++ filter (fun k => negb (p k)) l) l.
Proof.
  induction l as [|x l IH]; cbn [filter]; [reflexivity|].
  destruct (p x); cbn [negb app].
  - now apply perm_skip.
  - rewrite <- Permutation_middle. now apply perm_skip.
Qed.

Lemma index_keys_perm (o : list string) (acc : list (Z * string)) :
  Permutation
    (map snd
       (fold_left
          (fun acc k =>
             match array_index k with
             | Some n => insert_index n k acc
             | None => acc
             end) o acc))
    (map snd acc ++ filter is_index_key o).
Proof.
  revert acc; induction o as [|k o IH]; intros acc; cbn [fold_left filter].
  - now rewrite app_nil_r.
  - rewrite IH. unfold is_index_key at 2.
    destruct (array_index k) as [n|]; [|reflexivity].
    rewrite insert_index_perm. cbn [app]. apply Permutation_middle.
Qed.

(** [Object.keys] lists every own key once. *)
Lemma Object_keys_perm (o : list string) : Permutation (Object_keys o) o.
Proof.
  unfold Object_keys. rewrite index_keys_perm. cbn [map app].
  apply filter_split_perm.
Qed.

(** Without a key that is an array index, [Object.keys] follows the order
    of creation. *)
Lemma Object_keys_plain (o : list string) :
  (forall k, In k o -> is_index_key k = false) -> Object_keys o = o.
Proof.
  intros Hplain. unfold Object_keys.
  assert (Hfold : forall acc,
            fold_left
              (fun acc k =>
                 match array_index k with
                 | Some n => insert_index n k acc
                 | None => acc
                 end) o acc = acc).
  { induction o as [|k o IH]; intros acc; cbn [fold_left]; [reflexivity|].
    assert (Hk := Hplain k (or_introl eq_refl)). unfold is_index_key in Hk.
    destruct (array_index k); [discriminate|].
    apply IH. intros k' Hk'. apply Hplain. now right. }
  rewrite Hfold. cbn [map app]. apply filter_all_strings.
  intros k Hk. now rewrite (Hplain k Hk).
Qed.

Lemma existsb_eqb_In (k : string) (o : list string) :
  existsb (String.eqb k) o = true <-> In k o.
Proof.
  rewrite existsb_exists. split.
  - intros (k' & Hin & Heq). apply String.eqb_eq in Heq. now subst.
  - intros Hin. exists k. split; [assumption|apply String.eqb_refl].
Qed.

Lemma obj_set_In (o : list string) (k' k : string) :
  In k (obj_set o k') <-> In k o \/ (k = k' /\ k' <> "__proto__"%string).
Proof.
  unfold obj_set. destruct (String.eqb_spec k' "__proto__") as [->|Hne].
  - tauto.
  - destruct (existsb (String.eqb k') o) eqn:Hex.
    + apply existsb_eqb_In in Hex. split; [tauto|].
      intros [H|[-> _]]; assumption.
    + rewrite in_app_iff. simpl. split.
      * intros [H|[<-|[]]]; tauto.
      * intros [H|[-> _]]; tauto.
Qed.

Lemma obj_set_NoDup (o : list string) (k : string) :
  NoDup o -> NoDup (obj_set o k).
Proof.
  intros Ho. unfold obj_set. destruct (String.eqb k "__proto__"); [assumption|].
  destruct (existsb (String.eqb k) o) eqn:Hex; [assumption|].
  apply NoDup_app; [assumption|repeat constructor; simpl; tauto|].
  intros a Ha [<-|[]].
  apply existsb_eqb_In in Ha. congruence.
Qed.

Lemma obj_set_extends (o : list string) (k : string) :
  exists more, obj_set o k = o ++ more.
Proof.
  unfold obj_set. destruct (String.eqb k "__proto__");
    [exists []; now rewrite app_nil_r|].
  destruct (existsb (String.eqb k) o); [exists []; now rewrite app_nil_r|].
  now exists [k].
Qed.

Lemma obj_sets_In (paths o : list string) (k : string) :
  In k (fold_left obj_set paths o)
  <-> In k o \/ (In k paths /\ k <> "__proto__"%string).
Proof.
  revert o; induction paths as [|p paths IH]; intros o; cbn [fold_left].
  - simpl. tauto.
  - rewrite IH, obj_set_In. simpl. split.
    + intros [[H|[-> H]]|[H1 H2]]; tauto.
    + intros [H|[[<-|H1] H2]]; tauto.
Qed.

Lemma obj_sets_NoDup (paths o : list string) :
  NoDup o -> NoDup (fold_left obj_set paths o).
Proof.
  revert o; induction paths as [|p paths IH]; intros o Ho; cbn [fold_left];
    [assumption|].
  now apply IH, obj_set_NoDup.
Qed.

Lemma obj_sets_extends (paths o : list string) :
  exists more, fold_left obj_set paths o = o ++ more.
Proof.
  revert o; induction paths as [|p paths IH]; intros o; cbn [fold_left].
  - exists []. now rewrite app_nil_r.
  - destruct (obj_set_extends o p) as [m1 ->].
    destruct (IH (o ++ m1)) as [m2 ->]. exists (m1 ++ m2). now rewrite app_assoc.
Qed.

(** ** The list of APKs *)

Section ApkPaths.

Variables Number Note : Type.

(** The loop over the resolved paths, in closed form. *)
Lemma read_paths_loop (env : Env Number Note) (paths o : list string) :
  Eff.for_of paths
    (fun apkPath apkFileList =>
       let apkFileList := obj_set apkFileList apkPath in
       manifest <~ call_out (@EvReadManifest Number Note apkPath)
                     (readManifest env apkPath) ;;
       Eff.ret apkFileList) o
  = match first_unreadable (readManifest env) paths with
    | Some (tried, e) => (map (@EvReadManifest Number Note) tried, inl (Thrown e))
    | None =>
        (map (@EvReadManifest Number Note) paths, inr (fold_left obj_set paths o))
    end.
Proof.
  revert o; induction paths as [|p paths IH]; intros o;
    cbn [Eff.for_of first_unreadable]; [reflexivity|].
  cbv zeta. unfold call_out, Eff.emit.
  destruct (readManifest env p) as [e|m]; cbn [of_exn]; [reflexivity|].
  unfold Eff.bind at 2. cbn [Eff.ret app]. unfold Eff.bind. rewrite IH.
  destruct (first_unreadable (readManifest env) paths) as [[tried e]|];
    reflexivity.
Qed.

Lemma getAllApkPaths_closed (env : Env Number Note) (mainApkFile : string) :
  getAllApkPaths env mainApkFile
  = match first_unreadable (readManifest env)
            (additional_paths (files env) (delimitedInput env "additionalApks")) with
    | Some (tried, e) => (map (@EvReadManifest Number Note) tried, inl (Thrown e))
    | None =>
        (map (@EvReadManifest Number Note)
           (additional_paths (files env) (delimitedInput env "additionalApks")),
         inr (Object_keys
                (fold_left obj_set
                   (additional_paths (files env) (delimitedInput env "additionalApks"))
                   (obj_set [] mainApkFile))))
    end.
Proof.
  unfold getAllApkPaths, additional_paths.
  assert (Hnest : forall patterns o,
            Eff.for_of patterns
              (fun additionalApk apkFileList =>
                 Eff.for_of (resolveGlobPaths (files env) additionalApk)
                   (fun apkPath apkFileList =>
                      let apkFileList := obj_set apkFileList apkPath in
                      manifest <~ call_out (@EvReadManifest Number Note apkPath)
                                    (readManifest env apkPath) ;;
                      Eff.ret apkFileList) apkFileList) o
            = Eff.for_of (flat_map (resolveGlobPaths (files env)) patterns)
                (fun apkPath apkFileList =>
                   let apkFileList := obj_set apkFileList apkPath in
                   manifest <~ call_out (@EvReadManifest Number Note apkPath)
                                 (readManifest env apkPath) ;;
                   Eff.ret apkFileList) o).
  { induction patterns as [|a patterns IH]; intros o;
      cbn [Eff.for_of flat_map]; [reflexivity|].
    rewrite eff_for_of_app. apply eff_bind_ext. intros o'. apply IH. }
  rewrite Hnest, read_paths_loop.
  destruct (first_unreadable _ _) as [[tried e]|]; [reflexivity|].
  unfold Eff.bind, Eff.ret. now rewrite app_nil_r.
Qed.

(** X16.  The list returned by [getAllApkPaths] holds no path twice, and
    its members are exactly the main APK and the paths that the additional
    patterns resolve to, the name [__proto__] excepted. *)
Theorem getAllApkPaths_unique (env : Env Number Note) (mainApkFile : string)
    (tr : list (event Number Note)) (apkFileList : list string) :
  getAllApkPaths env mainApkFile = (tr, inr apkFileList) ->
  NoDup apkFileList
  /\ forall k,
       In k apkFileList
       <-> (k = mainApkFile
            \/ In k (additional_paths (files env)
                       (delimitedInput env "additionalApks")))
           /\ k <> "__proto__"%string.
Proof.
  rewrite getAllApkPaths_closed.
  destruct (first_unreadable _ _) as [[tried e]|]; [discriminate|].
  intros [= _ <-]. split.
  - eapply Permutation_NoDup; [symmetry; apply Object_keys_perm|].
    apply obj_sets_NoDup, obj_set_NoDup. constructor.
  - intros k. split.
    + intros Hk. apply (Permutation_in k (Object_keys_perm _)) in Hk.
      apply obj_sets_In in Hk. rewrite obj_set_In in Hk. simpl in Hk.
      destruct Hk as [[[]|[-> Hne]]|[Hk Hne]]; tauto.
    + intros [Hk Hne].
      apply (Permutation_in k (Permutation_sym (Object_keys_perm _))).
      apply obj_sets_In. rewrite obj_set_In. simpl.
      destruct Hk as [->|Hk]; tauto.
Qed.


(** X18.  When neither the main APK nor any resolved path is named like an
    array index, and the main APK is not named [__proto__], the list
    returned by [getAllApkPaths] starts with the main APK. *)
Theorem getAllApkPaths_main_first (env : Env Number Note) (mainApkFile : string)
    (tr : list (event Number Note)) (apkFileList : list string) :
  getAllApkPaths env mainApkFile = (tr, inr apkFileList) ->
  mainApkFile <> "__proto__"%string ->
  is_index_key mainApkFile = false ->
  (forall p,
     In p (additional_paths (files env) (delimitedInput env "additionalApks")) ->
     is_index_key p = false) ->
  exists others, apkFileList = mainApkFile :: others.
Proof.
  rewrite getAllApkPaths_closed.
  destruct (first_unreadable _ _) as [[tried e]|]; [discriminate|].
  intros [= _ <-] Hproto Hmain Hplain.
  rewrite Object_keys_plain.
  - assert (Hset : obj_set [] mainApkFile = [mainApkFile]).
    { unfold obj_set. destruct (String.eqb_spec mainApkFile "__proto__");
        [contradiction|reflexivity]. }
    rewrite Hset. destruct (obj_sets_extends
                              (additional_paths (files env)
                                 (delimitedInput env "additionalApks"))
                              [mainApkFile]) as [more ->].
    now exists more.
  - intros k Hk. apply obj_sets_In in Hk. rewrite obj_set_In in Hk. simpl in Hk.
    destruct Hk as [[[]|[-> _]]|[Hk _]]; auto.
Qed.

Lemma first_unreadable_None (read : string -> exn + Manifest)
    (paths : list string) :
  first_unreadable read paths = None ->
  forall p, In p paths -> exists m, read p = inr m.
Proof.
  induction paths as [|q paths IH]; intros Hnone p Hp; [destruct Hp|].
  cbn [first_unreadable] in Hnone.
  destruct (read q) as [e|m] eqn:Hq; [discriminate|].
  destruct (first_unreadable read paths) as [[tried e]|]; [discriminate|].
  destruct Hp as [<-|Hp]; [now exists m|now apply IH].
Qed.

(** X15.  With the working directory set, an additional APK pattern that
    is not empty and matches no file is not skipped: the pattern itself,
    resolved against the working directory, is taken as the path of an
    APK.  So [getAllApkPaths] throws when no manifest can be read at that
    path, and when it returns, that manifest was read and the path is in
    the list. *)
Theorem unmatched_pattern_is_taken_as_path (env : Env Number Note)
    (mainApkFile dir pattern : string) :
  tl_getVariable (files env) "System.DefaultWorkingDirectory" = Some dir ->
  pattern <> EmptyString ->
  In pattern (delimitedInput env "additionalApks") ->
  glob_sync (files env) (tl_resolve (files env) (Some dir) pattern) = [] ->
  (forall e,
     readManifest env (tl_resolve (files env) (Some dir) pattern) = inl e ->
     exists e', snd (getAllApkPaths env mainApkFile) = inl (Thrown e'))
  /\ (forall apkFileList,
        snd (getAllApkPaths env mainApkFile) = inr apkFileList ->
        In (EvReadManifest (tl_resolve (files env) (Some dir) pattern))
           (fst (getAllApkPaths env mainApkFile))
        /\ (tl_resolve (files env) (Some dir) pattern <> "__proto__"%string ->
            In (tl_resolve (files env) (Some dir) pattern) apkFileList)).
Proof.
  intros Hdir Hne Hpattern Hglob.
  assert (Hpath : In (tl_resolve (files env) (Some dir) pattern)
                    (additional_paths (files env)
                       (delimitedInput env "additionalApks"))).
  { unfold additional_paths. apply in_flat_map. exists pattern.
    split; [assumption|]. unfold resolveGlobPaths. cbn [truthy_string].
    destruct (String.eqb_spec pattern EmptyString) as [->|_]; [congruence|].
    cbn [negb]. cbv zeta. rewrite Hdir, Hglob. now left. }
  rewrite getAllApkPaths_closed.
  destruct (first_unreadable _ _) as [[tried e]|] eqn:Hfirst; cbn [fst snd].
  - split; [intros _ _; now exists e|discriminate].
  - split.
    + intros e He.
      destruct (first_unreadable_None _ _ Hfirst _ Hpath) as [m Hm]. congruence.
    + intros apkFileList [= <-]. split; [now apply in_map|]. intros Hproto.
      apply (Permutation_in _ (Permutation_sym (Object_keys_perm _))).
      apply obj_sets_In. right. now split.
Qed.

End ApkPaths.

(** A file system in which the pattern extra resolves to two APKs, one of
    them twice. *)
Lemma getAllApkPaths_unique_witness :
  getAllApkPaths
    (sample_env [] [] [("additionalApks", ["b.apk"; "a.apk"; "b.apk"])]%string
       (sample_files [] []) [] [] [])
    "a.apk"
  = (map (@EvReadManifest unit string)
       ["/work/b.apk"; "/work/a.apk"; "/work/b.apk"]%string,
     inr ["a.apk"; "/work/b.apk"; "/work/a.apk"]%string)
  /\ NoDup ["a.apk"; "/work/b.apk"; "/work/a.apk"]%string.
Proof.
  split; [reflexivity|].
  apply (@getAllApkPaths_unique unit string
           (sample_env [] [] [("additionalApks", ["b.apk"; "a.apk"; "b.apk"])]%string
              (sample_files [] []) [] [] [])
           "a.apk"
           (map (@EvReadManifest unit string)
              ["/work/b.apk"; "/work/a.apk"; "/work/b.apk"]%string)
           ["a.apk"; "/work/b.apk"; "/work/a.apk"]%string eq_refl).
Defined.


Lemma getAllApkPaths_main_first_witness :
  exists others,
    ["/data/build/app.apk"; "/work/b.apk"]%string
    = "/data/build/app.apk"%string :: others.
Proof.
  apply (@getAllApkPaths_main_first unit string
           (sample_env [] [] [("additionalApks", ["b.apk"])]%string
              (sample_files [] []) [] [] [])
           "/data/build/app.apk"
           (map (@EvReadManifest unit string) ["/work/b.apk"]%string)
           ["/data/build/app.apk"; "/work/b.apk"]%string).
  - reflexivity.
  - discriminate.
  - reflexivity.
  - intros p [<-|[]]. reflexivity.
Defined.

(** A main APK named like an array index goes after no one, but a resolved
    path named like one would come first. *)
Example Object_keys_puts_indices_first :
  Object_keys (fold_left obj_set ["b.apk"; "10"; "9"; "__proto__"; "b.apk"]%string
                 (obj_set [] "a.apk"))
  = ["9"; "10"; "a.apk"; "b.apk"]%string.
Proof. reflexivity. Qed.

(** The pattern extra/*.apk matches nothing and no APK is at the path it
    resolves to. *)
Lemma unmatched_pattern_is_taken_as_path_witness :
  exists e,
    snd (getAllApkPaths
           (sample_env [] [] [("additionalApks", ["extra/*.apk"])]%string
              (sample_files [] []) ["/work/extra/*.apk"%string] [] [])
           "/data/build/app.apk")
    = inl (Thrown e).
Proof.
  apply (proj1 (@unmatched_pattern_is_taken_as_path unit string
                  (sample_env [] [] [("additionalApks", ["extra/*.apk"])]%string
                     (sample_files [] []) ["/work/extra/*.apk"%string] [] [])
                  "/data/build/app.apk" "/work" "extra/*.apk"
                  eq_refl ltac:(discriminate) (or_introl eq_refl) eq_refl)
           (External "not an APK")).
  reflexivity.
Defined.

(** ** The upload of the APKs *)

Section Upload.

Variables Number Note : Type.

Lemma upload_loop (env : Env Number Note) (packageName mainApkFile : string)
    (apkFileList : list string) :
  forall (acc : list Z) (tr : list (event Number Note)) (codes : list Z),
    Eff.for_of apkFileList
      (fun apkFile apkVersionCodes =>
         apk <~ call_out (@EvAddApk Number Note packageName apkFile)
                  (addApk env packageName apkFile) ;;
         _ <~ (if shouldPickObbForApk apkFile mainApkFile
                    (boolInput env "shouldPickObbFile")
                    (boolInput env "shouldPickObbFileForAdditonalApks")
               then
                 found <~ step (getObbFile (files env) apkFile packageName apk) ;;
                 if not_null found then
                   obbFile <~ step (getObbFile (files env) apkFile packageName apk) ;;
                   call_out (@EvAddObb Number Note packageName obbFile apk)
                     (addObb env packageName obbFile apk)
                 else Eff.ret tt
               else Eff.ret tt) ;;
         Eff.ret (push apkVersionCodes apk))
      acc
    = (tr, inr codes) ->
    exists cs,
      codes = acc ++ cs
      /\ Forall2 (uploaded env packageName mainApkFile) apkFileList cs
      /\ tr = flat_map
                (fun fc => apk_calls env packageName mainApkFile (fst fc) (snd fc))
                (combine apkFileList cs).
Proof.
  induction apkFileList as [|f l IH]; intros acc tr codes H; cbn [Eff.for_of] in H.
  - injection H as <- <-. exists []. rewrite app_nil_r. repeat split. constructor.
  - unfold call_out, Eff.emit, step, Eff.lift in H.
    destruct (addApk env packageName f) as [e|c] eqn:Hadd; [discriminate|].
    cbn [of_exn] in H. rewrite eff_bind_assoc in H.
    unfold Eff.bind at 1 in H.
    match type of H with
    | (let (_, _) := ?m in _) = _ => destruct m as [tr1 r1] eqn:Hrest
    end.
    injection H as <- ->.
    assert (Hcalls : exists tr2,
              uploaded env packageName mainApkFile f c
              /\ tr1 = tl (apk_calls env packageName mainApkFile f c) ++ tr2
              /\ Eff.for_of l
                   (fun apkFile apkVersionCodes =>
                      apk <~ call_out (@EvAddApk Number Note packageName apkFile)
                               (addApk env packageName apkFile) ;;
                      _ <~ (if shouldPickObbForApk apkFile mainApkFile
                                 (boolInput env "shouldPickObbFile")
                                 (boolInput env "shouldPickObbFileForAdditonalApks")
                            then
                              found <~ step (getObbFile (files env) apkFile
                                               packageName apk) ;;
                              if not_null found then
                                obbFile <~ step (getObbFile (files env) apkFile
                                                   packageName apk) ;;
                                call_out (@EvAddObb Number Note packageName obbFile apk)
                                  (addObb env packageName obbFile apk)
                              else Eff.ret tt
                            else Eff.ret tt) ;;
                      Eff.ret (push apkVersionCodes apk))
                   (push acc c)
                 = (tr2, inr codes)).
    { unfold apk_calls, uploaded. cbn [tl]. rewrite eff_bind_assoc in Hrest.
      destruct (shouldPickObbForApk f mainApkFile _ _).
      - unfold step, Eff.lift in Hrest.
        destruct (getObbFile (files env) f packageName c) as [e|found] eqn:Hobb;
          [discriminate|].
        cbn [of_exn] in Hrest.
        rewrite eff_bind_assoc, eff_bind_nil in Hrest.
        rewrite (getObbFile_not_null _ _ _ _ Hobb) in Hrest.
        rewrite eff_bind_assoc, eff_bind_nil in Hrest.
        unfold call_out, Eff.emit in Hrest.
        destruct (addObb env packageName found c) as [e|[]] eqn:Hsent;
          [discriminate|].
        cbn [of_exn] in Hrest. unfold Eff.bind at 1 in Hrest.
        rewrite eff_bind_ret in Hrest.
        match type of Hrest with
        | (let (_, _) := ?m in _) = _ => destruct m as [tr2 r2] eqn:Hloop
        end.
        injection Hrest as <- <-. exists tr2.
        split; [|now split]. split; [assumption|]. intros _. now exists found.
      - rewrite !eff_bind_ret in Hrest. exists tr1.
        split; [|now split]. split; [assumption|]. discriminate. }
    destruct Hcalls as (tr2 & Hf & -> & Hloop).
    apply IH in Hloop as (cs & -> & Hall & ->).
    exists (c :: cs). unfold push. rewrite <- app_assoc.
    split; [reflexivity|]. split; [now constructor|].
    cbn [combine flat_map fst snd]. unfold apk_calls at 1 3.
    cbn [tl app]. reflexivity.
Qed.

(** A run of [run_uploadApks] that returns, in closed form. *)
Lemma run_uploadApks_success (env : Env Number Note) (packageName mainApkFile : string)
    (apkFileList : list string) (tr : list (event Number Note)) (codes : list Z) :
  run_uploadApks env packageName mainApkFile apkFileList = (tr, inr codes) ->
  Forall2 (uploaded env packageName mainApkFile) apkFileList codes
  /\ tr = flat_map
            (fun fc => apk_calls env packageName mainApkFile (fst fc) (snd fc))
            (combine apkFileList codes)
          ++ mapping_calls env packageName codes.
Proof.
  unfold run_uploadApks. cbv zeta. intros H.
  match type of H with
  | Eff.bind ?m _ = _ => destruct m as [tr1 [e|cs]] eqn:Hloop
  end; [discriminate|].
  apply upload_loop in Hloop as (cs' & Hcs & Hall & ->). cbn [app] in Hcs. subst cs'.
  unfold Eff.bind at 1 in H.
  match type of H with
  | (let (_, _) := ?m in _) = _ => destruct m as [tr2 r2] eqn:Hmap
  end.
  injection H as <- ->. rewrite eff_value_bind_ret in Hmap.
  destruct Hmap as [Htr Hval]. subst tr2.
  assert (Hcodes : cs = codes).
  { unfold Eff.bind in Hval.
    match type of Hval with
    | context [match ?m with _ => _ end] => destruct m as [tr3 [e|[]]]
    end; cbn [snd Eff.ret] in Hval; congruence. }
  subst cs. split; [assumption|]. f_equal.
  unfold mapping_calls. destruct codes as [|first rest]; [reflexivity|].
  destruct (boolInput env "shouldUploadMappingFile"); [|reflexivity].
  unfold step, Eff.lift, call_out, Eff.emit in *.
  destruct (optionalPathInput env "mappingFilePath") as [e|pattern];
    [discriminate|].
  cbn [of_exn] in *. rewrite eff_bind_nil in *.
  destruct (checkPath env _ "mappingFilePath") as [e|[]]; [discriminate|].
  cbn [of_exn] in *. rewrite eff_bind_nil in *. reflexivity.
Qed.

Lemma apk_calls_In (env : Env Number Note) (packageName mainApkFile : string)
    (l : list (string * Z)) (ev : event Number Note) :
  In ev (flat_map
           (fun fc => apk_calls env packageName mainApkFile (fst fc) (snd fc)) l)
  <-> exists f c, In (f, c) l /\ In ev (apk_calls env packageName mainApkFile f c).
Proof.
  rewrite in_flat_map. split.
  - intros ([f c] & Hin & Hev). now exists f, c.
  - intros (f & c & Hin & Hev). now exists (f, c).
Qed.

(** X19.  When the upload of the APKs returns, every APK of the list was
    sent to the store exactly once, in the order of the list, and the
    version codes returned are the store's answers in that order. *)
Theorem uploadApks_codes (env : Env Number Note) (packageName mainApkFile : string)
    (apkFileList : list string) (tr : list (event Number Note)) (codes : list Z) :
  run_uploadApks env packageName mainApkFile apkFileList = (tr, inr codes) ->
  Forall2 (fun f c => addApk env packageName f = inr c) apkFileList codes
  /\ filter (fun ev => match ev with EvAddApk _ _ => true | _ => false end) tr
     = map (EvAddApk packageName) apkFileList.
Proof.
  intros H. apply run_uploadApks_success in H as [Hall ->].
  split; [eapply Forall2_impl; [|exact Hall]; now intros f c [Hf _]|].
  rewrite filter_app.
  assert (Hmap : filter (fun ev : event Number Note =>
                           match ev with EvAddApk _ _ => true | _ => false end)
                   (mapping_calls env packageName codes) = []).
  { unfold mapping_calls. destruct codes; [reflexivity|].
    destruct (boolInput env "shouldUploadMappingFile"); [|reflexivity].
    now destruct (optionalPathInput env "mappingFilePath"). }
  rewrite Hmap, app_nil_r. clear Hmap.
  induction Hall as [|f c l cs Hf Hall IH]; [reflexivity|].
  cbn [combine flat_map fst snd map]. rewrite filter_app, IH. f_equal.
  unfold apk_calls. cbn [filter app].
  destruct (shouldPickObbForApk f mainApkFile _ _); [|reflexivity].
  now destruct (getObbFile (files env) f packageName c).
Qed.

(** X20.  When the upload of the APKs returns, the expansion file of every
    APK for which one is asked was sent, with whatever [getObbFile] returned
    for it: also [undefined], when no expansion file was found.  No
    expansion file is sent for the other APKs. *)
Theorem uploadApks_obb (env : Env Number Note) (packageName mainApkFile : string)
    (apkFileList : list string) (tr : list (event Number Note)) (codes : list Z) :
  run_uploadApks env packageName mainApkFile apkFileList = (tr, inr codes) ->
  (forall f c,
     In (f, c) (combine apkFileList codes) ->
     shouldPickObbForApk f mainApkFile (boolInput env "shouldPickObbFile")
       (boolInput env "shouldPickObbFileForAdditonalApks") = true ->
     exists obbFile,
       getObbFile (files env) f packageName c = inr obbFile
       /\ In (EvAddObb packageName obbFile c) tr)
  /\ (forall pkg obbFile c,
        In (EvAddObb pkg obbFile c) tr ->
        exists f,
          In (f, c) (combine apkFileList codes)
          /\ shouldPickObbForApk f mainApkFile (boolInput env "shouldPickObbFile")
               (boolInput env "shouldPickObbFileForAdditonalApks") = true
          /\ getObbFile (files env) f packageName c = inr obbFile).
Proof.
  intros H. apply run_uploadApks_success in H as [Hall ->]. split.
  - intros f c Hin Hpick.
    assert (Hup : uploaded env packageName mainApkFile f c).
    { clear Hpick. induction Hall as [|f' c' l cs Hf Hall IH]; [destruct Hin|].
      destruct Hin as [[= -> ->]|Hin]; [assumption|now apply IH]. }
    destruct Hup as [_ Hobb]. destruct (Hobb Hpick) as (obbFile & Hfound & _).
    exists obbFile. split; [assumption|]. apply in_or_app. left.
    apply apk_calls_In. exists f, c. split; [assumption|].
    unfold apk_calls. rewrite Hpick, Hfound. right. now left.
  - intros pkg obbFile c Hin. apply in_app_or in Hin as [Hin|Hin].
    + apply apk_calls_In in Hin as (f & c' & Hfc & Hev).
      unfold apk_calls in Hev. destruct Hev as [Hev|Hev]; [discriminate|].
      destruct (shouldPickObbForApk f mainApkFile _ _) eqn:Hpick; [|destruct Hev].
      destruct (getObbFile (files env) f packageName c') as [e|o] eqn:Hobb;
        [destruct Hev|].
      destruct Hev as [[= <- <- <-]|[]]. now exists f.
    + unfold mapping_calls in Hin. destruct codes; [destruct Hin|].
      destruct (boolInput env "shouldUploadMappingFile"); [|destruct Hin].
      destruct (optionalPathInput env "mappingFilePath"); [destruct Hin|].
      destruct Hin as [Hin|[]]. discriminate.
Qed.

(** X21.  The mapping file is uploaded at most once, after all the APKs,
    only when it is asked for and at least one APK was uploaded, and always
    for the version code of the first APK of the list. *)
Theorem uploadApks_mapping_file (env : Env Number Note)
    (packageName mainApkFile : string) (apkFileList : list string)
    (tr : list (event Number Note)) (codes : list Z) :
  run_uploadApks env packageName mainApkFile apkFileList = (tr, inr codes) ->
  filter (fun ev => match ev with
                    | EvUploadDeobfuscation _ _ _ => true
                    | _ => false
                    end) tr
  = mapping_calls env packageName codes
  /\ (forall path pkg c,
        In (EvUploadDeobfuscation path pkg c) tr ->
        boolInput env "shouldUploadMappingFile" = true
        /\ pkg = packageName
        /\ exists f rest others,
             apkFileList = f :: rest /\ codes = c :: others
             /\ addApk env packageName f = inr c)
  /\ exists before,
       tr = before ++ mapping_calls env packageName codes
       /\ Forall (fun ev => match ev with
                            | EvUploadDeobfuscation _ _ _ => False
                            | _ => True
                            end) before.
Proof.
  intros H. apply run_uploadApks_success in H as [Hall ->].
  assert (Hapk : filter (fun ev : event Number Note =>
                           match ev with
                           | EvUploadDeobfuscation _ _ _ => true
                           | _ => false
                           end)
                   (flat_map
                      (fun fc => apk_calls env packageName mainApkFile (fst fc) (snd fc))
                      (combine apkFileList codes)) = []).
  { clear Hall. generalize codes. induction apkFileList as [|f l IH];
      intros cs; [reflexivity|].
    destruct cs as [|c cs]; [reflexivity|].
    cbn [combine flat_map fst snd]. rewrite filter_app, IH, app_nil_r.
    unfold apk_calls. cbn [filter].
    destruct (shouldPickObbForApk f mainApkFile _ _); [|reflexivity].
    now destruct (getObbFile (files env) f packageName c). }
  assert (Hmap : filter (fun ev : event Number Note =>
                           match ev with
                           | EvUploadDeobfuscation _ _ _ => true
                           | _ => false
                           end) (mapping_calls env packageName codes)
                 = mapping_calls env packageName codes).
  { unfold mapping_calls. destruct codes; [reflexivity|].
    destruct (boolInput env "shouldUploadMappingFile"); [|reflexivity].
    now destruct (optionalPathInput env "mappingFilePath"). }
  split; [now rewrite filter_app, Hapk, Hmap|].
  split.
  2:{ eexists; split; [reflexivity|]. apply Forall_forall. intros ev Hev.
      destruct ev; try exact I.
      assert (Habs : In (EvUploadDeobfuscation mappingFilePath packageName0
                           apkVersionCode)
                       (filter (fun ev : event Number Note =>
                                  match ev with
                                  | EvUploadDeobfuscation _ _ _ => true
                                  | _ => false
                                  end)
                          (flat_map
                             (fun fc => apk_calls env packageName mainApkFile
                                          (fst fc) (snd fc))
                             (combine apkFileList codes))))
        by (apply filter_In; now split).
      rewrite Hapk in Habs. destruct Habs. }
  intros path pkg c Hin.
  assert (Hin' : In (EvUploadDeobfuscation path pkg c)
                   (mapping_calls env packageName codes)).
  { rewrite <- Hmap, <- (app_nil_l (filter _ (mapping_calls _ _ _))), <- Hapk,
      <- filter_app. apply filter_In. now split. }
  unfold mapping_calls in Hin'. destruct Hall as [|f c' l cs [Hf _] Hall];
    [destruct Hin'|].
  destruct (boolInput env "shouldUploadMappingFile"); [|destruct Hin'].
  destruct (optionalPathInput env "mappingFilePath"); [destruct Hin'|].
  destruct Hin' as [[= _ <- <-]|[]].
  split; [reflexivity|]. split; [reflexivity|]. now exists f, l, cs.
Qed.

End Upload.

Lemma uploadApks_codes_witness :
  run_uploadApks
    (sample_env [] ["shouldPickObbFile"]%string [] (sample_files [] []) [] [] [])
    "com.example" "/data/build/app.apk" ["/data/build/app.apk"; "/work/b.apk"]%string
  = ([EvAddApk "com.example" "/data/build/app.apk";
      EvAddObb "com.example" PUndefined 19;
      EvAddApk "com.example" "/work/b.apk"], inr [19; 11])
  /\ Forall2
       (fun f c =>
          addApk (sample_env [] ["shouldPickObbFile"]%string [] (sample_files [] [])
                    [] [] [])
            "com.example" f = inr c)
       ["/data/build/app.apk"; "/work/b.apk"]%string [19; 11].
Proof.
  split; [reflexivity|].
  apply (proj1 (@uploadApks_codes unit string
                  (sample_env [] ["shouldPickObbFile"]%string [] (sample_files [] [])
                     [] [] [])
                  "com.example" "/data/build/app.apk"
                  ["/data/build/app.apk"; "/work/b.apk"]%string _ [19; 11] eq_refl)).
Defined.

Lemma uploadApks_obb_witness :
  exists obbFile,
    getObbFile (sample_files [] []) "/data/build/app.apk" "com.example" 19
    = inr obbFile
    /\ In (@EvAddObb unit string "com.example" obbFile 19)
         [EvAddApk "com.example" "/data/build/app.apk";
          EvAddObb "com.example" PUndefined 19;
          EvAddApk "com.example" "/work/b.apk"].
Proof.
  apply (proj1 (@uploadApks_obb unit string
                  (sample_env [] ["shouldPickObbFile"]%string [] (sample_files [] [])
                     [] [] [])
                  "com.example" "/data/build/app.apk"
                  ["/data/build/app.apk"; "/work/b.apk"]%string _ [19; 11] eq_refl)
           "/data/build/app.apk"%string 19).
  - simpl. tauto.
  - reflexivity.
Defined.

Lemma uploadApks_mapping_file_witness :
  run_uploadApks
    (sample_env [("mappingFilePath", "mapping.txt")]%string
       ["shouldUploadMappingFile"]%string [] (sample_files [] []) [] [] [])
    "com.example" "/data/build/app.apk" ["/data/build/app.apk"; "/work/b.apk"]%string
  = ([EvAddApk "com.example" "/data/build/app.apk";
      EvAddApk "com.example" "/work/b.apk";
      EvUploadDeobfuscation (Some "mapping.txt"%string) "com.example" 19],
     inr [19; 11])
  /\ boolInput
       (sample_env [("mappingFilePath", "mapping.txt")]%string
          ["shouldUploadMappingFile"]%string [] (sample_files [] []) [] [] [])
       "shouldUploadMappingFile" = true.
Proof.
  split; [reflexivity|].
  apply (proj1 (proj2 (@uploadApks_mapping_file unit string
                  (sample_env [("mappingFilePath", "mapping.txt")]%string
                     ["shouldUploadMappingFile"]%string [] (sample_files [] [])
                     [] [] [])
                  "com.example" "/data/build/app.apk"
                  ["/data/build/app.apk"; "/work/b.apk"]%string _ [19; 11] eq_refl))
           (Some "mapping.txt"%string) "com.example"%string 19).
  simpl. tauto.
Defined.

(** ** The events of [run] *)

Section RunEvents.

Variables Number Note : Type.

Variable P : event Number Note -> Prop.

Lemma all_bind {A B} (m : R Number Note A) (k : A -> R Number Note B) :
  Forall P (fst m) ->
  (forall a, snd m = inr a -> Forall P (fst (k a))) ->
  Forall P (fst (Eff.bind m k)).
Proof.
  intros Hm Hk. rewrite eff_trace_bind. apply Forall_app. split; [assumption|].
  destruct (snd m) as [e|a]; [constructor|]. now apply Hk.
Qed.

Lemma all_for_of {A S} (l : list A) (body : A -> S -> R Number Note S) (s : S) :
  (forall x s, Forall P (fst (body x s))) ->
  Forall P (fst (Eff.for_of l body s)).
Proof.
  intros Hbody. revert s; induction l as [|x l IH]; intros s; cbn [Eff.for_of].
  - constructor.
  - apply all_bind; [apply Hbody|]. intros a _. apply IH.
Qed.

Lemma all_for_of_In {A S} (l : list A) (body : A -> S -> R Number Note S) (s : S) :
  (forall x s, In x l -> Forall P (fst (body x s))) ->
  Forall P (fst (Eff.for_of l body s)).
Proof.
  revert s; induction l as [|x l IH]; intros s Hbody; cbn [Eff.for_of].
  - constructor.
  - apply all_bind; [apply Hbody; now left|]. intros a _. apply IH.
    intros y s' Hy. apply Hbody. now right.
Qed.

Lemma all_step {A} (answer : exn + A) : Forall P (fst (step (Number := Number) (Note := Note) answer)).
Proof. constructor. Qed.

Lemma all_call_out {A} (ev : event Number Note) (answer : exn + A) :
  P ev -> Forall P (fst (call_out ev answer)).
Proof. intros Hev. repeat constructor. exact Hev. Qed.

Lemma all_required_input (env : Env Number Note) (name : string) :
  Forall P (fst (required_input env name)).
Proof.
  unfold required_input. destruct (input env name) as [v|]; [|constructor].
  destruct (truthy_string (Some v)); constructor.
Qed.

Lemma all_run_key (env : Env Number Note) : Forall P (fst (run_key env)).
Proof.
  unfold run_key. apply all_bind; [apply all_required_input|]. intros authType _.
  destruct (String.eqb authType "JsonFile").
  - apply all_bind; [apply all_step|]. intros file _.
    apply all_bind; [apply all_step|]. intros [[|]|] _;
      try apply all_step; constructor.
  - destruct (String.eqb authType "ServiceEndpoint"); [|constructor].
    apply all_bind; [apply all_required_input|]. intros endpoint _.
    apply all_bind; [apply all_step|]. intros [parameters|] _; [|constructor].
    destruct (parameters "password"%string); constructor.
Qed.

Lemma all_getAllApkPaths (env : Env Number Note) (mainApkFile : string) :
  (forall p, P (EvReadManifest p)) ->
  Forall P (fst (getAllApkPaths env mainApkFile)).
Proof.
  intros Hread. rewrite getAllApkPaths_closed.
  destruct (first_unreadable _ _) as [[tried e]|]; cbn [fst];
    apply Forall_forall; intros ev Hev; apply in_map_iff in Hev as (p & <- & _);
    apply Hread.
Qed.

Lemma all_run_readVersionCodes (env : Env Number Note) (apkFileList : list string) :
  (forall p, P (EvReadManifest p)) ->
  Forall P (fst (run_readVersionCodes env apkFileList)).
Proof.
  intros Hread. unfold run_readVersionCodes. apply all_for_of. intros f acc.
  apply all_bind; [now apply all_call_out|]. intros m _. constructor.
Qed.

Lemma all_run_uploadApks (env : Env Number Note) (packageName mainApkFile : string)
    (apkFileList : list string) :
  (forall ev, is_upload ev = true -> P ev) ->
  Forall P (fst (run_uploadApks env packageName mainApkFile apkFileList)).
Proof.
  intros Hup. unfold run_uploadApks. cbv zeta.
  apply all_bind.
  - apply all_for_of. intros f acc.
    apply all_bind; [now apply all_call_out, Hup|]. intros c _.
    apply all_bind; [|intros; constructor].
    destruct (shouldPickObbForApk f mainApkFile _ _); [|constructor].
    apply all_bind; [apply all_step|]. intros found _.
    destruct (not_null found); [|constructor].
    apply all_bind; [apply all_step|]. intros obbFile _.
    now apply all_call_out, Hup.
  - intros codes _. apply all_bind; [|intros; constructor].
    destruct codes as [|first rest]; [constructor|].
    destruct (boolInput env "shouldUploadMappingFile"); [|constructor].
    apply all_bind; [apply all_step|]. intros pattern _.
    apply all_bind; [apply all_step|]. intros _ _.
    now apply all_call_out, Hup.
Qed.

Lemma all_run_uploadApks_In (env : Env Number Note) (packageName mainApkFile : string)
    (apkFileList : list string) :
  (forall f, In f apkFileList -> P (EvAddApk packageName f)) ->
  (forall obbFile c, P (EvAddObb packageName obbFile c)) ->
  (forall file c, P (EvUploadDeobfuscation file packageName c)) ->
  Forall P (fst (run_uploadApks env packageName mainApkFile apkFileList)).
Proof.
  intros Hapk Hobb Hmap. unfold run_uploadApks. cbv zeta.
  apply all_bind.
  - apply all_for_of_In. intros f acc Hf.
    apply all_bind; [now apply all_call_out, Hapk|]. intros c _.
    apply all_bind; [|intros; constructor].
    destruct (shouldPickObbForApk f mainApkFile _ _); [|constructor].
    apply all_bind; [apply all_step|]. intros found _.
    destruct (not_null found); [|constructor].
    apply all_bind; [apply all_step|]. intros obbFile _.
    apply all_call_out, Hobb.
  - intros codes _. apply all_bind; [|intros; constructor].
    destruct codes as [|first rest]; [constructor|].
    destruct (boolInput env "shouldUploadMappingFile"); [|constructor].
    apply all_bind; [apply all_step|]. intros pattern _.
    apply all_bind; [apply all_step|]. intros _ _.
    apply all_call_out, Hmap.
Qed.

Lemma all_in_run_events {A} (m : M Number (RunNotes Note) A) :
  (forall c, In c (fst m) -> P (EvTrack c)) -> Forall P (fst (in_run m)).
Proof.
  intros Htrack. unfold in_run. cbn [fst]. apply Forall_forall.
  intros ev Hev. apply in_map_iff in Hev as (c & <- & Hc). now apply Htrack.
Qed.

Lemma all_in_run {A} (m : M Number (RunNotes Note) A) :
  (forall c, P (EvTrack c)) -> Forall P (fst (in_run m)).
Proof.
  intros Htrack. unfold in_run. cbn [fst]. apply Forall_forall.
  intros ev Hev. apply in_map_iff in Hev as (c & <- & _). apply Htrack.
Qed.

End RunEvents.

Section RunTheorems.

Variables Number Note : Type.
Context {runtime : RegExpRuntime}.

Ltac quiet :=
  repeat first
    [ apply all_step
    | apply all_required_input
    | apply all_run_key
    | apply all_getAllApkPaths; intros
    | apply all_run_readVersionCodes; intros
    | apply all_run_uploadApks; intros
    | apply all_in_run; intros
    | apply all_call_out
    | apply all_bind; [|intros ? ?]
    | match goal with
      | |- Forall _ (fst (if ?b then _ else _)) => destruct b eqn:?
      | |- Forall _ (fst (match ?x with _ => _ end)) => destruct x eqn:?
      | |- Forall _ (fst (Eff.ret _)) => constructor
      | |- Forall _ (fst (Eff.throw _)) => constructor
      end ].

(** What the values bound so far say. *)
Ltac values :=
  repeat match goal with
    | H : snd (Eff.ret _) = inr _ |- _ =>
        cbn [snd Eff.ret] in H; injection H as H; try subst
    | H : snd (Eff.bind ?m _) = inr _ |- _ =>
        rewrite eff_value_bind in H; destruct (snd m) eqn:?; [discriminate H|]
    | H : snd (match ?x with _ => _ end) = inr _ |- _ => destruct x eqn:?
    end.

(** Reading the inputs only reads manifests. *)
Lemma run_prepare_reads (env : Env Number Note) :
  Forall (fun ev => exists p, ev = EvReadManifest p) (fst (run_prepare env)).
Proof.
  unfold run_prepare. quiet. all: eauto.
Qed.

Lemma run_steps_before_commit (env : Env Number Note) :
  Forall (fun ev => is_commit ev = false /\ is_result ev = false)
    (fst (run_steps env)).
Proof.
  unfold run_steps. apply all_bind.
  { eapply Forall_impl; [|apply run_prepare_reads].
    intros ev [p ->]. split; reflexivity. }
  intros p _. unfold run_transaction. quiet.
  all: try (split; reflexivity).
  all: try match goal with
           | H : is_upload ?ev = true |- _ => destruct ev; try discriminate H
           end.
  all: try (split; reflexivity).
Qed.

Lemma run_trace (env : Env Number Note) :
  run env
  = (fst (run_steps env)
       ++ match snd (run_steps env) with
          | inl e => [EvSetResult (Failed e)]
          | inr _ =>
              [EvCommit;
               EvSetResult (match commit env with
                            | inr _ => Succeeded
                            | inl e => Failed (Thrown e)
                            end)]
          end,
     inr tt).
Proof.
  unfold run. destruct (run_steps env) as [tr [e|t]]; cbn [fst snd].
  - reflexivity.
  - unfold call_out, Eff.emit.
    destruct (commit env) as [e|[]]; cbn [of_exn Eff.bind Eff.try_catch app];
      rewrite <- ?app_assoc; reflexivity.
Qed.

(** X22.  [run] never throws and sets the result of the task exactly once,
    as its last action. *)
Theorem run_sets_result_once (env : Env Number Note) :
  snd (run env) = inr tt
  /\ exists before result,
       fst (run env) = before ++ [EvSetResult result]
       /\ Forall (fun ev => is_result ev = false) before.
Proof.
  rewrite run_trace. split; [reflexivity|]. cbn [fst].
  assert (Hsteps : Forall (fun ev : event Number Note => is_result ev = false)
                     (fst (run_steps env))).
  { eapply Forall_impl; [|apply run_steps_before_commit]. now intros ev [_ H]. }
  destruct (snd (run_steps env)) as [e|t].
  - now exists (fst (run_steps env)), (Failed e).
  - eexists (fst (run_steps env) ++ [EvCommit]), _. split.
    + rewrite <- app_assoc. reflexivity.
    + apply Forall_app. split; [assumption|]. now repeat constructor.
Qed.

(** X23.  The edit is committed at most once, after every other call, and
    only when all the steps before it went through; a step that throws ends
    the run without a commit.  The result of the task is [Succeeded]
    exactly when the commit was made and accepted. *)
Theorem run_commits_last (env : Env Number Note) :
  Forall (fun ev => is_commit ev = false) (fst (run_steps env))
  /\ (forall e,
        snd (run_steps env) = inl e ->
        fst (run env) = fst (run_steps env) ++ [EvSetResult (Failed e)])
  /\ (forall t,
        snd (run_steps env) = inr t ->
        fst (run env)
        = fst (run_steps env)
            ++ [EvCommit;
                EvSetResult (match commit env with
                             | inr _ => Succeeded
                             | inl e => Failed (Thrown e)
                             end)])
  /\ (In (EvSetResult Succeeded) (fst (run env))
      <-> (exists t, snd (run_steps env) = inr t) /\ exists u, commit env = inr u).
Proof.
  assert (Hsteps : Forall (fun ev : event Number Note =>
                             is_commit ev = false /\ is_result ev = false)
                     (fst (run_steps env))) by apply run_steps_before_commit.
  split; [eapply Forall_impl; [|exact Hsteps]; now intros ev [H _]|].
  rewrite run_trace. cbn [fst]. split; [now intros e ->|].
  split; [now intros t ->|].
  assert (Hnot : ~ In (EvSetResult Succeeded) (fst (run_steps env))).
  { intros Hin. rewrite Forall_forall in Hsteps.
    destruct (Hsteps _ Hin) as [_ Habs]. discriminate. }
  rewrite in_app_iff. destruct (snd (run_steps env)) as [e|t].
  - split.
    + intros [H|[H|[]]]; [contradiction|discriminate].
    + intros [[t Ht] _]. discriminate.
  - destruct (commit env) as [e|u]; split.
    + intros [H|[H|[H|[]]]]; [contradiction|discriminate|discriminate].
    + intros [_ [u Hu]]. discriminate.
    + intros _. split; eauto.
    + intros _. right. right. now left.
Qed.

Lemma run_steps_trace (env : Env Number Note) :
  fst (run_steps env)
  = fst (run_prepare env)
      ++ match snd (run_prepare env) with
         | inr p => fst (run_transaction env p)
         | inl _ => []
         end.
Proof. unfold run_steps. apply eff_trace_bind. Qed.

(** A property of the events of every transaction holds of every event of
    [run] that is not a read of a manifest, the commit or the result. *)
Lemma run_events (env : Env Number Note) (Q : event Number Note -> Prop) :
  (forall p, Q (EvReadManifest p)) ->
  Q EvCommit ->
  (forall r, Q (EvSetResult r)) ->
  (forall p, snd (run_prepare env) = inr p -> Forall Q (fst (run_transaction env p))) ->
  Forall Q (fst (run env)).
Proof.
  intros Hread Hcommit Hresult Htrans. rewrite run_trace. cbn [fst].
  apply Forall_app. split.
  - rewrite run_steps_trace. apply Forall_app. split.
    + eapply Forall_impl; [|apply run_prepare_reads]. intros ev [p ->]. apply Hread.
    + destruct (snd (run_prepare env)) as [e|p]; [constructor|now apply Htrans].
  - destruct (snd (run_steps env)); repeat constructor; auto.
Qed.

(** X24.  [run] sends an APK, an expansion file or a mapping file to the
    store only when the task is set to upload APKs and not to update the
    store listing. *)
Theorem uploads_only_when_asked (env : Env Number Note) (ev : event Number Note) :
  In ev (fst (run env)) ->
  is_upload ev = true ->
  boolInput env "updateStoreListing" = false
  /\ boolInput env "shouldUploadApks" = true.
Proof.
  intros Hin Hev.
  destruct (boolInput env "updateStoreListing") eqn:Husl;
    [|destruct (boolInput env "shouldUploadApks") eqn:Hupl; [now split|]].
  all: exfalso.
  all: assert (Hnone : Forall (fun ev => is_upload ev = false) (fst (run env)));
    [|rewrite Forall_forall in Hnone; specialize (Hnone _ Hin); congruence].
  all: apply run_events; try reflexivity.
  all: intros p _; unfold run_transaction; cbv zeta; rewrite Husl, ?Hupl; quiet.
  all: reflexivity.
Qed.

(** What [run] keeps of the inputs for the update of the track. *)
Lemma run_prepare_changelog (env : Env Number Note) (p : Prepared Number) :
  snd (run_prepare env) = inr p ->
  changelogFile p
  = (if boolInput env "shouldAttachMetadata" then None
     else input env "changelogFile")
  /\ versionCodeFilterType p = input env "versionCodeFilterType".
Proof.
  unfold run_prepare. cbv zeta.
  repeat (rewrite eff_value_bind;
          match goal with
          | |- match ?s with _ => _ end = _ -> _ =>
              destruct s; [discriminate|]
          end).
  cbn [snd Eff.ret]. intros [= <-]. cbn. split; reflexivity.
Qed.

(** X25.  [run] asks for the track only when the release needs it: when
    metadata is attached and the store listing is not updated, when a
    changelog file is given without metadata, or when APKs are uploaded. *)
Theorem track_update_condition (env : Env Number Note)
    (c : call Number (RunNotes Note)) :
  In (EvTrack c) (fst (run env)) ->
  (boolInput env "shouldAttachMetadata" = true
   /\ boolInput env "updateStoreListing" = false)
  \/ (boolInput env "shouldAttachMetadata" = false
      /\ truthy_string (input env "changelogFile") = true)
  \/ (boolInput env "updateStoreListing" = false
      /\ boolInput env "shouldUploadApks" = true).
Proof.
  intros Hin.
  destruct (boolInput env "shouldAttachMetadata") eqn:Hmeta;
    destruct (boolInput env "updateStoreListing") eqn:Husl;
    destruct (boolInput env "shouldUploadApks") eqn:Hupl;
    destruct (truthy_string (input env "changelogFile")) eqn:Hlog;
    try (left; split; reflexivity);
    try (right; left; split; reflexivity);
    try (right; right; split; reflexivity).
  all: exfalso.
  all: assert (Hnone : Forall (fun ev => is_track ev = false) (fst (run env)));
    [|rewrite Forall_forall in Hnone; specialize (Hnone _ Hin); discriminate].
  all: apply run_events; try reflexivity.
  all: intros p Hp; apply run_prepare_changelog in Hp as [Hfile _].
  all: rewrite Hmeta in Hfile.
  all: unfold run_transaction; cbv zeta; rewrite ?Hmeta, ?Husl, ?Hupl, ?Hfile.
  all: rewrite ?Hlog.
  all: quiet.
  all: try reflexivity.
  all: try match goal with
           | H : is_upload ?ev = true |- _ => destruct ev; try discriminate H
           end.
  all: try reflexivity.
  all: values; cbn in *; congruence.
Qed.

(** The update that [updateTrack] sends carries every new version code. *)
Lemma updateTrack_update_codes {Notes : Type}
    (store : Edits Number Notes) pkg tr new ty f uf up rn pkg' tr' codes uf' up' rn' :
  In (CallUpdateTrack pkg' tr' codes uf' up' rn')
     (fst (updateTrack store pkg tr new ty f uf up rn)) ->
  forall c, In c new -> In c codes.
Proof.
  intros Hin c Hc. rewrite updateTrack_run in Hin. cbn [fst] in Hin.
  apply in_app_or in Hin as [Hin|Hin].
  { destruct (strict_eq ty "all"); [destruct Hin|].
    destruct Hin as [Hin|[]]; discriminate Hin. }
  destruct (mergedVersionCodes (updateTrack store pkg tr new ty f uf up rn))
    as [sent|] eqn:Hsent; [|destruct Hin].
  assert (Hcodes : codes = sent).
  { unfold send, googleutil_updateTrack in Hin. cbn in Hin.
    destruct Hin as [Hin|[]]. now injection Hin. }
  subst sent. apply updateTrack_sent in Hsent as [[_ ->]|(_ & old & excluded & _ & ->)].
  - assumption.
  - apply merged_In. now right.
Qed.

(** The APKs sent to the store are those of the list, sent when the task
    uploads. *)
Lemma run_upload_events (env : Env Number Note) :
  Forall
    (fun ev =>
       match ev with
       | EvAddApk pkg f =>
           exists p,
             snd (run_prepare env) = inr p
             /\ boolInput env "updateStoreListing" = false
             /\ boolInput env "shouldUploadApks" = true
             /\ pkg = package (manifest p)
             /\ In f (apkFileList p)
       | _ => True
       end)
    (fst (run env)).
Proof.
  apply run_events; try (intros; exact I).
  intros p Hp. unfold run_transaction. cbv zeta.
  destruct (boolInput env "updateStoreListing") eqn:Husl;
    [|destruct (boolInput env "shouldUploadApks") eqn:Hupl].
  all: repeat first
         [ apply all_run_uploadApks_In; intros
         | apply all_in_run; intros
         | apply all_run_readVersionCodes; intros
         | apply all_call_out
         | apply all_bind; [|intros ? ?]
         | match goal with
           | |- Forall _ (fst (if ?b then _ else _)) => destruct b eqn:?
           | |- Forall _ (fst (match ?x with _ => _ end)) => destruct x eqn:?
           | |- Forall _ (fst (Eff.ret _)) => constructor
           | |- Forall _ (fst (Eff.throw _)) => constructor
           end ].
  all: try exact I.
  exists p. repeat split; assumption.
Qed.

(** When the task uploads, the update of the track carries the version
    code that the store gave to each APK of the list. *)
Lemma run_track_codes (env : Env Number Note) (p : Prepared Number) :
  snd (run_prepare env) = inr p ->
  boolInput env "updateStoreListing" = false ->
  boolInput env "shouldUploadApks" = true ->
  Forall
    (fun ev =>
       match ev with
       | EvTrack (CallUpdateTrack _ _ codes _ _ _) =>
           forall f, In f (apkFileList p) ->
             exists c, addApk env (package (manifest p)) f = inr c /\ In c codes
       | _ => True
       end)
    (fst (run env)).
Proof.
  intros Hp Husl Hupl. apply run_events; try (intros; exact I).
  intros p' Hp'. rewrite Hp in Hp'. injection Hp' as <-.
  unfold run_transaction. cbv zeta. rewrite Husl, Hupl.
  apply all_bind; [now apply all_call_out|]. intros _ _.
  apply all_bind; [now apply all_call_out|]. intros edit _.
  apply all_bind.
  { apply all_bind; [|intros; constructor].
    apply all_run_uploadApks_In; intros; exact I. }
  intros uploaded Hup. rewrite eff_value_bind in Hup.
  destruct (run_uploadApks env (package (manifest p)) (mainApkFile p) (apkFileList p))
    as [tr_up [e|codes_up]] eqn:Hrun; [discriminate Hup|].
  cbn in Hup. injection Hup as <-. cbn [fst snd].
  apply run_uploadApks_success in Hrun as [Hall _].
  apply all_bind.
  { destruct (boolInput env "shouldAttachMetadata").
    - apply all_bind; [now apply all_call_out|]. intros; constructor.
    - destruct (changelogFile p) as [file|]; [|constructor].
      destruct (truthy_string (Some file)); [|constructor].
      apply all_bind; [now apply all_call_out|]. intros; constructor. }
  intros notes _. destruct (snd notes); [|constructor].
  apply all_bind; [|intros; constructor].
  apply all_in_run_events. intros [pkg tr|pkg tr codes uf up rn] Hc; [exact I|].
  intros f Hf.
  assert (Hcode : exists c, In c codes_up /\ uploaded env (package (manifest p))
                                            (mainApkFile p) f c).
  { clear - Hall Hf. induction Hall as [|g c l cs Hg Hall IH]; [destruct Hf|].
    destruct Hf as [->|Hf].
    - exists c. split; [now left|assumption].
    - destruct (IH Hf) as (c' & Hc' & Hup). exists c'. split; [now right|assumption]. }
  destruct Hcode as (c & Hc_in & Hadd & _). exists c. split; [assumption|].
  eapply updateTrack_update_codes; eassumption.
Qed.

(** X26.  The version code that the store gave to an APK that [run] sent
    is among the version codes of the update of the track that [run] asks
    for. *)
Theorem uploaded_codes_reach_track (env : Env Number Note)
    (pkg tr : string) (codes : list Z) (uf up : Number) (rn : RunNotes Note)
    (pkg' apkFile : string) :
  In (EvTrack (CallUpdateTrack pkg tr codes uf up rn)) (fst (run env)) ->
  In (EvAddApk pkg' apkFile) (fst (run env)) ->
  exists c, addApk env pkg' apkFile = inr c /\ In c codes.
Proof.
  intros Htrack Hapk.
  pose proof (run_upload_events env) as Hup. rewrite Forall_forall in Hup.
  destruct (Hup _ Hapk) as (p & Hp & Husl & Hupl & -> & Hf).
  pose proof (run_track_codes env Hp Husl Hupl) as Hcodes.
  rewrite Forall_forall in Hcodes. exact (Hcodes _ Htrack _ Hf).
Qed.

(** X27.  Before anything is sent to the store, [run] authorizes the
    client and opens an edit: what comes before is reading manifests, and
    when one of the two fails nothing else is asked. *)
Theorem run_authorizes_first (env : Env Number Note) :
  exists reads calls,
    fst (run_steps env) = reads ++ calls
    /\ Forall (fun ev => exists p, ev = EvReadManifest p) reads
    /\ (calls = []
        \/ (exists key e, calls = [EvAuthorize key] /\ authorize env key = inl e)
        \/ (exists key pkg e,
              calls = [EvAuthorize key; EvGetNewEdit pkg]
              /\ getNewEdit env pkg = inl e)
        \/ (exists key pkg more,
              calls = EvAuthorize key :: EvGetNewEdit pkg :: more
              /\ authorize env key = inr tt
              /\ exists edit, getNewEdit env pkg = inr edit)).
Proof.
  exists (fst (run_prepare env)).
  exists (match snd (run_prepare env) with
          | inr p => fst (run_transaction env p)
          | inl _ => []
          end).
  split; [apply run_steps_trace|]. split; [apply run_prepare_reads|].
  destruct (snd (run_prepare env)) as [e|p]; [now left|]. right.
  unfold run_transaction. cbv zeta. unfold call_out at 1, Eff.emit at 1.
  destruct (authorize env (key p)) as [e|[]] eqn:Hauth.
  { left. exists (key p), e. split; [reflexivity|assumption]. }
  right. rewrite eff_trace_bind. cbn [fst snd of_exn app].
  unfold call_out at 1, Eff.emit at 1.
  destruct (getNewEdit env (package (manifest p))) as [e|edit] eqn:Hedit.
  { left. exists (key p), (package (manifest p)), e. split; [reflexivity|assumption]. }
  right. rewrite eff_trace_bind. cbn [fst snd of_exn app].
  eexists _, _, _. split; [reflexivity|]. split; [assumption|].
  now exists edit.
Qed.

End RunTheorems.

(** ** Instances of the properties above *)

Lemma updateTrack_result_witness :
  mergedVersionCodes
    (updateTrack (store_with []) "com.example" "beta" [7; 7]
       (Some "all"%string) FNull tt tt tt)
  = Some [7; 7]
  /\ snd (updateTrack (store_with []) "com.example" "beta" [7; 7]
            (Some "all"%string) FNull tt tt tt)
     = inr {| track := "beta"; releases := [{| versionCodes := [7; 7] |}] |}.
Proof.
  split; [reflexivity|].
  apply (@updateTrack_result unit unit fragment_runtime (store_with [])
           "com.example" "beta" [7; 7] (Some "all"%string) FNull tt tt tt [7; 7]).
  reflexivity.
Defined.

Lemma filter_type_beyond_all_is_ignored_witness :
  updateTrack (store_with [{| versionCodes := [1; 2; 3] |}]) "com.example" "beta"
    [5] (Some "list"%string) (FNumbers [2]) tt tt tt
  = updateTrack (store_with [{| versionCodes := [1; 2; 3] |}]) "com.example" "beta"
      [5] None (FNumbers [2]) tt tt tt.
Proof.
  apply (@filter_type_beyond_all_is_ignored unit unit fragment_runtime
           (store_with [{| versionCodes := [1; 2; 3] |}]) "com.example" "beta"
           [5] (Some "list"%string) None (FNumbers [2]) tt tt tt).
  - reflexivity.
  - reflexivity.
Defined.

Lemma invalid_pattern_sends_nothing_witness :
  new_RegExp (RegExpRuntime := fragment_runtime) "^($" = None
  /\ updateTrack (store_with [{| versionCodes := [1; 2; 3] |}]) "com.example" "beta"
       [5] (Some "expression"%string) (FString "(") tt tt tt
     = ([CallGetTrack "com.example" "beta"], inl SyntaxError).
Proof.
  split; [vm_compute; reflexivity|].
  refine (proj2 (proj2
            (@invalid_pattern_sends_nothing unit unit fragment_runtime
               (store_with [{| versionCodes := [1; 2; 3] |}]) "com.example" "beta"
               [5] (Some "expression"%string) tt tt tt "(" _ _)) [1; 2; 3] _).
  - reflexivity.
  - vm_compute; reflexivity.
  - reflexivity.
Defined.

Lemma unknown_filter_type_witness :
  run_versionCodeFilter (Some "none"%string) ["x"%string] None = inr FNull
  /\ updateTrack (store_with [{| versionCodes := [1; 2] |}]) "com.example" "beta"
       [5] (Some "none"%string) FNull tt tt tt
     = ([CallGetTrack "com.example" "beta"], inl TypeError)
  /\ mergedVersionCodes
       (updateTrack (store_with [{| versionCodes := [] |}]) "com.example" "beta"
          [5; 4; 5] (Some "none"%string) FNull tt tt tt)
     = Some (first_occurrences [5; 4; 5]).
Proof.
  split; [|split].
  - apply (@unknown_filter_type unit unit fragment_runtime
             (store_with [{| versionCodes := [1; 2] |}]) "com.example" "beta"
             [5] (Some "none"%string) tt tt tt ["x"%string] None);
      reflexivity.
  - refine (proj1 (proj2
              (@unknown_filter_type unit unit fragment_runtime
                 (store_with [{| versionCodes := [1; 2] |}]) "com.example" "beta"
                 [5] (Some "none"%string) tt tt tt [] None _ _ _)) 1 [2] _);
      reflexivity.
  - refine (proj2 (proj2
              (@unknown_filter_type unit unit fragment_runtime
                 (store_with [{| versionCodes := [] |}]) "com.example" "beta"
                 [5; 4; 5] (Some "none"%string) tt tt tt [] None _ _ _)) _);
      reflexivity.
Defined.

Lemma merged_codes_come_from_inputs_witness :
  mergedVersionCodes
    (updateTrack (store_with [{| versionCodes := [1; 2; 3] |}]) "com.example" "beta"
       [5; 3; 4] (Some "list"%string) (FNumbers [2]) tt tt tt)
  = Some [1; 3; 5; 4]
  /\ (forall c,
        In c [1; 3; 5; 4] ->
        In c [5; 3; 4]
        \/ exists old,
             oldVersionCodes (Number := unit) (Notes := unit)
               (store_with [{| versionCodes := [1; 2; 3] |}]) "com.example" "beta"
             = Some old
             /\ In c old).
Proof.
  split; [reflexivity|].
  apply (@merged_codes_come_from_inputs unit unit fragment_runtime
           (store_with [{| versionCodes := [1; 2; 3] |}]) "com.example" "beta"
           [5; 3; 4] (Some "list"%string) (FNumbers [2]) tt tt tt [1; 3; 5; 4]).
  reflexivity.
Defined.

Lemma uploads_already_on_track_witness :
  mergedVersionCodes
    (updateTrack (store_with [{| versionCodes := [1; 2; 3] |}]) "com.example" "beta"
       [3; 1] (Some "list"%string) (FNumbers [2]) tt tt tt)
  = Some [1; 3].
Proof.
  apply (@uploads_already_on_track unit unit fragment_runtime
           (store_with [{| versionCodes := [1; 2; 3] |}]) "com.example" "beta"
           [3; 1] (Some "list"%string) (FNumbers [2]) tt tt tt [1; 2; 3]
           (fun c => mem c [2])).
  - reflexivity.
  - reflexivity.
  - reflexivity.
  - intros c [<-|[<-|[]]]; split; simpl; auto.
Defined.

Lemma rerun_sends_same_codes_witness :
  exists codes',
    mergedVersionCodes
      (updateTrack (store_with [{| versionCodes := [1; 3; 5; 4] |}]) "com.example"
         "beta" [5; 3; 4] (Some "list"%string) (FNumbers [2]) tt tt tt)
    = Some codes'
    /\ (forall c, In c codes' <-> In c [1; 3; 5; 4])
    /\ ((forall c, In c [5; 3; 4] -> mem c [2] = false) -> codes' = [1; 3; 5; 4]).
Proof.
  apply (@rerun_sends_same_codes unit unit fragment_runtime
           (store_with [{| versionCodes := [1; 2; 3] |}])
           (store_with [{| versionCodes := [1; 3; 5; 4] |}]) "com.example" "beta"
           [5; 3; 4] (Some "list"%string) (FNumbers [2]) tt tt tt [1; 2; 3]
           [1; 3; 5; 4] (fun c => mem c [2])).
  - reflexivity.
  - reflexivity.
  - reflexivity.
  - reflexivity.
  - reflexivity.
Defined.

Lemma run_commits_last_witness :
  fst (run upload_env)
  = fst (run_steps upload_env) ++ [EvCommit; EvSetResult Succeeded]
  /\ In (@EvSetResult unit string Succeeded) (fst (run upload_env)).
Proof.
  split.
  - apply (proj1 (proj2 (proj2 (@run_commits_last unit string fragment_runtime
                                  upload_env))) tt).
    vm_compute; reflexivity.
  - apply (proj2 (proj2 (proj2 (@run_commits_last unit string fragment_runtime
                                  upload_env)))).
    split; [exists tt|exists tt]; vm_compute; reflexivity.
Defined.

Lemma uploads_only_when_asked_witness :
  boolInput upload_env "updateStoreListing" = false
  /\ boolInput upload_env "shouldUploadApks" = true.
Proof.
  apply (@uploads_only_when_asked unit string fragment_runtime upload_env
           (EvAddApk "com.example" "/work/b.apk")).
  - vm_compute. tauto.
  - reflexivity.
Defined.

(** A run that updates the store listing: the APKs are not sent and the
    track is not touched. *)
Example store_listing_run :
  fst (run listing_env)
  = [EvReadManifest "/data/build/app.apk";
     EvAuthorize {| client_email := Some "robot@example.com"%string;
                    private_key := Some "secret"%string |};
     EvGetNewEdit "com.example";
     EvAddMetadata [] (Some "/data/metadata"%string);
     EvCommit; EvSetResult Succeeded].
Proof. vm_compute; reflexivity. Qed.

Lemma track_update_condition_witness :
  boolInput upload_env "shouldAttachMetadata" = true
  /\ boolInput upload_env "updateStoreListing" = false
  \/ boolInput upload_env "shouldAttachMetadata" = false
     /\ truthy_string (input upload_env "changelogFile") = true
  \/ boolInput upload_env "updateStoreListing" = false
     /\ boolInput upload_env "shouldUploadApks" = true.
Proof.
  apply (@track_update_condition unit string fragment_runtime upload_env
           (CallGetTrack "com.example" "beta")).
  vm_compute. tauto.
Defined.

Lemma uploaded_codes_reach_track_witness :
  exists c,
    addApk upload_env "com.example" "/work/b.apk" = inr c /\ In c [19; 7; 11].
Proof.
  apply (@uploaded_codes_reach_track unit string fragment_runtime upload_env
           "com.example" "beta" [19; 7; 11] tt tt NotesUnset
           "com.example" "/work/b.apk").
  - vm_compute. tauto.
  - vm_compute. tauto.
Defined.
